(** * fast-map-cache: LRU cache with optional TTL, verified against its specification

    Shallow embedding of [src/fast-cache.ts] (class [FastCache]),
    [src/fast-cache-ttl.ts] (class [FastCacheWithTTL]), [src/index.ts] (the
    factories and presets) and the declarations of [src/types.ts].

    The JavaScript objects that make up the two intrusive doubly-linked lists
    are kept in an explicit object store: every object literal of the source
    ([{}] for a sentinel, [{key, value, prev: null, next: null}] for a node)
    takes the next free address, and a field assignment [o.f = x] is an update
    of the store at the address of [o].  Two references are the same object
    exactly when they are the same address, so aliasing is modelled as the
    source has it.  In a link field [null] and [undefined] are both [None]:
    the source only ever tests link fields for truthiness.

    [Date.now()] is an input of every operation that reads the clock.  The
    counters and the clock are integers below [2^53], which a JavaScript
    number holds exactly; [hitRate] is the one place where the code divides,
    and there a number is an IEEE 754 double. *)

From stdpp Require Import gmap strings list fin_maps sorting.
From Stdlib Require Import ZArith Lia.
From Stdlib Require SpecFloat.

Local Open Scope Z_scope.

(** ** Outcomes of a call: a result, a thrown error, or a loop cut off by its
    iteration budget. *)

Inductive Outcome (A : Type) : Type :=
  | Ok (a : A)
  | Throw (msg : string)
  | OutOfFuel.
Arguments Ok {A} a.
Arguments Throw {A} msg.
Arguments OutOfFuel {A}.

Definition bind {A B} (m : Outcome A) (k : A → Outcome B) : Outcome B :=
  match m with
  | Ok a => k a
  | Throw msg => Throw msg
  | OutOfFuel => OutOfFuel
  end.

Global Instance Outcome_bind : MBind Outcome := λ A B k m, bind m k.
Global Instance Outcome_ret : MRet Outcome := λ A a, Ok a.

(** [returns m P]: the call [m] returns, and its result satisfies [P]. *)
Definition returns {A} (m : Outcome A) (P : A → Prop) : Prop :=
  match m with
  | Ok a => P a
  | Throw _ => False
  | OutOfFuel => False
  end.

Definition TypeError : string := "TypeError: cannot access property of null or undefined".

(** ** Object store *)

Definition ptr := nat.

Section Nodes.
Context {K V : Type}.

(** [CacheNode] of [types.ts], field by field.  A node made by [set] has a
    key and a value; a sentinel is the empty object [{}], every field
    undefined, which is why [key] and [value] are options here. *)
Record CacheNode : Type := mkNode {
  key : option K;
  value : option V;
  prev : option ptr;
  next : option ptr;
  timestamp : option Z;
  timePrev : option ptr;
  timeNext : option ptr;
}.

Definition empty_object : CacheNode :=
  mkNode None None None None None None None.

Definition with_value (x : option V) (n : CacheNode) : CacheNode :=
  mkNode (key n) x (prev n) (next n) (timestamp n) (timePrev n) (timeNext n).
Definition with_prev (x : option ptr) (n : CacheNode) : CacheNode :=
  mkNode (key n) (value n) x (next n) (timestamp n) (timePrev n) (timeNext n).
Definition with_next (x : option ptr) (n : CacheNode) : CacheNode :=
  mkNode (key n) (value n) (prev n) x (timestamp n) (timePrev n) (timeNext n).
Definition with_timestamp (x : option Z) (n : CacheNode) : CacheNode :=
  mkNode (key n) (value n) (prev n) (next n) x (timePrev n) (timeNext n).
Definition with_timePrev (x : option ptr) (n : CacheNode) : CacheNode :=
  mkNode (key n) (value n) (prev n) (next n) (timestamp n) x (timeNext n).
Definition with_timeNext (x : option ptr) (n : CacheNode) : CacheNode :=
  mkNode (key n) (value n) (prev n) (next n) (timestamp n) (timePrev n) x.

(** The store: the objects allocated so far, by address.  A store is read
    as a function from addresses to objects ([h p] is the object at [p]); an
    address that holds nothing yet reads as the empty object. *)
Record Heap : Type := mkHeap { cells : gmap ptr CacheNode }.

Definition deref (h : Heap) (p : ptr) : CacheNode :=
  default empty_object (cells h !! p).
Coercion deref : Heap >-> Funclass.

Definition empty_heap : Heap := mkHeap ∅.

(** [o.f = x] where [o] lives at address [p]. *)
Definition upd (h : Heap) (p : ptr) (f : CacheNode → CacheNode) : Heap :=
  mkHeap (<[p := f (deref h p)]> (cells h)).

(** Following one link field from [cur] until [stop]; the lists of a cache
    with [n] allocated objects have fewer than [n] nodes.  The source has no
    such traversal for the recency list (and only [cleanup] looks at the head
    of the time list): this is how a list is observed from outside. *)
Fixpoint walk (link : CacheNode → option ptr) (fuel : nat) (h : Heap)
    (cur : option ptr) (stop : ptr) : option (list ptr) :=
  match fuel with
  | O => None
  | S fuel' =>
      match cur with
      | None => None
      | Some p =>
          if decide (p = stop) then Some []
          else (p ::.) <$> walk link fuel' h (link (h p)) stop
      end
  end.
End Nodes.
Arguments CacheNode : clear implicits.
Arguments Heap : clear implicits.
Arguments deref : simpl never.
Arguments upd : simpl never.

(** ** Numbers

    [hitRate: number] is the result of a division of JavaScript numbers: an
    IEEE 754 binary64 value, rounded to nearest, ties to even, with [0 / 0]
    being [NaN].  The standard library's specification of binary floating
    point says what that is. *)
Definition number : Type := SpecFloat.spec_float.

(** The double nearest to an integer (the integer itself below [2^53]). *)
Definition number_of_Z (z : Z) : number :=
  SpecFloat.binary_normalize 53 1024 z 0 false.

(** [x / y] *)
Definition number_div (x y : number) : number := SpecFloat.SFdiv 53 1024 x y.

(** [CacheStats] of [types.ts]; [expired] is its optional field. *)
Record CacheStats : Type := mkStats {
  stat_hits : Z;
  stat_misses : Z;
  stat_hitRate : number;
  stat_size : Z;
  stat_capacity : Z;
  stat_expired : option Z;
}.

(** [CacheOptions] of [types.ts]; every field but [maxSize] is optional. *)
Record CacheOptions : Type := mkOptions {
  opt_maxSize : Z;
  opt_ttl : option Z;
  opt_autoCleanup : option bool;
  opt_cleanupInterval : option Z;
}.

(** ** Values

    The value type [V] of a cache is any TypeScript type, and may count
    [undefined] among its values: [set(k, undefined)] type-checks when it
    does.  [is_undefined] tells that value from the others; [getMany] is
    where the code tests for it.  In the result of [get], [None] is the
    [undefined] of a miss and [Some v] the stored value, which a caller
    cannot tell from a miss when [is_undefined v]. *)
Class Undefinable (V : Type) : Type := is_undefined : V → bool.

(** [number] has no [undefined]; [T | undefined] has one. *)
Global Instance Z_undefinable : Undefinable Z := λ _, false.

Global Instance option_undefinable {A : Type} : Undefinable (option A) :=
  λ v, match v with
       | None => true
       | Some _ => false
       end.

(** ** [FastCache]: the LRU core *)

Module FastCache.
Section WithKV.
Context `{Countable K} {V : Type}.

Record t : Type := mk {
  cache : gmap K ptr;
  heap : Heap K V;
  head : ptr;
  tail : ptr;
  maxSize : Z;
  hits : Z;
  misses : Z;
  (** the next free address of the object store *)
  nextptr : ptr;
}.

Definition with_heap (s : t) (h : Heap K V) : t :=
  mk (cache s) h (head s) (tail s) (maxSize s) (hits s) (misses s) (nextptr s).
Definition with_cache (s : t) (c : gmap K ptr) : t :=
  mk c (heap s) (head s) (tail s) (maxSize s) (hits s) (misses s) (nextptr s).
Definition with_hits (s : t) (n : Z) : t :=
  mk (cache s) (heap s) (head s) (tail s) (maxSize s) n (misses s) (nextptr s).
Definition with_misses (s : t) (n : Z) : t :=
  mk (cache s) (heap s) (head s) (tail s) (maxSize s) (hits s) n (nextptr s).

(** An object literal: the new object takes the next free address. *)
Definition alloc (s : t) (o : CacheNode K V) : ptr * t :=
  (nextptr s,
   mk (cache s) (upd (heap s) (nextptr s) (λ _, o)) (head s) (tail s)
      (maxSize s) (hits s) (misses s) (S (nextptr s))).

Definition new (maxSize : Z) : Outcome t :=
  if maxSize <=? 0 then Throw "Cache size must be positive"
  else
    let h0 : Heap K V := empty_heap in
    let hd := 0%nat in
    let tl := 1%nat in
    let h1 := upd h0 hd (with_next (Some tl)) in
    let h2 := upd h1 tl (with_prev (Some hd)) in
    Ok (mk ∅ h2 hd tl maxSize 0 0 2%nat).

Definition addToHead (s : t) (node : ptr) : Outcome t :=
  let h1 := upd (heap s) node (with_prev (Some (head s))) in
  let h2 := upd h1 node (with_next (next (h1 (head s)))) in
  match next (h2 (head s)) with
  | None => Throw TypeError
  | Some first =>
      let h3 := upd h2 first (with_prev (Some node)) in
      let h4 := upd h3 (head s) (with_next (Some node)) in
      Ok (with_heap s h4)
  end.

Definition removeNode (s : t) (node : ptr) : t :=
  let h := heap s in
  let h1 := match prev (h node) with
            | Some p => upd h p (with_next (next (h node)))
            | None => h
            end in
  let h2 := match next (h1 node) with
            | Some n => upd h1 n (with_prev (prev (h1 node)))
            | None => h1
            end in
  with_heap s h2.

Definition moveToHead (s : t) (node : ptr) : Outcome t :=
  addToHead (removeNode s node) node.

(** [Map.prototype.delete] with the key read off a node: a sentinel has no
    key, and [undefined] is never a key of the index. *)
Definition cache_delete (k : option K) (c : gmap K ptr) : gmap K ptr :=
  match k with
  | Some k => delete k c
  | None => c
  end.

Definition removeTail (s : t) : t :=
  match prev (heap s (tail s)) with
  | Some lastNode =>
      if decide (lastNode = head s) then s
      else
        let s1 := with_cache s (cache_delete (key (heap s lastNode)) (cache s)) in
        removeNode s1 lastNode
  | None => s
  end.

Definition get (s : t) (k : K) : Outcome (t * option V) :=
  match cache s !! k with
  | None => Ok (with_misses s (misses s + 1), None)
  | Some node =>
      s1 ← moveToHead s node;
      let s2 := with_hits s1 (hits s1 + 1) in
      Ok (s2, value (heap s2 node))
  end.

Definition set (s : t) (k : K) (v : V) : Outcome t :=
  match cache s !! k with
  | Some existingNode =>
      let s1 := with_heap s (upd (heap s) existingNode (with_value (Some v))) in
      moveToHead s1 existingNode
  | None =>
      let '(newNode, s1) :=
        alloc s (mkNode (Some k) (Some v) None None None None None) in
      let s2 :=
        if Z.of_nat (size (cache s1)) >=? maxSize s1 then removeTail s1 else s1 in
      let s3 := with_cache s2 (<[k := newNode]> (cache s2)) in
      addToHead s3 newNode
  end.

Definition delete (s : t) (k : K) : t * bool :=
  match cache s !! k with
  | None => (s, false)
  | Some node =>
      let s1 := with_cache s (base.delete k (cache s)) in
      (removeNode s1 node, true)
  end.

Definition clear (s : t) : t :=
  let h1 := upd (heap s) (head s) (with_next (Some (tail s))) in
  let h2 := upd h1 (tail s) (with_prev (Some (head s))) in
  mk ∅ h2 (head s) (tail s) (maxSize s) 0 0 (nextptr s).

Definition has (s : t) (k : K) : bool :=
  bool_decide (is_Some (cache s !! k)).

Definition setMany (s : t) (entries : list (K * V)) : Outcome t :=
  foldl (λ acc e, s' ← acc; set s' e.1 e.2) (Ok s) entries.

(** [value !== undefined] fails for a miss and for a stored [undefined]. *)
Definition getMany `{!Undefinable V} (s : t) (keys : list K) : Outcome (t * gmap K V) :=
  foldl (λ acc k,
           '(s', result) ← acc;
           '(s'', v) ← get s' k;
           Ok (s'', match v with
                    | Some x => if is_undefined x then result else <[k := x]> result
                    | None => result
                    end))
        (Ok (s, ∅)) keys.

Definition size (s : t) : Z := Z.of_nat (base.size (cache s)).

Definition capacity (s : t) : Z := maxSize s.

Definition getStats (s : t) : CacheStats :=
  let total := hits s + misses s in
  mkStats (hits s) (misses s)
          (if total >? 0 then number_div (number_of_Z (hits s)) (number_of_Z total)
           else number_of_Z 0)
          (size s) (capacity s) None.

(** The recency list as it is linked in the store, head to tail. *)
Definition lru_list (s : t) : option (list ptr) :=
  walk next (nextptr s) (heap s) (next (heap s (head s))) (tail s).

Definition keys_of (h : Heap K V) (l : list ptr) : list (option K) :=
  (λ p, key (h p)) <$> l.

Definition lru_keys (s : t) : option (list (option K)) :=
  keys_of (heap s) <$> lru_list s.
End WithKV.
Arguments t K {_ _} V.
End FastCache.

(** ** [FastCacheWithTTL]: the TTL extension

    The class extends [FastCache]: its state is the state of the LRU core
    ([base]) and the fields it adds.  None of the methods of the core that the
    core itself calls ([removeTail], [moveToHead], [addToHead], [removeNode])
    is overridden, so [super.set], [super.get] and [super.delete] are the
    functions of [FastCache] applied to [base]. *)

Module FastCacheWithTTL.
Section WithKV.
Context `{Countable K} {V : Type}.

Record t : Type := mk {
  base : FastCache.t K V;
  ttl : Z;
  autoCleanup : bool;
  (** the interval of the timer started by the constructor, if any *)
  cleanupTimer : option Z;
  timeHead : ptr;
  timeTail : ptr;
  expired : Z;
}.

Definition with_base (c : t) (b : FastCache.t K V) : t :=
  mk b (ttl c) (autoCleanup c) (cleanupTimer c) (timeHead c) (timeTail c) (expired c).
Definition with_expired (c : t) (n : Z) : t :=
  mk (base c) (ttl c) (autoCleanup c) (cleanupTimer c) (timeHead c) (timeTail c) n.
Definition with_heap (c : t) (h : Heap K V) : t :=
  with_base c (FastCache.with_heap (base c) h).

Definition cache (c : t) : gmap K ptr := FastCache.cache (base c).
Definition heap (c : t) : Heap K V := FastCache.heap (base c).

Definition new (options : CacheOptions) : Outcome t :=
  b ← FastCache.new (opt_maxSize options);
  if match opt_ttl options with Some x => x <=? 0 | None => false end
  then Throw "TTL must be positive"
  else
    let ttl := default 0 (opt_ttl options) in
    let autoCleanup := default false (opt_autoCleanup options) in
    let '(timeHead, b1) := FastCache.alloc b empty_object in
    let '(timeTail, b2) := FastCache.alloc b1 empty_object in
    let h1 := upd (FastCache.heap b2) timeHead (with_timeNext (Some timeTail)) in
    let h2 := upd h1 timeTail (with_timePrev (Some timeHead)) in
    let timer :=
      if autoCleanup && (ttl >? 0)
      then Some (default ttl (opt_cleanupInterval options))
      else None in
    Ok (mk (FastCache.with_heap b2 h2) ttl autoCleanup timer timeHead timeTail 0).

(** [now] is the clock reading: the argument when [cleanup] passes one,
    [Date.now()] otherwise. *)
Definition isExpired (c : t) (node : ptr) (now : Z) : bool :=
  if ttl c =? 0 then false
  else
    match timestamp (heap c node) with
    | None => false
    | Some ts => now - ts >? ttl c
    end.

Definition _addToTimeListTail (c : t) (node : ptr) : Outcome t :=
  match timePrev (heap c (timeTail c)) with
  | None => Throw TypeError
  | Some prev =>
      let h1 := upd (heap c) prev (with_timeNext (Some node)) in
      let h2 := upd h1 node (with_timePrev (Some prev)) in
      let h3 := upd h2 node (with_timeNext (Some (timeTail c))) in
      let h4 := upd h3 (timeTail c) (with_timePrev (Some node)) in
      Ok (with_heap c h4)
  end.

Definition _removeFromTimeList (c : t) (node : ptr) : t :=
  let h := heap c in
  let h1 := match timePrev (h node) with
            | Some p => upd h p (with_timeNext (timeNext (h node)))
            | None => h
            end in
  let h2 := match timeNext (h1 node) with
            | Some n => upd h1 n (with_timePrev (timePrev (h1 node)))
            | None => h1
            end in
  with_heap c h2.

Definition _moveToTimeListTail (c : t) (node : ptr) : Outcome t :=
  _addToTimeListTail (_removeFromTimeList c node) node.

Definition delete (c : t) (k : K) : t * bool :=
  match cache c !! k with
  | None => (c, false)
  | Some node =>
      let c1 := _removeFromTimeList c node in
      let '(b, r) := FastCache.delete (base c1) k in
      (with_base c1 b, r)
  end.

(** [this.delete(node.key)]: a sentinel has no key, and [undefined] is never
    a key of the index. *)
Definition delete_key_of (c : t) (k : option K) : t * bool :=
  match k with
  | Some k => delete c k
  | None => (c, false)
  end.

Definition with_misses (c : t) (n : Z) : t :=
  with_base c (FastCache.with_misses (base c) n).

Definition get (c : t) (k : K) (now : Z) : Outcome (t * option V) :=
  match cache c !! k with
  | None => Ok (with_misses c (FastCache.misses (base c) + 1), None)
  | Some node =>
      if isExpired c node now then
        let c1 := (delete c k).1 in
        let c2 := with_expired c1 (expired c1 + 1) in
        let c3 := with_misses c2 (FastCache.misses (base c2) + 1) in
        Ok (c3, None)
      else
        '(b, v) ← FastCache.get (base c) k;
        Ok (with_base c b, v)
  end.

Definition set (c : t) (k : K) (v : V) (clock : Z) : Outcome t :=
  let existingNode := cache c !! k in
  let now := if ttl c >? 0 then clock else 0 in
  b ← FastCache.set (base c) k v;
  let c1 := with_base c b in
  match cache c1 !! k with
  | None => Throw TypeError
  | Some node =>
      let c2 := with_heap c1 (upd (heap c1) node (with_timestamp (Some now))) in
      match existingNode with
      | Some _ => _moveToTimeListTail c2 node
      | None => _addToTimeListTail c2 node
      end
  end.

Definition clear (c : t) : t :=
  let b := FastCache.clear (base c) in
  let h1 := upd (FastCache.heap b) (timeHead c) (with_timeNext (Some (timeTail c))) in
  let h2 := upd h1 (timeTail c) (with_timePrev (Some (timeHead c))) in
  mk (FastCache.with_heap b h2) (ttl c) (autoCleanup c) (cleanupTimer c)
     (timeHead c) (timeTail c) 0.

Definition has (c : t) (k : K) (now : Z) : t * bool :=
  match cache c !! k with
  | None => (c, false)
  | Some node =>
      if isExpired c node now then
        let c1 := (delete c k).1 in
        (with_expired c1 (expired c1 + 1), false)
      else (c, true)
  end.

Definition size (c : t) : Z := Z.of_nat (base.size (cache c)).

Definition capacity (c : t) : Z := FastCache.maxSize (base c).

(** Each entry comes with the clock reading of its own [set]. *)
Definition setMany (c : t) (entries : list (K * V * Z)) : Outcome t :=
  foldl (λ acc e, c' ← acc; set c' e.1.1 e.1.2 e.2) (Ok c) entries.

(** Each key comes with the clock reading of its own [get]. *)
Definition getMany `{!Undefinable V} (c : t) (keys : list (K * Z))
    : Outcome (t * gmap K V) :=
  foldl (λ acc k,
           '(c', result) ← acc;
           '(c'', v) ← get c' k.1 k.2;
           Ok (c'', match v with
                    | Some x => if is_undefined x then result else <[k.1 := x]> result
                    | None => result
                    end))
        (Ok (c, ∅)) keys.

Definition getStats (c : t) : CacheStats :=
  let stats := FastCache.getStats (base c) in
  mkStats (stat_hits stats) (stat_misses stats) (stat_hitRate stats)
          (stat_size stats) (stat_capacity stats) (Some (expired c)).

(** The [while] loop of [cleanup]; [fuel] bounds the number of iterations. *)
Fixpoint cleanup_loop (fuel : nat) (c : t) (now : Z) (removedCount : Z)
    (currentNode : option ptr) : Outcome (t * Z) :=
  match fuel with
  | O => OutOfFuel
  | S fuel' =>
      match currentNode with
      | None => Ok (c, removedCount)
      | Some node =>
          if decide (node = timeTail c) then Ok (c, removedCount)
          else if isExpired c node now then
            let c1 := (delete_key_of c (key (heap c node))).1 in
            let c2 := with_expired c1 (expired c1 + 1) in
            cleanup_loop fuel' c2 now (removedCount + 1)
                         (timeNext (heap c2 (timeHead c2)))
          else Ok (c, removedCount)
      end
  end.

Definition cleanup (fuel : nat) (c : t) (now : Z) : Outcome (t * Z) :=
  if ttl c =? 0 then Ok (c, 0)
  else cleanup_loop fuel c now 0 (timeNext (heap c (timeHead c))).

Definition destroy (c : t) : t :=
  match cleanupTimer c with
  | Some _ =>
      mk (base c) (ttl c) (autoCleanup c) None (timeHead c) (timeTail c) (expired c)
  | None => c
  end.

(** The two lists as they are linked in the store, head to tail. *)
Definition lru_list (c : t) : option (list ptr) := FastCache.lru_list (base c).

Definition time_list (c : t) : option (list ptr) :=
  walk timeNext (FastCache.nextptr (base c)) (heap c)
       (timeNext (heap c (timeHead c))) (timeTail c).

Definition lru_keys (c : t) : option (list (option K)) :=
  FastCache.keys_of (heap c) <$> lru_list c.

Definition time_keys (c : t) : option (list (option K)) :=
  FastCache.keys_of (heap c) <$> time_list c.
End WithKV.
Arguments t K {_ _} V.
End FastCacheWithTTL.

(** ** The factories and presets ([index.ts])

    A parameter with a default value is an [option]: [None] when the caller
    leaves it out. *)

Section Factories.
Context `{Countable K} {V : Type}.

Definition createCache (maxSize : Z) : Outcome (FastCache.t K V) :=
  FastCache.new maxSize.

Definition createCacheWithTTL (options : CacheOptions)
    : Outcome (FastCacheWithTTL.t K V) :=
  FastCacheWithTTL.new options.
End Factories.

Module CachePresets.
Section WithV.
Context {V : Type}.

Definition apiCache (maxSize : option Z) : Outcome (FastCache.t string V) :=
  createCache (default 1000 maxSize).

Definition computeCache (maxSize : option Z) : Outcome (FastCache.t string V) :=
  createCache (default 500 maxSize).

Definition sessionCache (maxSize ttl : option Z) : Outcome (FastCacheWithTTL.t string V) :=
  createCacheWithTTL
    (mkOptions (default 100 maxSize) (Some (default (30 * 60 * 1000) ttl)) (Some true) None).

Definition tempCache (maxSize ttl : option Z) : Outcome (FastCacheWithTTL.t string V) :=
  createCacheWithTTL
    (mkOptions (default 200 maxSize) (Some (default (5 * 60 * 1000) ttl)) (Some true) None).
End WithV.
End CachePresets.

(** ** Sequences of calls

    A client drives a cache by a sequence of calls; each call that reads the
    clock carries the reading.  [run] is the state after the calls together
    with what each of them returned. *)

Module LRU.
Section WithKV.
Context `{Countable K} {V : Type}.

Inductive Op : Type :=
  | OpGet (k : K)
  | OpSet (k : K) (v : V)
  | OpDelete (k : K)
  | OpClear
  | OpHas (k : K).

Inductive Out : Type :=
  | RGet (r : option V)
  | RSet
  | RDelete (r : bool)
  | RClear
  | RHas (r : bool).

Definition step (s : FastCache.t K V) (op : Op) : Outcome (FastCache.t K V * Out) :=
  match op with
  | OpGet k => '(s', r) ← FastCache.get s k; Ok (s', RGet r)
  | OpSet k v => s' ← FastCache.set s k v; Ok (s', RSet)
  | OpDelete k => let '(s', r) := FastCache.delete s k in Ok (s', RDelete r)
  | OpClear => Ok (FastCache.clear s, RClear)
  | OpHas k => Ok (s, RHas (FastCache.has s k))
  end.

Fixpoint run (s : FastCache.t K V) (ops : list Op)
    : Outcome (FastCache.t K V * list Out) :=
  match ops with
  | [] => Ok (s, [])
  | op :: ops' =>
      '(s1, o) ← step s op;
      '(s2, os) ← run s1 ops';
      Ok (s2, o :: os)
  end.

(** What a client that watches the results of its calls counts as hits and
    misses: a [get] that returned a value, a [get] that returned nothing;
    [clear] starts the count again. *)
Definition record (acc : Z * Z) (o : Out) : Z * Z :=
  match o with
  | RGet (Some _) => (acc.1 + 1, acc.2)
  | RGet None => (acc.1, acc.2 + 1)
  | RClear => (0, 0)
  | _ => acc
  end.

Definition recorded (outs : list Out) : Z * Z := foldl record (0, 0) outs.

(** The LRU policy in the words of the specification: the keys of the cache in
    the order of their last use, most recent first.  A [get] that hits and a
    [set] of a key that is there bring the key to the front; a [set] of a new
    key puts it at the front, after the last key has left when the cache is
    full; [delete] takes the key out; [clear] takes all out; [has] changes
    nothing. *)
Definition touch (k : K) (ks : list K) : list K :=
  k :: filter (λ x, x ≠ k) ks.

Definition spec_step (capacity : Z) (ks : list K) (op : Op) : list K :=
  match op with
  | OpGet k => if decide (k ∈ ks) then touch k ks else ks
  | OpSet k _ =>
      if decide (k ∈ ks) then touch k ks
      else k :: (if Z.of_nat (length ks) >=? capacity then removelast ks else ks)
  | OpDelete k => filter (λ x, x ≠ k) ks
  | OpClear => []
  | OpHas _ => ks
  end.

Definition spec_run (capacity : Z) (ops : list Op) : list K :=
  foldl (spec_step capacity) [] ops.

(** The states a client can bring a cache of capacity [c] into. *)
Definition reachable (c : Z) (s : FastCache.t K V) : Prop :=
  ∃ s0 ops outs, FastCache.new c = Ok s0 ∧ run s0 ops = Ok (s, outs).
End WithKV.
Arguments Op : clear implicits.
Arguments Out : clear implicits.
End LRU.

Module TTL.
Section WithKV.
Context `{Countable K} {V : Type}.

Inductive Op : Type :=
  | OpGet (k : K) (now : Z)
  | OpSet (k : K) (v : V) (now : Z)
  | OpDelete (k : K)
  | OpClear
  | OpHas (k : K) (now : Z)
  | OpCleanup (fuel : nat) (now : Z)
  | OpDestroy.

Inductive Out : Type :=
  | RGet (r : option V)
  | RSet
  | RDelete (r : bool)
  | RClear
  | RHas (r : bool)
  | RCleanup (removed : Z)
  | RDestroy.

Definition step (c : FastCacheWithTTL.t K V) (op : Op)
    : Outcome (FastCacheWithTTL.t K V * Out) :=
  match op with
  | OpGet k now => '(c', r) ← FastCacheWithTTL.get c k now; Ok (c', RGet r)
  | OpSet k v now => c' ← FastCacheWithTTL.set c k v now; Ok (c', RSet)
  | OpDelete k => let '(c', r) := FastCacheWithTTL.delete c k in Ok (c', RDelete r)
  | OpClear => Ok (FastCacheWithTTL.clear c, RClear)
  | OpHas k now => let '(c', r) := FastCacheWithTTL.has c k now in Ok (c', RHas r)
  | OpCleanup fuel now =>
      '(c', n) ← FastCacheWithTTL.cleanup fuel c now; Ok (c', RCleanup n)
  | OpDestroy => Ok (FastCacheWithTTL.destroy c, RDestroy)
  end.

Fixpoint run (c : FastCacheWithTTL.t K V) (ops : list Op)
    : Outcome (FastCacheWithTTL.t K V * list Out) :=
  match ops with
  | [] => Ok (c, [])
  | op :: ops' =>
      '(c1, o) ← step c op;
      '(c2, os) ← run c1 ops';
      Ok (c2, o :: os)
  end.

Definition record (acc : Z * Z) (o : Out) : Z * Z :=
  match o with
  | RGet (Some _) => (acc.1 + 1, acc.2)
  | RGet None => (acc.1, acc.2 + 1)
  | RClear => (0, 0)
  | _ => acc
  end.

Definition recorded (outs : list Out) : Z * Z := foldl record (0, 0) outs.

Definition reachable (options : CacheOptions) (c : FastCacheWithTTL.t K V) : Prop :=
  ∃ c0 ops outs, FastCacheWithTTL.new options = Ok c0 ∧ run c0 ops = Ok (c, outs).
End WithKV.
Arguments Op : clear implicits.
Arguments Out : clear implicits.
End TTL.

(** ** Representation invariants *)

Section Chains.
Context {K V : Type}.

(** [chain nxt prv h l]: in the store [h], every element of [l] is linked
    forward to its successor in [l] and the successor back to it. *)
Fixpoint chain (nxt prv : CacheNode K V → option ptr) (h : Heap K V)
    (l : list ptr) : Prop :=
  match l with
  | x :: t =>
      match t with
      | y :: _ => (nxt (h x) = Some y ∧ prv (h y) = Some x) ∧ chain nxt prv h t
      | [] => True
      end
  | [] => True
  end.

(** A well-formed list between two sentinels. *)
Definition dll (nxt prv : CacheNode K V → option ptr) (h : Heap K V)
    (a : ptr) (l : list ptr) (b : ptr) : Prop :=
  NoDup (a :: l ++ [b]) ∧ chain nxt prv h (a :: l ++ [b]).

(** The common shape of [removeNode] and [_removeFromTimeList]. *)
Definition unlink (nxt prv : CacheNode K V → option ptr)
    (set_nxt set_prv : option ptr → CacheNode K V → CacheNode K V)
    (h : Heap K V) (node : ptr) : Heap K V :=
  let h1 := match prv (h node) with
            | Some p => upd h p (set_nxt (nxt (h node)))
            | None => h
            end in
  match nxt (h1 node) with
  | Some n => upd h1 n (set_prv (prv (h1 node)))
  | None => h1
  end.

Definition without (p : ptr) (l : list ptr) : list ptr :=
  filter (λ q, q ≠ p) l.

(** Two stores agree on the field [f] of every object below address [n]. *)
Definition agree_on {A} (n : nat) (f : CacheNode K V → A) (h h' : Heap K V) : Prop :=
  ∀ q, (q < n)%nat → f (h' q) = f (h q).

(** What the link operations of the recency list leave alone, and what the
    link operations of the time list leave alone. *)
Definition lru_frame (n : nat) (h h' : Heap K V) : Prop :=
  agree_on n key h h' ∧ agree_on n value h h' ∧ agree_on n timestamp h h' ∧
  agree_on n timePrev h h' ∧ agree_on n timeNext h h'.

Definition time_frame (n : nat) (h h' : Heap K V) : Prop :=
  agree_on n key h h' ∧ agree_on n value h h' ∧ agree_on n timestamp h h' ∧
  agree_on n prev h h' ∧ agree_on n next h h'.
End Chains.

Section Invariants.
Context `{Countable K} {V : Type}.

(** The LRU core: the recency list is well formed, and its nodes are exactly
    the nodes of the index, each under its own key. *)
Record InvL (s : FastCache.t K V) (l : list ptr) : Prop := {
  invl_dll : dll next prev (FastCache.heap s) (FastCache.head s) l (FastCache.tail s);
  invl_idx : ∀ k p, FastCache.cache s !! k = Some p →
               p ∈ l ∧ key (FastCache.heap s p) = Some k;
  invl_live : ∀ p, p ∈ l →
               ∃ k, key (FastCache.heap s p) = Some k ∧ FastCache.cache s !! k = Some p;
  invl_val : ∀ p, p ∈ l → is_Some (value (FastCache.heap s p));
  invl_fresh : ∀ p, p ∈ FastCache.head s :: l ++ [FastCache.tail s] →
               (p < FastCache.nextptr s)%nat;
  invl_cap : 0 < FastCache.maxSize s;
  invl_size : Z.of_nat (size (FastCache.cache s)) ≤ FastCache.maxSize s;
}.

(** The TTL extension: the time list is well formed and holds every node of
    the recency list.  (It may hold more: see [removeTail].) *)
Record InvT (c : FastCacheWithTTL.t K V) (l tl : list ptr) : Prop := {
  invt_base : InvL (FastCacheWithTTL.base c) l;
  invt_dll : dll timeNext timePrev (FastCacheWithTTL.heap c)
               (FastCacheWithTTL.timeHead c) tl (FastCacheWithTTL.timeTail c);
  invt_sub : ∀ p, p ∈ l → p ∈ tl;
  invt_fresh : ∀ p, p ∈ FastCacheWithTTL.timeHead c :: tl ++ [FastCacheWithTTL.timeTail c] →
               (p < FastCache.nextptr (FastCacheWithTTL.base c))%nat;
  invt_ts : ∀ p, p ∈ l → is_Some (timestamp (FastCacheWithTTL.heap c p));
  invt_ttl : 0 ≤ FastCacheWithTTL.ttl c;
}.

(** The counters [hits], [misses] and [expired] of a TTL cache, its
    configuration ([ttl] and [maxSize]), and the payload of a node. *)
Definition stats (c : FastCacheWithTTL.t K V) : Z * Z * Z :=
  (FastCache.hits (FastCacheWithTTL.base c),
   FastCache.misses (FastCacheWithTTL.base c),
   FastCacheWithTTL.expired c).

Definition config (c : FastCacheWithTTL.t K V) : Z * Z :=
  (FastCacheWithTTL.ttl c, FastCache.maxSize (FastCacheWithTTL.base c)).

Definition node_data (h : Heap K V) (q : ptr) : option K * option V * option Z :=
  (key (h q), value (h q), timestamp (h q)).
End Invariants.

(** ** The LRU core as its client sees it

    The pairs of key and value the cache holds, most recently used first, and
    what each call does to them and returns.  This is what the linked
    structure is compared with. *)

Section ClientView.
Context `{Countable K} {V : Type}.

Fixpoint assoc (k : K) (m : list (K * V)) : option V :=
  match m with
  | [] => None
  | e :: m' => if decide (e.1 = k) then Some e.2 else assoc k m'
  end.

Definition drop_key (k : K) (m : list (K * V)) : list (K * V) :=
  filter (λ e, e.1 ≠ k) m.

Definition view_step (capacity : Z) (m : list (K * V)) (op : LRU.Op K V)
    : list (K * V) * LRU.Out V :=
  match op with
  | LRU.OpGet k =>
      match assoc k m with
      | Some v => ((k, v) :: drop_key k m, LRU.RGet (Some v))
      | None => (m, LRU.RGet None)
      end
  | LRU.OpSet k v =>
      (if decide (k ∈ m.*1) then (k, v) :: drop_key k m
       else (k, v) :: (if Z.of_nat (length m) >=? capacity then removelast m else m),
       LRU.RSet)
  | LRU.OpDelete k => (drop_key k m, LRU.RDelete (bool_decide (k ∈ m.*1)))
  | LRU.OpClear => ([], LRU.RClear)
  | LRU.OpHas k => (m, LRU.RHas (bool_decide (k ∈ m.*1)))
  end.

Fixpoint view_run (capacity : Z) (m : list (K * V)) (ops : list (LRU.Op K V))
    : list (K * V) * list (LRU.Out V) :=
  match ops with
  | [] => (m, [])
  | op :: ops' =>
      let '(m1, o) := view_step capacity m op in
      let '(m2, os) := view_run capacity m1 ops' in
      (m2, o :: os)
  end.

(** The key and the value of each node of a list, and the recency list of a
    cache read this way. *)
Definition entries_of (h : Heap K V) (l : list ptr) : list (option K * option V) :=
  (λ p, (key (h p), value (h p))) <$> l.

Definition lru_entries (s : FastCache.t K V) : option (list (option K * option V)) :=
  entries_of (FastCache.heap s) <$> FastCache.lru_list s.

Definition shown (m : list (K * V)) : list (option K * option V) :=
  (λ e, (Some e.1, Some e.2)) <$> m.
End ClientView.

(** ** The TTL cache as its client sees it

    The entries the cache holds, most recently used first, each with the
    clock reading of its last [set], and the number of entries found expired
    since the last [clear].  [cleanup] is part of this view only where it
    does nothing, on a cache made without [ttl]. *)

Section TTLClientView.
Context `{Countable K} {V : Type}.

Definition stale (ttl now ts : Z) : bool := negb (ttl =? 0) && (now - ts >? ttl).

Fixpoint tassoc (k : K) (m : list (K * V * Z)) : option (V * Z) :=
  match m with
  | [] => None
  | e :: m' => if decide (e.1.1 = k) then Some (e.1.2, e.2) else tassoc k m'
  end.

Definition tdrop_key (k : K) (m : list (K * V * Z)) : list (K * V * Z) :=
  filter (λ e, e.1.1 ≠ k) m.

Definition tview_step (ttl capacity : Z) (st : list (K * V * Z) * Z) (op : TTL.Op K V)
    : option (list (K * V * Z) * Z * TTL.Out V) :=
  let '(m, e) := st in
  match op with
  | TTL.OpGet k now =>
      match tassoc k m with
      | Some (v, ts) =>
          if stale ttl now ts then Some (tdrop_key k m, e + 1, TTL.RGet None)
          else Some ((k, v, ts) :: tdrop_key k m, e, TTL.RGet (Some v))
      | None => Some (m, e, TTL.RGet None)
      end
  | TTL.OpSet k v now =>
      let ts := if ttl >? 0 then now else 0 in
      Some (if decide (k ∈ m.*1.*1) then (k, v, ts) :: tdrop_key k m
            else (k, v, ts) ::
                 (if Z.of_nat (length m) >=? capacity then removelast m else m),
            e, TTL.RSet)
  | TTL.OpDelete k => Some (tdrop_key k m, e, TTL.RDelete (bool_decide (k ∈ m.*1.*1)))
  | TTL.OpClear => Some ([], 0, TTL.RClear)
  | TTL.OpHas k now =>
      match tassoc k m with
      | Some (_, ts) =>
          if stale ttl now ts then Some (tdrop_key k m, e + 1, TTL.RHas false)
          else Some (m, e, TTL.RHas true)
      | None => Some (m, e, TTL.RHas false)
      end
  | TTL.OpCleanup _ _ => if ttl =? 0 then Some (m, e, TTL.RCleanup 0) else None
  | TTL.OpDestroy => Some (m, e, TTL.RDestroy)
  end.

Fixpoint tview_run (ttl capacity : Z) (st : list (K * V * Z) * Z) (ops : list (TTL.Op K V))
    : option (list (K * V * Z) * Z * list (TTL.Out V)) :=
  match ops with
  | [] => Some (st, [])
  | op :: ops' =>
      match tview_step ttl capacity st op with
      | Some (st1, o) =>
          match tview_run ttl capacity st1 ops' with
          | Some (st2, os) => Some (st2, o :: os)
          | None => None
          end
      | None => None
      end
  end.

(** The payload of each node of the recency list of a TTL cache. *)
Definition tentries_of (h : Heap K V) (l : list ptr)
    : list (option K * option V * option Z) :=
  node_data h <$> l.

Definition ttl_entries (c : FastCacheWithTTL.t K V)
    : option (list (option K * option V * option Z)) :=
  tentries_of (FastCacheWithTTL.heap c) <$> FastCacheWithTTL.lru_list c.

Definition tshown (m : list (K * V * Z)) : list (option K * option V * option Z) :=
  (λ e, (Some e.1.1, Some e.1.2, Some e.2)) <$> m.

(** A call of the TTL cache as a call of the LRU core, where there is one,
    and the same for the results. *)
Definition forget (op : TTL.Op K V) : option (LRU.Op K V) :=
  match op with
  | TTL.OpGet k _ => Some (LRU.OpGet k)
  | TTL.OpSet k v _ => Some (LRU.OpSet k v)
  | TTL.OpDelete k => Some (LRU.OpDelete k)
  | TTL.OpClear => Some LRU.OpClear
  | TTL.OpHas k _ => Some (LRU.OpHas k)
  | TTL.OpCleanup _ _ => None
  | TTL.OpDestroy => None
  end.

Definition forget_out (o : TTL.Out V) : option (LRU.Out V) :=
  match o with
  | TTL.RGet r => Some (LRU.RGet r)
  | TTL.RSet => Some LRU.RSet
  | TTL.RDelete r => Some (LRU.RDelete r)
  | TTL.RClear => Some LRU.RClear
  | TTL.RHas r => Some (LRU.RHas r)
  | TTL.RCleanup _ => None
  | TTL.RDestroy => None
  end.

(** The clock readings of the [set] calls of a sequence of calls, in order,
    and the stamp of a node ([0] where it has none). *)
Definition set_clocks (ops : list (TTL.Op K V)) : list Z :=
  omap (M:=list) (λ op, match op with TTL.OpSet _ _ now => Some now | _ => None end) ops.

Definition stamp (h : Heap K V) (p : ptr) : Z := default 0 (timestamp (h p)).

(** The keys given to the [set] calls of a sequence of calls. *)
Definition set_keys (ops : list (TTL.Op K V)) : gset K :=
  list_to_set
    (omap (M:=list) (λ op, match op with TTL.OpSet k _ _ => Some k | _ => None end) ops).
End TTLClientView.

Lemma returns_ex {A} (m : Outcome A) (P : A → Prop) :
  returns m P ↔ ∃ a, m = Ok a ∧ P a.
Proof.
  destruct m as [a| |]; simpl; split; try done.
  - intros HP. by exists a.
  - by intros (a' & [= <-] & HP).
  - by intros (a' & ? & _).
  - by intros (a' & ? & _).
Qed.

(** ** Linked lists in the store *)

(** Case analysis on the address comparisons of [upd]. *)
Ltac case_upd :=
  repeat match goal with
         | |- context [Nat.eqb ?a ?b] => destruct (Nat.eqb_spec a b)
         end.

Section ListLemmas.
Implicit Types (l : list ptr).

Lemma without_notin p l : p ∉ l → without p l = l.
Proof.
  induction l as [|q l IH]; intros Hp; [done|].
  apply not_elem_of_cons in Hp as [Hq Hp]. unfold without in *.
  rewrite filter_cons_True by congruence. f_equal. by apply IH.
Qed.

Lemma without_split p l1 l2 :
  NoDup (l1 ++ p :: l2) → without p (l1 ++ p :: l2) = l1 ++ l2.
Proof.
  intros Hnd. apply NoDup_app in Hnd as (_ & Hd & Hnd2).
  apply NoDup_cons in Hnd2 as [Hp2 _].
  unfold without. rewrite filter_app, filter_cons_False by (intros ?; done).
  f_equal; apply without_notin; [|done].
  intros Hin. apply (Hd p Hin). left.
Qed.

Lemma elem_of_without p q l : q ∈ without p l ↔ q ≠ p ∧ q ∈ l.
Proof. unfold without. apply (list_elem_of_filter (λ q, q ≠ p)). Qed.

Lemma NoDup_without p l : NoDup l → NoDup (without p l).
Proof. apply NoDup_filter. Qed.

Lemma snoc_exists (a : ptr) l : ∃ l' z, a :: l = l' ++ [z].
Proof.
  revert a. induction l as [|b l IH]; intros a.
  - by exists [], a.
  - destruct (IH b) as (l' & z & ->). by exists (a :: l'), z.
Qed.
End ListLemmas.

Section StoreLemmas.
Context {K V : Type}.
Implicit Types (h : Heap K V).

Lemma upd_spec h p f q :
  upd h p f q = if Nat.eqb q p then f (h q) else h q.
Proof.
  unfold upd, deref. simpl. destruct (Nat.eqb_spec q p) as [->|Hne].
  - by rewrite lookup_insert_eq.
  - by rewrite lookup_insert_ne.
Qed.

Lemma upd_eq h p f : upd h p f p = f (h p).
Proof. rewrite upd_spec. by rewrite Nat.eqb_refl. Qed.

Lemma upd_ne h p f q : q ≠ p → upd h p f q = h q.
Proof. intros Hne. rewrite upd_spec. apply Nat.eqb_neq in Hne. by rewrite Hne. Qed.
End StoreLemmas.

(** From here on the store is used through [upd_spec] only. *)
Global Opaque upd deref.

Section ChainBasics.
Context {K V : Type}.
Variables (nxt prv : CacheNode K V → option ptr).
Implicit Types (h : Heap K V) (l : list ptr).

Lemma chain_cons h x y t :
  chain nxt prv h (x :: y :: t) ↔
  (nxt (h x) = Some y ∧ prv (h y) = Some x) ∧ chain nxt prv h (y :: t).
Proof. reflexivity. Qed.

Lemma chain_app h l1 x l2 :
  chain nxt prv h (l1 ++ x :: l2) ↔
  chain nxt prv h (l1 ++ [x]) ∧ chain nxt prv h (x :: l2).
Proof.
  induction l1 as [|a [|b l1] IH].
  - simpl. tauto.
  - simpl. tauto.
  - change ((a :: b :: l1) ++ x :: l2) with (a :: b :: (l1 ++ x :: l2)).
    change ((a :: b :: l1) ++ [x]) with (a :: b :: (l1 ++ [x])).
    rewrite !chain_cons. simpl in IH. rewrite IH. tauto.
Qed.

Lemma chain_frame_cons h h' z l :
  (∀ p, p ∈ z :: l → nxt (h' p) = nxt (h p)) →
  (∀ p, p ∈ l → prv (h' p) = prv (h p)) →
  chain nxt prv h (z :: l) → chain nxt prv h' (z :: l).
Proof.
  revert z. induction l as [|y l IH]; intros z Hn Hp; [done|].
  rewrite !chain_cons. intros [[H1 H2] H3]. split.
  - rewrite Hn, Hp by set_solver. done.
  - apply IH; [| |done]; intros p Hin; [apply Hn|apply Hp]; set_solver.
Qed.

Lemma chain_frame_snoc h h' l z :
  (∀ p, p ∈ l → nxt (h' p) = nxt (h p)) →
  (∀ p, p ∈ l ++ [z] → prv (h' p) = prv (h p)) →
  chain nxt prv h (l ++ [z]) → chain nxt prv h' (l ++ [z]).
Proof.
  induction l as [|a [|b l] IH]; intros Hn Hp; [done| |].
  - simpl. intros [[H1 H2] _]. rewrite Hn, Hp by set_solver. done.
  - change ((a :: b :: l) ++ [z]) with (a :: b :: (l ++ [z])).
    rewrite !chain_cons. intros [[H1 H2] H3]. split.
    + rewrite Hn, Hp by set_solver. done.
    + apply IH; [| |done]; intros p Hin; [apply Hn|apply Hp]; set_solver.
Qed.

(** A chain is read back by following the forward links. *)
Lemma walk_chain h a l b fuel :
  NoDup (a :: l ++ [b]) → chain nxt prv h (a :: l ++ [b]) →
  (length l < fuel)%nat →
  walk nxt fuel h (nxt (h a)) b = Some l.
Proof.
  revert a fuel. induction l as [|x l IH]; intros a fuel Hnd Hch Hlen.
  - destruct fuel as [|fuel]; [lia|]. simpl in Hch. destruct Hch as [[-> _] _].
    simpl. by rewrite decide_True.
  - destruct fuel as [|fuel]; [simpl in Hlen; lia|].
    change (a :: (x :: l) ++ [b]) with (a :: x :: (l ++ [b])) in *.
    apply chain_cons in Hch as [[Hax _] Hch]. rewrite Hax. simpl.
    apply NoDup_cons in Hnd as [_ Hnd].
    assert (x ≠ b) by (apply NoDup_cons in Hnd as [Hx _]; set_solver).
    rewrite decide_False by done.
    rewrite (IH x fuel); [done|done|done|simpl in Hlen; lia].
Qed.

End ChainBasics.

Section ChainLemmas.
Context {K V : Type}.
Variables (nxt prv : CacheNode K V → option ptr).
Variables (set_nxt set_prv : option ptr → CacheNode K V → CacheNode K V).
Hypothesis nxt_set_nxt : ∀ x n, nxt (set_nxt x n) = x.
Hypothesis prv_set_nxt : ∀ x n, prv (set_nxt x n) = prv n.
Hypothesis nxt_set_prv : ∀ x n, nxt (set_prv x n) = nxt n.
Hypothesis prv_set_prv : ∀ x n, prv (set_prv x n) = x.
Implicit Types (h : Heap K V) (l : list ptr).

Lemma nxt_upd_prv h p x q : nxt (upd h p (set_prv x) q) = nxt (h q).
Proof. rewrite ?upd_spec. case_upd; [apply nxt_set_prv|done]. Qed.

Lemma prv_upd_nxt h p x q : prv (upd h p (set_nxt x) q) = prv (h q).
Proof. rewrite ?upd_spec. case_upd; [apply prv_set_nxt|done]. Qed.

Lemma nxt_upd_nxt h p x : nxt (upd h p (set_nxt x) p) = x.
Proof. rewrite upd_eq. apply nxt_set_nxt. Qed.

Lemma prv_upd_prv h p x : prv (upd h p (set_prv x) p) = x.
Proof. rewrite upd_eq. apply prv_set_prv. Qed.

Lemma unlink_core h A pa x nb B :
  NoDup (A ++ pa :: x :: nb :: B) →
  chain nxt prv h (A ++ pa :: x :: nb :: B) →
  unlink nxt prv set_nxt set_prv h x
    = upd (upd h pa (set_nxt (Some nb))) nb (set_prv (Some pa)) ∧
  chain nxt prv (unlink nxt prv set_nxt set_prv h x) (A ++ pa :: nb :: B).
Proof.
  intros Hnd Hch.
  apply chain_app in Hch as [HchA Hch].
  apply chain_cons in Hch as [[Hpx Hxp] Hch].
  apply chain_cons in Hch as [[Hxn Hnx] HchB].
  apply NoDup_app in Hnd as (HndA & HA & Hnd).
  apply NoDup_cons in Hnd as [Hpa Hnd].
  apply NoDup_cons in Hnd as [Hx Hnd].
  apply NoDup_cons in Hnd as [Hnb HndB].
  assert (x ≠ pa) by (intros ->; apply Hpa; left).
  assert (pa ≠ nb) by (intros ->; apply Hpa; right; left).
  assert (Heq : unlink nxt prv set_nxt set_prv h x
    = upd (upd h pa (set_nxt (Some nb))) nb (set_prv (Some pa))).
  { unfold unlink. cbv zeta. rewrite Hxp, Hxn. rewrite upd_ne by done.
    by rewrite Hxn, Hxp. }
  split; [done|]. rewrite Heq.
  apply chain_app. split.
  - apply (chain_frame_snoc _ _ h); [| |done].
    + intros p Hp. rewrite nxt_upd_prv. rewrite upd_ne; [done|].
      intros ->. apply (HA pa Hp). left.
    + intros p Hp. rewrite upd_ne; [apply prv_upd_nxt|].
      intros ->. apply elem_of_app in Hp as [Hp|Hp].
      * apply (HA nb Hp). right; right; left.
      * apply list_elem_of_singleton in Hp. done.
  - apply chain_cons. split; [split|].
    + rewrite nxt_upd_prv. apply nxt_upd_nxt.
    + apply prv_upd_prv.
    + apply (chain_frame_cons _ _ h); [| |done].
      * intros p Hp. rewrite nxt_upd_prv. rewrite upd_ne; [done|].
        intros ->. apply Hpa. right. done.
      * intros p Hp. rewrite upd_ne; [apply prv_upd_nxt|].
        intros ->. done.
Qed.

(** Taking a node out of a well-formed list. *)
Lemma unlink_dll h a l b x :
  dll nxt prv h a l b → x ∈ l →
  dll nxt prv (unlink nxt prv set_nxt set_prv h x) a (without x l) b.
Proof.
  intros [Hnd Hch] Hx.
  apply list_elem_of_split in Hx as (l1 & l2 & ->).
  assert (Hnd' : NoDup (l1 ++ x :: l2)).
  { apply NoDup_cons in Hnd as [_ Hnd]. by apply NoDup_app in Hnd as [Hnd _]. }
  rewrite (without_split _ _ _ Hnd').
  destruct (snoc_exists a l1) as (A & pa & HA).
  destruct (l2 ++ [b]) as [|nb B] eqn:HB; [by destruct l2|].
  assert (E1 : a :: (l1 ++ x :: l2) ++ [b] = A ++ pa :: x :: nb :: B).
  { rewrite <- app_assoc. simpl. rewrite HB. rewrite app_comm_cons, HA.
    by rewrite <- app_assoc. }
  assert (E2 : a :: (l1 ++ l2) ++ [b] = A ++ pa :: nb :: B).
  { rewrite <- app_assoc. rewrite HB. rewrite app_comm_cons, HA.
    by rewrite <- app_assoc. }
  unfold dll. rewrite E1 in Hnd, Hch. rewrite E2.
  destruct (unlink_core h A pa x nb B Hnd Hch) as [_ Hch'].
  split; [|done].
  apply NoDup_app in Hnd as (HndA & HA' & Hnd).
  apply NoDup_app. split; [done|]. split.
  - intros p Hp Hin. apply (HA' p Hp).
    apply elem_of_cons in Hin as [->|Hin]; [left|].
    right. right. done.
  - apply NoDup_cons in Hnd as [Hpa Hnd]. apply NoDup_cons in Hnd as [_ Hnd].
    apply NoDup_cons. split; [|done]. intros Hin. apply Hpa. by right.
Qed.

(** Unlinking writes one forward and one backward link and nothing else. *)
Lemma unlink_frame {A} (f : CacheNode K V → A) h x :
  (∀ y n, f (set_nxt y n) = f n) → (∀ y n, f (set_prv y n) = f n) →
  ∀ q, f (unlink nxt prv set_nxt set_prv h x q) = f (h q).
Proof.
  intros Hn Hp q. unfold unlink. cbv zeta.
  destruct (prv (h x)) as [pa|]; destruct (nxt _) as [nb|]; rewrite ?upd_spec;
    case_upd; rewrite ?Hp, ?Hn; done.
Qed.
End ChainLemmas.

(** ** The LRU core keeps its invariant *)

Section LRULemmas.
Context `{Countable K} {V : Type}.
Implicit Types (s : FastCache.t K V) (h : Heap K V) (l : list ptr) (p q : ptr).

Local Notation lchain := (chain (K:=K) (V:=V) next prev).
Local Notation ldll := (dll (K:=K) (V:=V) next prev).
Local Notation lunlink := (unlink (K:=K) (V:=V) next prev with_next with_prev).

Lemma agree_on_refl {A} n (f : CacheNode K V → A) h : agree_on n f h h.
Proof. by intros q _. Qed.

Lemma agree_on_trans {A} n (f : CacheNode K V → A) h1 h2 h3 :
  agree_on n f h1 h2 → agree_on n f h2 h3 → agree_on n f h1 h3.
Proof. intros H12 H23 q Hq. by rewrite H23, H12. Qed.

Lemma agree_on_mono {A} n m (f : CacheNode K V → A) h1 h2 :
  (n ≤ m)%nat → agree_on m f h1 h2 → agree_on n f h1 h2.
Proof. intros Hnm H12 q Hq. apply H12. lia. Qed.

Lemma chain_agree (nxt prv : CacheNode K V → option ptr) n h h' l :
  (∀ q, q ∈ l → (q < n)%nat) →
  agree_on n nxt h h' → agree_on n prv h h' →
  chain nxt prv h l → chain nxt prv h' l.
Proof.
  intros Hl Hn Hp. destruct l as [|z l]; [done|].
  apply chain_frame_cons; intros q Hq; [apply Hn|apply Hp]; apply Hl;
    [done|by right].
Qed.

Lemma removeNode_unlink s p :
  FastCache.removeNode s p = FastCache.with_heap s (lunlink (FastCache.heap s) p).
Proof. reflexivity. Qed.

Lemma lunlink_frame n h p : lru_frame n h (lunlink h p).
Proof.
  repeat split; intros q _;
    apply (unlink_frame next prev with_next with_prev); done.
Qed.

Lemma lunlink_dll h a l b p :
  ldll h a l b → p ∈ l → ldll (lunlink h p) a (without p l) b.
Proof. apply unlink_dll; done. Qed.

(** [addToHead] on a node that is not in the list. *)
Lemma addToHead_spec s l p :
  ldll (FastCache.heap s) (FastCache.head s) l (FastCache.tail s) →
  p ∉ FastCache.head s :: l ++ [FastCache.tail s] →
  ∃ h', FastCache.addToHead s p = Ok (FastCache.with_heap s h') ∧
        ldll h' (FastCache.head s) (p :: l) (FastCache.tail s) ∧
        (∀ n, lru_frame n (FastCache.heap s) h').
Proof.
  intros [Hnd Hch] Hp. unfold FastCache.addToHead. cbv zeta.
  set (h := FastCache.heap s) in *. set (hd := FastCache.head s) in *.
  set (tl := FastCache.tail s) in *.
  destruct (l ++ [tl]) as [|first R] eqn:HR; [by destruct l|].
  apply chain_cons in Hch as [[Hhf Hfh] Hch].
  apply NoDup_cons in Hnd as [Hhd Hnd]. pose proof Hnd as Hnd'.
  apply NoDup_cons in Hnd' as [Hfirst HndR].
  assert (hd ≠ p) by set_solver. assert (first ≠ p) by set_solver.
  assert (hd ≠ first) by set_solver.
  rewrite !(upd_ne _ p _ hd) by done.
  rewrite Hhf. eexists. split; [done|]. split; [split|].
  - change (hd :: (p :: l) ++ [tl]) with (hd :: p :: (l ++ [tl])). rewrite HR.
    apply NoDup_cons. split; [set_solver|]. apply NoDup_cons. split; [set_solver|done].
  - change (hd :: (p :: l) ++ [tl]) with (hd :: p :: (l ++ [tl])). rewrite HR.
    apply chain_cons. split; [split|apply chain_cons; split; [split|]].
    + by rewrite upd_eq.
    + rewrite upd_ne, upd_ne by done. rewrite upd_eq. simpl. by rewrite upd_eq.
    + rewrite upd_ne, upd_ne by done. by rewrite upd_eq.
    + rewrite upd_ne by done. by rewrite upd_eq.
    + apply (chain_frame_cons _ _ h); [| |done].
      * intros q Hq. assert (q ≠ hd) by set_solver. assert (q ≠ p) by set_solver.
        rewrite upd_ne by done. rewrite ?upd_spec. case_upd; done.
      * intros q Hq. assert (q ≠ first) by set_solver. assert (q ≠ p) by set_solver.
        rewrite ?upd_spec. case_upd; done.
  - intros n. repeat split; intros q _; rewrite ?upd_spec; case_upd; done.
Qed.

Lemma lru_frame_trans n h1 h2 h3 :
  lru_frame n h1 h2 → lru_frame n h2 h3 → lru_frame n h1 h3.
Proof.
  intros (?&?&?&?&?) (?&?&?&?&?). repeat split; eapply agree_on_trans; done.
Qed.

Lemma lru_frame_mono n m h1 h2 :
  (n ≤ m)%nat → lru_frame m h1 h2 → lru_frame n h1 h2.
Proof.
  intros Hnm (?&?&?&?&?). repeat split; eapply agree_on_mono; done.
Qed.

Lemma dll_neq_sentinels (nxt prv : CacheNode K V → option ptr) h a l b p :
  dll nxt prv h a l b → p ∈ l → p ≠ a ∧ p ≠ b.
Proof.
  intros [Hnd _] Hp. apply NoDup_cons in Hnd as [Ha Hnd].
  apply NoDup_app in Hnd as (_ & Hd & _). split.
  - intros ->. apply Ha. apply elem_of_app. by left.
  - intros ->. apply (Hd b Hp). left.
Qed.

(** Relinking the recency list over the same set of nodes, with the keys
    untouched, keeps the invariant of the core. *)
Lemma InvL_relink s l h' l' :
  InvL s l →
  ldll h' (FastCache.head s) l' (FastCache.tail s) →
  (∀ q, q ∈ l' ↔ q ∈ l) →
  agree_on (FastCache.nextptr s) key (FastCache.heap s) h' →
  (∀ q, q ∈ l' → is_Some (value (h' q))) →
  InvL (FastCache.with_heap s h') l'.
Proof.
  intros [Hdll Hidx Hlive Hval Hfresh Hcap Hsize] Hdll' Hmem Hkey Hval'.
  assert (Hlt : ∀ q, q ∈ l → (q < FastCache.nextptr s)%nat).
  { intros q Hq. apply Hfresh. right. apply elem_of_app. by left. }
  constructor; simpl; try done.
  - intros k p Hk. destruct (Hidx k p Hk) as [Hp Hkp]. split; [by apply Hmem|].
    rewrite Hkey; [done|by apply Hlt].
  - intros p Hp. apply Hmem in Hp. destruct (Hlive p Hp) as (k & Hk & Hc).
    exists k. split; [|done]. rewrite Hkey; [done|by apply Hlt].
  - intros p Hp. apply Hfresh.
    apply elem_of_cons in Hp as [->|Hp]; [left|right].
    apply elem_of_app in Hp as [Hp|Hp]; apply elem_of_app; [left|by right].
    by apply Hmem.
Qed.

Lemma InvL_with_hits s l n : InvL s l → InvL (FastCache.with_hits s n) l.
Proof. intros []. by constructor. Qed.

Lemma InvL_with_misses s l n : InvL s l → InvL (FastCache.with_misses s n) l.
Proof. intros []. by constructor. Qed.

Lemma InvL_lt s l p : InvL s l → p ∈ l → (p < FastCache.nextptr s)%nat.
Proof.
  intros Hinv Hp. apply (invl_fresh _ _ Hinv). right. apply elem_of_app. by left.
Qed.

Lemma moveToHead_spec s l p :
  InvL s l → p ∈ l →
  ∃ h', FastCache.moveToHead s p = Ok (FastCache.with_heap s h') ∧
        InvL (FastCache.with_heap s h') (p :: without p l) ∧
        (∀ n, lru_frame n (FastCache.heap s) h').
Proof.
  intros Hinv Hp. unfold FastCache.moveToHead. rewrite removeNode_unlink.
  pose proof (invl_dll _ _ Hinv) as Hdll.
  pose proof (lunlink_dll _ _ _ _ p Hdll Hp) as Hdll1.
  destruct (dll_neq_sentinels _ _ _ _ _ _ _ Hdll Hp) as [Hpa Hpb].
  destruct (addToHead_spec (FastCache.with_heap s (lunlink (FastCache.heap s) p))
              (without p l) p) as (h' & Hadd & Hdll' & Hfr).
  { done. }
  { simpl. intros Hin. apply elem_of_cons in Hin as [?|Hin]; [done|].
    apply elem_of_app in Hin as [Hin|Hin].
    - apply elem_of_without in Hin as [? _]. done.
    - apply list_elem_of_singleton in Hin. done. }
  exists h'. split; [exact Hadd|].
  assert (Hfr' : ∀ n, lru_frame n (FastCache.heap s) h').
  { intros n. eapply lru_frame_trans; [apply lunlink_frame|apply Hfr]. }
  split; [|done].
  apply (InvL_relink s l); [done|exact Hdll'| | |].
  - intros q. rewrite elem_of_cons, elem_of_without.
    destruct (decide (q = p)) as [->|]; naive_solver.
  - apply (Hfr' _).
  - intros q Hq. destruct (Hfr' (S q)) as (_ & Hv & _). rewrite Hv by lia.
    apply (invl_val _ _ Hinv).
    apply elem_of_cons in Hq as [->|Hq]; [done|].
    by apply elem_of_without in Hq as [_ ?].
Qed.

(** [get]: a miss only counts; a hit returns the stored value, moves the node
    to the head of the recency list and counts. *)
Lemma get_miss s k :
  FastCache.cache s !! k = None →
  FastCache.get s k = Ok (FastCache.with_misses s (FastCache.misses s + 1), None).
Proof. intros Hk. unfold FastCache.get. by rewrite Hk. Qed.

Lemma get_hit s l k p :
  InvL s l → FastCache.cache s !! k = Some p →
  ∃ h' v,
    FastCache.get s k
      = Ok (FastCache.with_hits (FastCache.with_heap s h') (FastCache.hits s + 1), Some v) ∧
    value (FastCache.heap s p) = Some v ∧
    InvL (FastCache.with_heap s h') (p :: without p l) ∧
    (∀ n, lru_frame n (FastCache.heap s) h').
Proof.
  intros Hinv Hk. destruct (invl_idx _ _ Hinv k p Hk) as [Hp _].
  destruct (moveToHead_spec s l p Hinv Hp) as (h' & Hmv & Hinv' & Hfr).
  destruct (invl_val _ _ Hinv p Hp) as [v Hv].
  exists h', v. unfold FastCache.get. rewrite Hk, Hmv. simpl.
  destruct (Hfr (S p)) as (_ & Hval & _). rewrite Hval by lia. rewrite Hv.
  done.
Qed.

Lemma dll_agree_all (nxt prv : CacheNode K V → option ptr) h h' a l b :
  (∀ q, nxt (h' q) = nxt (h q)) → (∀ q, prv (h' q) = prv (h q)) →
  dll nxt prv h a l b → dll nxt prv h' a l b.
Proof.
  intros Hn Hp [Hnd Hch]. split; [done|].
  apply (chain_frame_cons _ _ h); auto.
Qed.

Lemma set_existing s l k v p :
  InvL s l → FastCache.cache s !! k = Some p →
  ∃ h', FastCache.set s k v = Ok (FastCache.with_heap s h') ∧
        InvL (FastCache.with_heap s h') (p :: without p l) ∧
        value (h' p) = Some v ∧
        (∀ q, key (h' q) = key (FastCache.heap s q) ∧
              timestamp (h' q) = timestamp (FastCache.heap s q) ∧
              timePrev (h' q) = timePrev (FastCache.heap s q) ∧
              timeNext (h' q) = timeNext (FastCache.heap s q)) ∧
        (∀ q, q ≠ p → value (h' q) = value (FastCache.heap s q)).
Proof.
  intros Hinv Hk. destruct (invl_idx _ _ Hinv k p Hk) as [Hp _].
  set (h1 := upd (FastCache.heap s) p (with_value (Some v))).
  assert (Hinv1 : InvL (FastCache.with_heap s h1) l).
  { apply (InvL_relink s l); [done| |done| |].
    - apply (dll_agree_all _ _ (FastCache.heap s)); [| |apply Hinv];
        intros q; unfold h1; rewrite ?upd_spec; by case_upd.
    - intros q _. unfold h1; rewrite ?upd_spec; by case_upd.
    - intros q Hq. unfold h1; rewrite ?upd_spec. case_upd; [by eexists|].
      by apply (invl_val _ _ Hinv). }
  destruct (moveToHead_spec _ l p Hinv1 Hp) as (h' & Hmv & Hinv' & Hfr).
  exists h'. unfold FastCache.set. rewrite Hk. fold h1.
  split; [exact Hmv|]. split; [exact Hinv'|]. simpl in Hfr.
  split; [|split].
  - destruct (Hfr (S p)) as (_ & Hv & _). rewrite Hv by lia.
    unfold h1. by rewrite upd_eq.
  - intros q. destruct (Hfr (S q)) as (Hky & _ & Hts & Htp & Htn).
    rewrite Hky, Hts, Htp, Htn by lia. unfold h1; rewrite ?upd_spec. by case_upd.
  - intros q Hq. destruct (Hfr (S q)) as (_ & Hv & _). rewrite Hv by lia.
    unfold h1. by rewrite upd_ne.
Qed.

(** Taking the node of key [k] out of the index and out of the list. *)
Lemma InvL_remove s l k p :
  InvL s l → FastCache.cache s !! k = Some p →
  InvL (FastCache.with_heap (FastCache.with_cache s (delete k (FastCache.cache s)))
          (lunlink (FastCache.heap s) p)) (without p l).
Proof.
  intros Hinv Hk. pose proof Hinv as [Hdll Hidx Hlive Hval Hfresh Hcap Hsize].
  destruct (Hidx k p Hk) as [Hp Hkp].
  assert (Hfr : ∀ {A} (f : CacheNode K V → A),
             (∀ y n, f (with_next y n) = f n) → (∀ y n, f (with_prev y n) = f n) →
             ∀ q, f (lunlink (FastCache.heap s) p q) = f (FastCache.heap s q)).
  { intros A f Hn Hpv q. by apply (unlink_frame next prev with_next with_prev). }
  constructor; simpl.
  - by apply lunlink_dll.
  - intros k' q Hk'. apply lookup_delete_Some in Hk' as [Hne Hk'].
    destruct (Hidx k' q Hk') as [Hq Hkq]. rewrite Hfr by done. split; [|done].
    apply elem_of_without. split; [|done]. intros ->. congruence.
  - intros q Hq. apply elem_of_without in Hq as [Hne Hq].
    destruct (Hlive q Hq) as (k' & Hkq & Hc). exists k'. rewrite Hfr by done.
    split; [done|]. rewrite lookup_delete_ne; [done|]. intros ->. congruence.
  - intros q Hq. apply elem_of_without in Hq as [Hne Hq]. rewrite Hfr by done.
    by apply Hval.
  - intros q Hq. apply Hfresh.
    apply elem_of_cons in Hq as [->|Hq]; [left|right].
    apply elem_of_app in Hq as [Hq|Hq]; apply elem_of_app; [left|by right].
    by apply elem_of_without in Hq as [_ ?].
  - done.
  - rewrite map_size_delete_Some by (by eexists). lia.
Qed.

Lemma delete_absent s k :
  FastCache.cache s !! k = None → FastCache.delete s k = (s, false).
Proof. intros Hk. unfold FastCache.delete. by rewrite Hk. Qed.

Lemma delete_present s k p :
  FastCache.cache s !! k = Some p →
  FastCache.delete s k
    = (FastCache.with_heap (FastCache.with_cache s (delete k (FastCache.cache s)))
         (lunlink (FastCache.heap s) p), true).
Proof. intros Hk. unfold FastCache.delete. by rewrite Hk. Qed.

Lemma chain_last (nxt prv : CacheNode K V → option ptr) h l x b :
  chain nxt prv h (l ++ [x; b]) → nxt (h x) = Some b ∧ prv (h b) = Some x.
Proof.
  intros Hch. apply chain_app in Hch as [_ Hch]. by destruct Hch as [? _].
Qed.

Lemma InvL_nonempty s l :
  InvL s l → (0 < size (FastCache.cache s))%nat → ∃ l0 x, l = l0 ++ [x].
Proof.
  intros Hinv Hsz.
  destruct (map_size_ne_0_lookup_1 (FastCache.cache s)) as (k & p & Hk); [lia|].
  destruct (invl_idx _ _ Hinv k p Hk) as [Hp _].
  destruct l as [|a l] using rev_ind; [by apply elem_of_nil in Hp|]. eauto.
Qed.

(** [removeTail] takes out the node next to the tail sentinel, under the key
    written in it. *)
Lemma removeTail_spec s l0 x :
  InvL s (l0 ++ [x]) →
  ∃ kx, key (FastCache.heap s x) = Some kx ∧ FastCache.cache s !! kx = Some x ∧
        FastCache.removeTail s
          = FastCache.with_heap
              (FastCache.with_cache s (delete kx (FastCache.cache s)))
              (lunlink (FastCache.heap s) x) ∧
        InvL (FastCache.removeTail s) l0.
Proof.
  intros Hinv. pose proof (invl_dll _ _ Hinv) as Hdll.
  assert (Hx : x ∈ l0 ++ [x]) by (apply elem_of_app; right; left).
  destruct (invl_live _ _ Hinv x Hx) as (kx & Hkx & Hc).
  destruct (dll_neq_sentinels _ _ _ _ _ _ _ Hdll Hx) as [Hxh Hxt].
  destruct Hdll as [Hnd Hch].
  assert (Hprev : prev (FastCache.heap s (FastCache.tail s)) = Some x).
  { replace (FastCache.head s :: (l0 ++ [x]) ++ [FastCache.tail s])
      with ((FastCache.head s :: l0) ++ [x; FastCache.tail s]) in Hch
      by (simpl; by rewrite <- app_assoc).
    by apply chain_last in Hch as [_ ?]. }
  assert (Heq : FastCache.removeTail s
          = FastCache.with_heap
              (FastCache.with_cache s (delete kx (FastCache.cache s)))
              (lunlink (FastCache.heap s) x)).
  { unfold FastCache.removeTail. rewrite Hprev, decide_False by done.
    rewrite Hkx. reflexivity. }
  exists kx. split; [done|]. split; [done|]. split; [done|].
  rewrite Heq. pose proof (InvL_remove s _ kx x Hinv Hc) as Hrm.
  rewrite (without_split x l0 []) in Hrm.
  - by rewrite app_nil_r in Hrm.
  - apply NoDup_cons in Hnd as [_ Hnd]. by apply NoDup_app in Hnd as [? _].
Qed.

Lemma InvL_alloc s l o : InvL s l → InvL (FastCache.alloc s o).2 l.
Proof.
  intros [Hdll Hidx Hlive Hval Hfresh Hcap Hsize].
  assert (Hlt : ∀ q, q ∈ l → (q < FastCache.nextptr s)%nat).
  { intros q Hq. apply Hfresh. right. apply elem_of_app. by left. }
  assert (Hsame : ∀ q, (q < FastCache.nextptr s)%nat →
            upd (FastCache.heap s) (FastCache.nextptr s) (λ _, o) q = FastCache.heap s q).
  { intros q Hq. apply upd_ne. lia. }
  constructor; simpl; try done.
  - destruct Hdll as [Hnd Hch]. split; [done|].
    apply (chain_agree _ _ (FastCache.nextptr s) (FastCache.heap s)); try done;
      intros q Hq; by rewrite Hsame.
  - intros k p Hk. destruct (Hidx k p Hk) as [Hp Hkp]. split; [done|].
    rewrite Hsame; [done|by apply Hlt].
  - intros p Hp. rewrite Hsame by (by apply Hlt). by apply Hlive.
  - intros p Hp. rewrite Hsame by (by apply Hlt). by apply Hval.
  - intros p Hp. apply Hfresh in Hp. lia.
Qed.

(** A node that is not yet linked goes to the head of the list and into the
    index. *)
Lemma InvL_push s l k p :
  InvL s l → FastCache.cache s !! k = None →
  p ∉ FastCache.head s :: l ++ [FastCache.tail s] →
  (p < FastCache.nextptr s)%nat →
  key (FastCache.heap s p) = Some k → is_Some (value (FastCache.heap s p)) →
  Z.of_nat (size (FastCache.cache s)) < FastCache.maxSize s →
  let s1 := FastCache.with_cache s (<[k := p]> (FastCache.cache s)) in
  ∃ h', FastCache.addToHead s1 p = Ok (FastCache.with_heap s1 h') ∧
        InvL (FastCache.with_heap s1 h') (p :: l) ∧
        (∀ n, lru_frame n (FastCache.heap s) h').
Proof.
  intros [Hdll Hidx Hlive Hval Hfresh Hcap Hsize] Hk Hp Hlt Hkey Hv Hsz s1.
  destruct (addToHead_spec s1 l p) as (h' & Hadd & Hdll' & Hfr); [done|done|].
  exists h'. split; [done|]. split; [|done]. simpl in Hfr.
  assert (Hky : ∀ q, key (h' q) = key (FastCache.heap s q)).
  { intros q. destruct (Hfr (S q)) as (Hky & _). apply Hky. lia. }
  assert (Hvl : ∀ q, value (h' q) = value (FastCache.heap s q)).
  { intros q. destruct (Hfr (S q)) as (_ & Hvl & _). apply Hvl. lia. }
  constructor; simpl; try done.
  - intros k' q Hk'. rewrite Hky. apply lookup_insert_Some in Hk' as [[<- <-]|[Hne Hk']].
    + split; [left|done].
    + destruct (Hidx k' q Hk') as [Hq Hkq]. split; [by right|done].
  - intros q Hq. rewrite Hky. apply elem_of_cons in Hq as [->|Hq].
    + exists k. split; [done|]. by rewrite lookup_insert_eq.
    + destruct (Hlive q Hq) as (k' & Hkq & Hc). exists k'. split; [done|].
      rewrite lookup_insert_ne; [done|]. intros ->. congruence.
  - intros q Hq. rewrite Hvl. apply elem_of_cons in Hq as [->|Hq]; [done|].
    by apply Hval.
  - intros q Hq. apply elem_of_cons in Hq as [->|Hq]; [apply Hfresh; left|].
    apply elem_of_cons in Hq as [->|Hq]; [done|]. apply Hfresh. by right.
  - rewrite map_size_insert_None by done. lia.
Qed.

(** [set] on a key that is not in the index: the new node is the object at
    the next free address; when the index is full the node next to the tail
    sentinel leaves first. *)
Lemma set_new s l k v :
  InvL s l → FastCache.cache s !! k = None →
  let p := FastCache.nextptr s in
  ∃ s', FastCache.set s k v = Ok s' ∧
    FastCache.nextptr s' = S p ∧ FastCache.head s' = FastCache.head s ∧
    FastCache.tail s' = FastCache.tail s ∧ FastCache.maxSize s' = FastCache.maxSize s ∧
    FastCache.hits s' = FastCache.hits s ∧ FastCache.misses s' = FastCache.misses s ∧
    key (FastCache.heap s' p) = Some k ∧ value (FastCache.heap s' p) = Some v ∧
    lru_frame p (FastCache.heap s) (FastCache.heap s') ∧
    ((Z.of_nat (size (FastCache.cache s)) < FastCache.maxSize s ∧
      FastCache.cache s' = <[k := p]> (FastCache.cache s) ∧ InvL s' (p :: l))
     ∨
     (FastCache.maxSize s ≤ Z.of_nat (size (FastCache.cache s)) ∧
      ∃ l0 x kx, l = l0 ++ [x] ∧ key (FastCache.heap s x) = Some kx ∧
        FastCache.cache s !! kx = Some x ∧
        FastCache.cache s' = <[k := p]> (delete kx (FastCache.cache s)) ∧
        InvL s' (p :: l0))).
Proof.
  intros Hinv Hk p. unfold FastCache.set. rewrite Hk.
  set (node := mkNode (Some k) (Some v) None None None None None).
  pose proof (InvL_alloc s l node Hinv) as Hinv1.
  set (s1 := (FastCache.alloc s node).2) in *.
  change (FastCache.alloc s node) with (p, s1). cbv iota beta.
  assert (Hp1 : FastCache.heap s1 p = node) by (simpl; apply upd_eq).
  assert (Hfr1 : lru_frame p (FastCache.heap s) (FastCache.heap s1)).
  { repeat split; intros q Hq; simpl; rewrite upd_ne; done || (unfold p in *; lia). }
  assert (Hpnew : ∀ l', (∀ q, q ∈ FastCache.head s :: l' ++ [FastCache.tail s] →
                      (q < p)%nat) → p ∉ FastCache.head s :: l' ++ [FastCache.tail s]).
  { intros l' Hl' Hin. apply Hl' in Hin. lia. }
  destruct (Z.of_nat (size (FastCache.cache s1)) >=? FastCache.maxSize s1) eqn:Hcmp.
  - (* the index is full *)
    apply Z.geb_le in Hcmp. simpl in Hcmp.
    destruct (InvL_nonempty s1 l Hinv1) as (l0 & x & ->).
    { simpl. pose proof (invl_cap _ _ Hinv). lia. }
    destruct (removeTail_spec s1 l0 x Hinv1) as (kx & Hkx & Hcx & Heq & Hinv2).
    assert (Hxlt : (x < p)%nat).
    { apply (InvL_lt s _ x Hinv). apply elem_of_app. right. left. }
    assert (Hkx0 : key (FastCache.heap s x) = Some kx).
    { destruct Hfr1 as (Hky & _). rewrite <- Hky by done. done. }
    set (s2 := FastCache.removeTail s1) in *.
    assert (Hh2 : ∀ {A} (f : CacheNode K V → A),
             (∀ y n, f (with_next y n) = f n) → (∀ y n, f (with_prev y n) = f n) →
             ∀ q, f (FastCache.heap s2 q) = f (FastCache.heap s1 q)).
    { intros A f Hn Hpv q. rewrite Heq. simpl.
      by apply (unlink_frame next prev with_next with_prev). }
    destruct (InvL_push s2 l0 k p Hinv2) as (h' & Hadd & Hinv' & Hfr).
    { rewrite Heq. simpl. rewrite lookup_delete_ne; [done|]. intros ->.
      simpl in Hcx. congruence. }
    { rewrite Heq. simpl. apply Hpnew. intros q Hq.
      apply (invl_fresh _ _ Hinv).
      apply elem_of_cons in Hq as [->|Hq]; [left|right].
      rewrite <- app_assoc. apply elem_of_app in Hq as [Hq|Hq]; apply elem_of_app;
        [by left|right]. by right. }
    { rewrite Heq. simpl. lia. }
    { rewrite Hh2 by done. by rewrite Hp1. }
    { rewrite Hh2 by done. rewrite Hp1. by eexists. }
    { rewrite Heq. simpl. simpl in Hcx.
      rewrite map_size_delete_Some by (by eexists).
      pose proof (invl_size _ _ Hinv).
      assert (size (FastCache.cache s) ≠ 0%nat)
        by (apply map_size_ne_0_lookup_2 with kx; by eexists). lia. }
    eexists. split; [exact Hadd|]. rewrite Heq. simpl.
    assert (Hfr2 : lru_frame p (FastCache.heap s) h').
    { eapply lru_frame_trans; [exact Hfr1|].
      eapply lru_frame_trans; [|apply Hfr]. rewrite Heq. apply lunlink_frame. }
    repeat (split; [done|]).
    assert (Hkv : key (h' p) = Some k ∧ value (h' p) = Some v).
    { destruct (Hfr (S p)) as (Hky & Hvl & _). rewrite Hky, Hvl by lia.
      rewrite !Hh2 by done. by rewrite Hp1. }
    destruct Hkv as [-> ->]. repeat (split; [done|]). right.
    split; [done|]. exists l0, x, kx. split; [done|]. split; [done|].
    split; [done|]. split; [done|]. rewrite Heq in Hinv'. exact Hinv'.
  - (* there is room *)
    rewrite Z.geb_leb in Hcmp. apply Z.leb_gt in Hcmp. simpl in Hcmp.
    destruct (InvL_push s1 l k p Hinv1) as (h' & Hadd & Hinv' & Hfr).
    { done. }
    { apply Hpnew. apply (invl_fresh _ _ Hinv). }
    { simpl. lia. }
    { by rewrite Hp1. }
    { rewrite Hp1. by eexists. }
    { simpl. lia. }
    eexists. split; [exact Hadd|]. simpl.
    assert (Hfr2 : lru_frame p (FastCache.heap s) h').
    { eapply lru_frame_trans; [exact Hfr1|]. apply Hfr. }
    repeat (split; [done|]).
    assert (Hkv : key (h' p) = Some k ∧ value (h' p) = Some v).
    { destruct (Hfr (S p)) as (Hky & Hvl & _). rewrite Hky, Hvl by lia.
      by rewrite Hp1. }
    destruct Hkv as [-> ->]. repeat (split; [done|]). left.
    split; [lia|]. split; [done|]. exact Hinv'.
Qed.

Lemma clear_spec s l :
  InvL s l → InvL (FastCache.clear s) [] ∧
             (∀ n, lru_frame n (FastCache.heap s) (FastCache.heap (FastCache.clear s))).
Proof.
  intros [Hdll Hidx Hlive Hval Hfresh Hcap Hsize]. split.
  - destruct Hdll as [Hnd Hch].
    assert (Hne : FastCache.head s ≠ FastCache.tail s).
    { apply NoDup_cons in Hnd as [Hh _]. intros Heq. apply Hh. rewrite Heq.
      apply elem_of_app. right. left. }
    constructor; simpl; try done.
    + split.
      * apply NoDup_cons. split; [|apply NoDup_singleton].
        by intros ?%list_elem_of_singleton.
      * simpl. split; [|done]. split.
        -- rewrite upd_ne by done. by rewrite upd_eq.
        -- by rewrite upd_eq.
    + intros p Hp. by apply elem_of_nil in Hp.
    + intros p Hp. by apply elem_of_nil in Hp.
    + intros p Hp. apply Hfresh.
      apply elem_of_cons in Hp as [->|Hp]; [left|right].
      apply elem_of_app. right. done.
    + rewrite map_size_empty. lia.
  - intros n. repeat split; intros q _; simpl; rewrite ?upd_spec; case_upd; done.
Qed.

Lemma new_spec (c : Z) :
  0 < c → ∃ s : FastCache.t K V,
    FastCache.new c = Ok s ∧ InvL s [] ∧ FastCache.maxSize s = c ∧
    FastCache.hits s = 0 ∧ FastCache.misses s = 0 ∧ FastCache.cache s = ∅.
Proof.
  intros Hc. unfold FastCache.new. rewrite (proj2 (Z.leb_gt c 0)) by done.
  eexists. split; [done|]. split; [|done].
  constructor; simpl; try done.
  - split; [|done].
    apply NoDup_cons. split; [|apply NoDup_singleton].
    by intros ?%list_elem_of_singleton.
  - intros p Hp. by apply elem_of_nil in Hp.
  - intros p Hp. by apply elem_of_nil in Hp.
  - intros p Hp. apply elem_of_cons in Hp as [->|Hp]; [lia|].
    apply list_elem_of_singleton in Hp as ->. lia.
  - rewrite map_size_empty. lia.
Qed.
End LRULemmas.

(** ** The TTL extension keeps its invariant *)

Section TTLLemmas.
Context `{Countable K} {V : Type}.
Implicit Types (c : FastCacheWithTTL.t K V) (s : FastCache.t K V)
               (h : Heap K V) (l tl : list ptr) (p q : ptr).

Local Notation tchain := (chain (K:=K) (V:=V) timeNext timePrev).
Local Notation tdll := (dll (K:=K) (V:=V) timeNext timePrev).
Local Notation ldll := (dll (K:=K) (V:=V) next prev).
Local Notation tunlink := (unlink (K:=K) (V:=V) timeNext timePrev with_timeNext with_timePrev).
Local Notation lunlink := (unlink (K:=K) (V:=V) next prev with_next with_prev).

Lemma lru_frame_all h h' :
  (∀ n, lru_frame n h h') →
  ∀ q, key (h' q) = key (h q) ∧ value (h' q) = value (h q) ∧
       timestamp (h' q) = timestamp (h q) ∧ timePrev (h' q) = timePrev (h q) ∧
       timeNext (h' q) = timeNext (h q).
Proof.
  intros Hfr q. destruct (Hfr (S q)) as (H1 & H2 & H3 & H4 & H5).
  rewrite H1, H2, H3, H4, H5 by lia. done.
Qed.

Lemma time_frame_all h h' :
  (∀ n, time_frame n h h') →
  ∀ q, key (h' q) = key (h q) ∧ value (h' q) = value (h q) ∧
       timestamp (h' q) = timestamp (h q) ∧ prev (h' q) = prev (h q) ∧
       next (h' q) = next (h q).
Proof.
  intros Hfr q. destruct (Hfr (S q)) as (H1 & H2 & H3 & H4 & H5).
  rewrite H1, H2, H3, H4, H5 by lia. done.
Qed.

Lemma removeFromTimeList_unlink c p :
  FastCacheWithTTL._removeFromTimeList c p
    = FastCacheWithTTL.with_heap c (tunlink (FastCacheWithTTL.heap c) p).
Proof. reflexivity. Qed.

Lemma tunlink_frame n h p : time_frame n h (tunlink h p).
Proof.
  repeat split; intros q _;
    apply (unlink_frame timeNext timePrev with_timeNext with_timePrev); done.
Qed.

Lemma tunlink_dll h a tl b p :
  tdll h a tl b → p ∈ tl → tdll (tunlink h p) a (without p tl) b.
Proof. apply unlink_dll; done. Qed.

Lemma NoDup_snoc_mid (a b p : ptr) l :
  NoDup (a :: l ++ [b]) → p ∉ a :: l ++ [b] → NoDup (a :: (l ++ [p]) ++ [b]).
Proof.
  intros Hnd Hp.
  assert (Hperm : a :: (l ++ [p]) ++ [b] ≡ₚ p :: a :: l ++ [b]).
  { rewrite <- app_assoc. simpl. rewrite <- Permutation_middle. apply perm_swap. }
  rewrite Hperm. by apply NoDup_cons.
Qed.

(** [_addToTimeListTail] on a node that is not in the list. *)
Lemma addToTimeListTail_spec c tl p :
  tdll (FastCacheWithTTL.heap c) (FastCacheWithTTL.timeHead c) tl
       (FastCacheWithTTL.timeTail c) →
  p ∉ FastCacheWithTTL.timeHead c :: tl ++ [FastCacheWithTTL.timeTail c] →
  ∃ h', FastCacheWithTTL._addToTimeListTail c p = Ok (FastCacheWithTTL.with_heap c h') ∧
        tdll h' (FastCacheWithTTL.timeHead c) (tl ++ [p]) (FastCacheWithTTL.timeTail c) ∧
        (∀ n, time_frame n (FastCacheWithTTL.heap c) h').
Proof.
  intros [Hnd Hch] Hp. unfold FastCacheWithTTL._addToTimeListTail.
  set (h := FastCacheWithTTL.heap c) in *.
  set (th := FastCacheWithTTL.timeHead c) in *.
  set (tt := FastCacheWithTTL.timeTail c) in *.
  destruct (snoc_exists th tl) as (A & z & HA).
  assert (E1 : th :: tl ++ [tt] = A ++ [z; tt]).
  { rewrite app_comm_cons, HA. by rewrite <- app_assoc. }
  assert (E2 : th :: (tl ++ [p]) ++ [tt] = A ++ [z; p; tt]).
  { rewrite <- app_assoc, app_comm_cons, HA. by rewrite <- app_assoc. }
  pose proof (NoDup_snoc_mid th tt p tl Hnd Hp) as Hnd'.
  rewrite E1 in Hnd, Hch, Hp. rewrite E2 in Hnd'.
  destruct (chain_last _ _ _ _ _ _ Hch) as [Hzt Htz]. rewrite Htz.
  eexists. split; [done|]. split; [split|].
  - by rewrite E2.
  - rewrite E2. apply chain_app in Hch as [HchA _].
    apply NoDup_app in Hnd' as (_ & HdA & Hnd').
    apply NoDup_cons in Hnd' as [Hz Hnd']. apply NoDup_cons in Hnd' as [Hpt _].
    assert (z ≠ p) by (intros ->; apply Hz; left).
    assert (z ≠ tt) by (intros ->; apply Hz; right; left).
    assert (p ≠ tt) by (intros ->; apply Hpt; left).
    apply chain_app. split.
    + apply (chain_frame_snoc _ _ h); [| |done].
      * intros q Hq.
        assert (q ≠ z) by (intros ->; apply (HdA z Hq); left).
        assert (q ≠ p) by (intros ->; apply (HdA p Hq); right; left).
        rewrite ?upd_spec. case_upd; done.
      * intros q Hq.
        assert (q ≠ p).
        { intros ->. apply elem_of_app in Hq as [Hq|Hq].
          - apply (HdA p Hq). right; left.
          - apply list_elem_of_singleton in Hq. done. }
        assert (q ≠ tt).
        { intros ->. apply elem_of_app in Hq as [Hq|Hq].
          - apply (HdA tt Hq). right; right; left.
          - apply list_elem_of_singleton in Hq. done. }
        rewrite ?upd_spec. case_upd; done.
    + simpl. repeat split.
      * rewrite !upd_ne by done. by rewrite upd_eq.
      * rewrite upd_ne by done. rewrite upd_eq. simpl. by rewrite upd_eq.
      * rewrite upd_ne by done. by rewrite upd_eq.
      * by rewrite upd_eq.
  - intros n. repeat split; intros q _; rewrite ?upd_spec; case_upd; done.
Qed.

Lemma InvL_agree s l h' :
  InvL s l →
  (∀ q, key (h' q) = key (FastCache.heap s q) ∧ value (h' q) = value (FastCache.heap s q) ∧
        prev (h' q) = prev (FastCache.heap s q) ∧ next (h' q) = next (FastCache.heap s q)) →
  InvL (FastCache.with_heap s h') l.
Proof.
  intros Hinv Hag. apply (InvL_relink s l); [done| |done| |].
  - apply (dll_agree_all _ _ (FastCache.heap s)); [| |apply Hinv];
      intros q; by destruct (Hag q) as (_ & _ & ? & ?).
  - intros q _. by destruct (Hag q) as (? & _).
  - intros q Hq. destruct (Hag q) as (_ & -> & _). by apply (invl_val _ _ Hinv).
Qed.

Lemma InvT_with_expired c l tl n :
  InvT c l tl → InvT (FastCacheWithTTL.with_expired c n) l tl.
Proof. intros []. by constructor. Qed.

Lemma InvT_with_misses c l tl n :
  InvT c l tl → InvT (FastCacheWithTTL.with_misses c n) l tl.
Proof.
  intros [Hb ? ? ? ? ?]. constructor; try done. by apply InvL_with_misses.
Qed.

Lemma InvT_mem_tl c l tl p :
  InvT c l tl → p ∈ tl →
  p ≠ FastCacheWithTTL.timeHead c ∧ p ≠ FastCacheWithTTL.timeTail c.
Proof. intros Hinv Hp. by apply (dll_neq_sentinels _ _ _ _ _ _ _ (invt_dll _ _ _ Hinv)). Qed.

Lemma ttl_delete_absent c k :
  FastCacheWithTTL.cache c !! k = None → FastCacheWithTTL.delete c k = (c, false).
Proof. intros Hk. unfold FastCacheWithTTL.delete. by rewrite Hk. Qed.

(** [delete] on a key of the index takes its node out of the index and out
    of both lists. *)
Lemma ttl_delete_present c l tl k p :
  InvT c l tl → FastCacheWithTTL.cache c !! k = Some p →
  ∃ c', FastCacheWithTTL.delete c k = (c', true) ∧
        InvT c' (without p l) (without p tl) ∧
        FastCacheWithTTL.cache c' = delete k (FastCacheWithTTL.cache c) ∧
        stats c' = stats c ∧ config c' = config c ∧
        (∀ q, node_data (FastCacheWithTTL.heap c') q = node_data (FastCacheWithTTL.heap c) q).
Proof.
  intros Hinv Hk. pose proof Hinv as [Hb Hdll Hsub Hfresh Hts Httl].
  destruct (invl_idx _ _ Hb k p Hk) as [Hp _]. pose proof (Hsub p Hp) as Hpt.
  set (h := FastCacheWithTTL.heap c) in *. set (h1 := tunlink h p).
  assert (Hfr1 : ∀ {A} (f : CacheNode K V → A),
            (∀ y n, f (with_timeNext y n) = f n) → (∀ y n, f (with_timePrev y n) = f n) →
            ∀ q, f (h1 q) = f (h q)).
  { intros A f Hn Hpv q. by apply (unlink_frame timeNext timePrev with_timeNext with_timePrev). }
  assert (Hfr2 : ∀ {A} (f : CacheNode K V → A),
            (∀ y n, f (with_next y n) = f n) → (∀ y n, f (with_prev y n) = f n) →
            ∀ q, f (lunlink h1 p q) = f (h1 q)).
  { intros A f Hn Hpv q. by apply (unlink_frame next prev with_next with_prev). }
  assert (Hb1 : InvL (FastCache.with_heap (FastCacheWithTTL.base c) h1) l).
  { apply InvL_agree; [done|]. intros q. rewrite !Hfr1 by done. done. }
  pose proof (InvL_remove _ l k p Hb1 Hk) as Hb2. simpl in Hb2.
  unfold FastCacheWithTTL.delete. rewrite Hk. rewrite removeFromTimeList_unlink.
  fold h. fold h1. simpl FastCacheWithTTL.base.
  rewrite (delete_present _ k p) by done. simpl.
  eexists. split; [done|]. split; [|split; [done|split; [done|split; [done|]]]].
  - constructor; unfold FastCacheWithTTL.heap; simpl; try done.
    + apply (dll_agree_all _ _ h1); [intros q; by rewrite Hfr2..|].
      by apply tunlink_dll.
    + intros q Hq. apply elem_of_without in Hq as [Hne Hq]. apply elem_of_without.
      split; [done|by apply Hsub].
    + intros q Hq. apply Hfresh.
      apply elem_of_cons in Hq as [->|Hq]; [left|right].
      apply elem_of_app in Hq as [Hq|Hq]; apply elem_of_app; [left|by right].
      by apply elem_of_without in Hq as [_ ?].
    + intros q Hq. apply elem_of_without in Hq as [Hne Hq].
      rewrite Hfr2, Hfr1 by done. by apply Hts.
  - intros q. unfold node_data, FastCacheWithTTL.heap. simpl.
    rewrite !Hfr2, !Hfr1 by done. done.
Qed.

Lemma ttl_get_miss c k now :
  FastCacheWithTTL.cache c !! k = None →
  FastCacheWithTTL.get c k now
    = Ok (FastCacheWithTTL.with_misses c
            (FastCache.misses (FastCacheWithTTL.base c) + 1), None).
Proof. intros Hk. unfold FastCacheWithTTL.get. by rewrite Hk. Qed.

(** [get] on a key whose node has expired: the node leaves the index and
    both lists; [misses] and [expired] count it. *)
Lemma ttl_get_expired c l tl k p now :
  InvT c l tl → FastCacheWithTTL.cache c !! k = Some p →
  FastCacheWithTTL.isExpired c p now = true →
  ∃ c', FastCacheWithTTL.get c k now = Ok (c', None) ∧
        InvT c' (without p l) (without p tl) ∧
        FastCacheWithTTL.cache c' = delete k (FastCacheWithTTL.cache c) ∧
        stats c' = (FastCache.hits (FastCacheWithTTL.base c),
                    FastCache.misses (FastCacheWithTTL.base c) + 1,
                    FastCacheWithTTL.expired c + 1) ∧
        config c' = config c ∧
        (∀ q, node_data (FastCacheWithTTL.heap c') q = node_data (FastCacheWithTTL.heap c) q).
Proof.
  intros Hinv Hk Hexp.
  destruct (ttl_delete_present c l tl k p Hinv Hk)
    as (c1 & Hdel & Hinv1 & Hc1 & Hst & Hcf & Hnd).
  unfold FastCacheWithTTL.get. rewrite Hk, Hexp, Hdel. simpl.
  eexists. split; [done|]. split.
  - by apply InvT_with_misses, InvT_with_expired.
  - split; [done|]. unfold stats, config in *. simpl. split; [|split; [done|done]].
    congruence.
Qed.

(** [get] on a key whose node has not expired is [get] of the core. *)
Lemma ttl_get_live c l tl k p now :
  InvT c l tl → FastCacheWithTTL.cache c !! k = Some p →
  FastCacheWithTTL.isExpired c p now = false →
  ∃ c' v, FastCacheWithTTL.get c k now = Ok (c', Some v) ∧
        value (FastCacheWithTTL.heap c p) = Some v ∧
        InvT c' (p :: without p l) tl ∧
        FastCacheWithTTL.cache c' = FastCacheWithTTL.cache c ∧
        stats c' = (FastCache.hits (FastCacheWithTTL.base c) + 1,
                    FastCache.misses (FastCacheWithTTL.base c),
                    FastCacheWithTTL.expired c) ∧
        config c' = config c ∧
        (∀ q, node_data (FastCacheWithTTL.heap c') q = node_data (FastCacheWithTTL.heap c) q).
Proof.
  intros Hinv Hk Hexp. pose proof Hinv as [Hb Hdll Hsub Hfresh Hts Httl].
  destruct (get_hit _ l k p Hb Hk) as (h' & v & Hget & Hv & Hb' & Hfr).
  pose proof (lru_frame_all _ _ Hfr) as Hall.
  destruct (invl_idx _ _ Hb k p Hk) as [Hp _].
  unfold FastCacheWithTTL.get. rewrite Hk, Hexp, Hget. simpl.
  eexists _, v. split; [done|]. split; [done|]. split.
  - constructor; unfold FastCacheWithTTL.heap; simpl; try done.
    + by apply InvL_with_hits.
    + apply (dll_agree_all _ _ (FastCacheWithTTL.heap c)); [| |done];
        intros q; by destruct (Hall q) as (_ & _ & _ & ? & ?).
    + intros q Hq. apply Hsub. apply elem_of_cons in Hq as [->|Hq]; [done|].
      by apply elem_of_without in Hq as [_ ?].
    + intros q Hq. destruct (Hall q) as (_ & _ & -> & _). apply Hts.
      apply elem_of_cons in Hq as [->|Hq]; [done|].
      by apply elem_of_without in Hq as [_ ?].
  - split; [done|]. split; [done|]. split; [done|].
    intros q. unfold node_data, FastCacheWithTTL.heap. simpl.
    by destruct (Hall q) as (-> & -> & -> & _).
Qed.

Lemma ttl_has_absent c k now :
  FastCacheWithTTL.cache c !! k = None → FastCacheWithTTL.has c k now = (c, false).
Proof. intros Hk. unfold FastCacheWithTTL.has. by rewrite Hk. Qed.

Lemma ttl_has_live c k p now :
  FastCacheWithTTL.cache c !! k = Some p →
  FastCacheWithTTL.isExpired c p now = false →
  FastCacheWithTTL.has c k now = (c, true).
Proof. intros Hk Hexp. unfold FastCacheWithTTL.has. by rewrite Hk, Hexp. Qed.

Lemma ttl_has_expired c l tl k p now :
  InvT c l tl → FastCacheWithTTL.cache c !! k = Some p →
  FastCacheWithTTL.isExpired c p now = true →
  ∃ c', FastCacheWithTTL.has c k now = (c', false) ∧
        InvT c' (without p l) (without p tl) ∧
        FastCacheWithTTL.cache c' = delete k (FastCacheWithTTL.cache c) ∧
        stats c' = (FastCache.hits (FastCacheWithTTL.base c),
                    FastCache.misses (FastCacheWithTTL.base c),
                    FastCacheWithTTL.expired c + 1) ∧
        config c' = config c.
Proof.
  intros Hinv Hk Hexp.
  destruct (ttl_delete_present c l tl k p Hinv Hk)
    as (c1 & Hdel & Hinv1 & Hc1 & Hst & Hcf & Hnd).
  unfold FastCacheWithTTL.has. rewrite Hk, Hexp, Hdel. simpl.
  eexists. split; [done|]. split; [by apply InvT_with_expired|].
  split; [done|]. unfold stats, config in *. simpl. split; [congruence|done].
Qed.

(** [_addToTimeListTail] keeps the core and the payload of every node. *)
Lemma ttl_add_tail c l tl p :
  InvL (FastCacheWithTTL.base c) l →
  tdll (FastCacheWithTTL.heap c) (FastCacheWithTTL.timeHead c) tl
       (FastCacheWithTTL.timeTail c) →
  p ∉ FastCacheWithTTL.timeHead c :: tl ++ [FastCacheWithTTL.timeTail c] →
  ∃ h', FastCacheWithTTL._addToTimeListTail c p = Ok (FastCacheWithTTL.with_heap c h') ∧
        InvL (FastCache.with_heap (FastCacheWithTTL.base c) h') l ∧
        tdll h' (FastCacheWithTTL.timeHead c) (tl ++ [p]) (FastCacheWithTTL.timeTail c) ∧
        (∀ q, node_data h' q = node_data (FastCacheWithTTL.heap c) q).
Proof.
  intros Hb Hdll Hp.
  destruct (addToTimeListTail_spec c tl p Hdll Hp) as (h' & Hadd & Hdll' & Hfr).
  pose proof (time_frame_all _ _ Hfr) as Hall.
  exists h'. split; [exact Hadd|]. split; [|split; [done|]].
  - apply InvL_agree; [done|]. intros q. by destruct (Hall q) as (-> & -> & _ & -> & ->).
  - intros q. unfold node_data. by destruct (Hall q) as (-> & -> & -> & _).
Qed.

Lemma stamp_agree h p ts q :
  let h2 := upd h p (with_timestamp (Some ts)) in
  key (h2 q) = key (h q) ∧ value (h2 q) = value (h q) ∧
  prev (h2 q) = prev (h q) ∧ next (h2 q) = next (h q) ∧
  timePrev (h2 q) = timePrev (h q) ∧ timeNext (h2 q) = timeNext (h q).
Proof. simpl. rewrite ?upd_spec. by case_upd. Qed.

(** Stamping a node and putting it at the tail of the time list, when it is
    not in that list. *)
Lemma ttl_stamp_add c l tl p ts :
  InvL (FastCacheWithTTL.base c) l →
  tdll (FastCacheWithTTL.heap c) (FastCacheWithTTL.timeHead c) tl
       (FastCacheWithTTL.timeTail c) →
  p ∉ FastCacheWithTTL.timeHead c :: tl ++ [FastCacheWithTTL.timeTail c] →
  let c2 := FastCacheWithTTL.with_heap c
              (upd (FastCacheWithTTL.heap c) p (with_timestamp (Some ts))) in
  ∃ h', FastCacheWithTTL._addToTimeListTail c2 p = Ok (FastCacheWithTTL.with_heap c h') ∧
        InvL (FastCache.with_heap (FastCacheWithTTL.base c) h') l ∧
        tdll h' (FastCacheWithTTL.timeHead c) (tl ++ [p]) (FastCacheWithTTL.timeTail c) ∧
        timestamp (h' p) = Some ts ∧
        (∀ q, key (h' q) = key (FastCacheWithTTL.heap c q) ∧
              value (h' q) = value (FastCacheWithTTL.heap c q)) ∧
        (∀ q, q ≠ p → timestamp (h' q) = timestamp (FastCacheWithTTL.heap c q)).
Proof.
  intros Hb Hdll Hp c2.
  set (h := FastCacheWithTTL.heap c) in *.
  pose proof (stamp_agree h p ts) as Hst.
  set (h2 := upd h p (with_timestamp (Some ts))) in *. simpl in Hst.
  destruct (ttl_add_tail c2 l tl p) as (h' & Hadd & Hb' & Hdll' & Hnd).
  { apply InvL_agree; [done|]. intros q. destruct (Hst q) as (? & ? & ? & ? & _). done. }
  { apply (dll_agree_all _ _ h); [| |done]; intros q;
      destruct (Hst q) as (_ & _ & _ & _ & H1 & H2); [exact H2|exact H1]. }
  { done. }
  assert (Hnd' : ∀ q, key (h' q) = key (h2 q) ∧ value (h' q) = value (h2 q) ∧
                      timestamp (h' q) = timestamp (h2 q)).
  { intros q. specialize (Hnd q). unfold node_data in Hnd. by simplify_eq. }
  exists h'. split; [exact Hadd|]. split; [exact Hb'|]. split; [exact Hdll'|].
  split; [|split].
  - destruct (Hnd' p) as (_ & _ & ->). unfold h2. by rewrite upd_eq.
  - intros q. destruct (Hnd' q) as (-> & -> & _). by destruct (Hst q) as (-> & -> & _).
  - intros q Hq. destruct (Hnd' q) as (_ & _ & ->). unfold h2. by rewrite upd_ne.
Qed.

(** Stamping a node of the time list and moving it to the tail. *)
Lemma ttl_stamp_move c l tl p ts :
  InvL (FastCacheWithTTL.base c) l →
  tdll (FastCacheWithTTL.heap c) (FastCacheWithTTL.timeHead c) tl
       (FastCacheWithTTL.timeTail c) →
  p ∈ tl →
  let c2 := FastCacheWithTTL.with_heap c
              (upd (FastCacheWithTTL.heap c) p (with_timestamp (Some ts))) in
  ∃ h', FastCacheWithTTL._moveToTimeListTail c2 p = Ok (FastCacheWithTTL.with_heap c h') ∧
        InvL (FastCache.with_heap (FastCacheWithTTL.base c) h') l ∧
        tdll h' (FastCacheWithTTL.timeHead c) (without p tl ++ [p])
             (FastCacheWithTTL.timeTail c) ∧
        timestamp (h' p) = Some ts ∧
        (∀ q, key (h' q) = key (FastCacheWithTTL.heap c q) ∧
              value (h' q) = value (FastCacheWithTTL.heap c q)) ∧
        (∀ q, q ≠ p → timestamp (h' q) = timestamp (FastCacheWithTTL.heap c q)).
Proof.
  intros Hb Hdll Hp c2.
  set (h := FastCacheWithTTL.heap c) in *.
  destruct (dll_neq_sentinels _ _ _ _ _ _ _ Hdll Hp) as [Hph Hpt].
  pose proof (stamp_agree h p ts) as Hst.
  set (h2 := upd h p (with_timestamp (Some ts))) in *. simpl in Hst.
  set (h3 := tunlink h2 p).
  assert (Hfr3 : ∀ {A} (f : CacheNode K V → A),
            (∀ y n, f (with_timeNext y n) = f n) → (∀ y n, f (with_timePrev y n) = f n) →
            ∀ q, f (h3 q) = f (h2 q)).
  { intros A f Hn Hpv q. by apply (unlink_frame timeNext timePrev with_timeNext with_timePrev). }
  unfold FastCacheWithTTL._moveToTimeListTail. rewrite removeFromTimeList_unlink.
  change (FastCacheWithTTL.heap c2) with h2. fold h3.
  change (FastCacheWithTTL.with_heap c2 h3) with (FastCacheWithTTL.with_heap c h3).
  destruct (ttl_add_tail (FastCacheWithTTL.with_heap c h3) l (without p tl) p)
    as (h' & Hadd & Hb' & Hdll' & Hnd).
  { apply InvL_agree; [done|]. intros q. rewrite !Hfr3 by done.
    by destruct (Hst q) as (-> & -> & -> & -> & _). }
  { apply tunlink_dll; [|done]. apply (dll_agree_all _ _ h); [| |done]; intros q;
      destruct (Hst q) as (_ & _ & _ & _ & H1 & H2); [exact H2|exact H1]. }
  { simpl. intros Hin. apply elem_of_cons in Hin as [?|Hin]; [done|].
    apply elem_of_app in Hin as [Hin|Hin].
    - by apply elem_of_without in Hin as [? _].
    - by apply list_elem_of_singleton in Hin. }
  assert (Hnd' : ∀ q, key (h' q) = key (h2 q) ∧ value (h' q) = value (h2 q) ∧
                      timestamp (h' q) = timestamp (h2 q)).
  { intros q. specialize (Hnd q). unfold node_data in Hnd.
    change (FastCacheWithTTL.heap (FastCacheWithTTL.with_heap c h3)) with h3 in Hnd.
    rewrite !Hfr3 in Hnd by done. by simplify_eq. }
  exists h'. split; [exact Hadd|]. split; [exact Hb'|]. split; [exact Hdll'|].
  split; [|split].
  - destruct (Hnd' p) as (_ & _ & ->). unfold h2. by rewrite upd_eq.
  - intros q. destruct (Hnd' q) as (-> & -> & _). by destruct (Hst q) as (-> & -> & _).
  - intros q Hq. destruct (Hnd' q) as (_ & _ & ->). unfold h2. by rewrite upd_ne.
Qed.

Lemma elem_of_full_snoc (a b p q : ptr) tl :
  q ∈ a :: (tl ++ [p]) ++ [b] ↔ q = p ∨ q ∈ a :: tl ++ [b].
Proof.
  repeat first [rewrite elem_of_cons | rewrite elem_of_app | rewrite elem_of_nil].
  naive_solver.
Qed.

(** [set] on a key of the index: new value, new stamp, head of the recency
    list, tail of the time list. *)
Lemma ttl_set_existing c l tl k v p clock :
  InvT c l tl → FastCacheWithTTL.cache c !! k = Some p →
  ∃ c', FastCacheWithTTL.set c k v clock = Ok c' ∧
        InvT c' (p :: without p l) (without p tl ++ [p]) ∧
        FastCacheWithTTL.cache c' = FastCacheWithTTL.cache c ∧
        stats c' = stats c ∧ config c' = config c ∧
        node_data (FastCacheWithTTL.heap c') p
          = (Some k, Some v, Some (if FastCacheWithTTL.ttl c >? 0 then clock else 0)) ∧
        (∀ q, q ≠ p →
           node_data (FastCacheWithTTL.heap c') q = node_data (FastCacheWithTTL.heap c) q).
Proof.
  intros Hinv Hk. pose proof Hinv as [Hb Hdll Hsub Hfresh Hts Httl].
  destruct (invl_idx _ _ Hb k p Hk) as [Hp Hkey]. pose proof (Hsub p Hp) as Hpt.
  destruct (set_existing _ l k v p Hb Hk) as (h1 & Hset & Hb1 & Hv1 & Hsame & Hval).
  set (now := if FastCacheWithTTL.ttl c >? 0 then clock else 0).
  set (c1 := FastCacheWithTTL.with_heap c h1).
  destruct (ttl_stamp_move c1 (p :: without p l) tl p now)
    as (h' & Hmv & Hb' & Hdll' & Hstamp & Hkv & Hoth); [done| |done|].
  { apply (dll_agree_all _ _ (FastCacheWithTTL.heap c)); [| |done]; intros q;
      destruct (Hsame q) as (_ & _ & H1 & H2); [exact H2|exact H1]. }
  change (FastCacheWithTTL.heap c1) with h1 in Hkv, Hoth.
  exists (FastCacheWithTTL.with_heap c h').
  split; [|split; [|split; [done|split; [done|split; [done|split]]]]].
  - unfold FastCacheWithTTL.set. cbv zeta. rewrite Hset. simpl.
    unfold FastCacheWithTTL.cache in *. simpl. rewrite Hk. exact Hmv.
  - constructor; unfold FastCacheWithTTL.heap; simpl; try done.
    + intros q Hq. apply elem_of_app. apply elem_of_cons in Hq as [->|Hq].
      * right. left.
      * left. apply elem_of_without in Hq as [Hne Hq]. apply elem_of_without.
        split; [done|by apply Hsub].
    + intros q Hq. apply elem_of_full_snoc in Hq as [->|Hq].
      * by apply (InvL_lt _ _ _ Hb).
      * apply Hfresh. apply elem_of_cons in Hq as [->|Hq]; [left|right].
        apply elem_of_app in Hq as [Hq|Hq]; apply elem_of_app; [left|by right].
        by apply elem_of_without in Hq as [_ ?].
    + intros q Hq. destruct (decide (q = p)) as [->|Hne].
      * rewrite Hstamp. by eexists.
      * rewrite Hoth by done. simpl. destruct (Hsame q) as (_ & -> & _).
        apply Hts. apply elem_of_cons in Hq as [?|Hq]; [done|].
        by apply elem_of_without in Hq as [_ ?].
  - unfold node_data, FastCacheWithTTL.heap. simpl. rewrite Hstamp.
    destruct (Hkv p) as [-> ->]. simpl. destruct (Hsame p) as (-> & _).
    by rewrite Hv1, Hkey.
  - intros q Hq. unfold node_data, FastCacheWithTTL.heap. simpl.
    rewrite Hoth by done. destruct (Hkv q) as [-> ->]. simpl.
    destruct (Hsame q) as (-> & -> & _). by rewrite Hval.
Qed.

(** [set] on a key that is not in the index.  When the index is full the
    core evicts the node next to the tail sentinel of the recency list; that
    node stays linked in the time list. *)
Lemma ttl_set_new c l tl k v clock :
  InvT c l tl → FastCacheWithTTL.cache c !! k = None →
  let p := FastCache.nextptr (FastCacheWithTTL.base c) in
  ∃ c', FastCacheWithTTL.set c k v clock = Ok c' ∧
    stats c' = stats c ∧ config c' = config c ∧
    node_data (FastCacheWithTTL.heap c') p
      = (Some k, Some v, Some (if FastCacheWithTTL.ttl c >? 0 then clock else 0)) ∧
    (∀ q, (q < p)%nat →
       node_data (FastCacheWithTTL.heap c') q = node_data (FastCacheWithTTL.heap c) q) ∧
    ((Z.of_nat (size (FastCacheWithTTL.cache c)) < FastCache.maxSize (FastCacheWithTTL.base c) ∧
      FastCacheWithTTL.cache c' = <[k := p]> (FastCacheWithTTL.cache c) ∧
      InvT c' (p :: l) (tl ++ [p]))
     ∨
     (FastCache.maxSize (FastCacheWithTTL.base c) ≤ Z.of_nat (size (FastCacheWithTTL.cache c)) ∧
      ∃ l0 x kx, l = l0 ++ [x] ∧ key (FastCacheWithTTL.heap c x) = Some kx ∧
        FastCacheWithTTL.cache c !! kx = Some x ∧
        FastCacheWithTTL.cache c' = <[k := p]> (delete kx (FastCacheWithTTL.cache c)) ∧
        InvT c' (p :: l0) (tl ++ [p]))).
Proof.
  intros Hinv Hk p. pose proof Hinv as [Hb Hdll Hsub Hfresh Hts Httl].
  destruct (set_new _ l k v Hb Hk)
    as (s' & Hset & Hnext & Hhd & Htl & Hmax & Hhits & Hmiss & Hkey & Hval & Hfr & Hcases).
  fold p in Hnext, Hkey, Hval, Hfr.
  set (now := if FastCacheWithTTL.ttl c >? 0 then clock else 0).
  set (c1 := FastCacheWithTTL.with_base c s').
  set (h := FastCacheWithTTL.heap c) in *.
  (* what the two cases of the core have in common *)
  assert (Hcommon : ∃ l', InvL s' l' ∧ FastCache.cache s' !! k = Some p ∧
            (∀ q, q ∈ l' → q = p ∨ q ∈ l) ∧
            ((Z.of_nat (size (FastCacheWithTTL.cache c)) < FastCache.maxSize (FastCacheWithTTL.base c) ∧
              FastCache.cache s' = <[k := p]> (FastCacheWithTTL.cache c) ∧ l' = p :: l)
             ∨
             (FastCache.maxSize (FastCacheWithTTL.base c) ≤ Z.of_nat (size (FastCacheWithTTL.cache c)) ∧
              ∃ l0 x kx, l = l0 ++ [x] ∧ key (h x) = Some kx ∧
                FastCacheWithTTL.cache c !! kx = Some x ∧
                FastCache.cache s' = <[k := p]> (delete kx (FastCacheWithTTL.cache c)) ∧
                l' = p :: l0))).
  { destruct Hcases as [(Hsz & Hc & Hi)|(Hsz & l0 & x & kx & -> & Hkx & Hcx & Hc & Hi)].
    - exists (p :: l). split; [done|]. split; [by rewrite Hc, lookup_insert_eq|].
      split; [intros q Hq; by apply elem_of_cons in Hq|]. left. done.
    - exists (p :: l0). split; [done|]. split; [by rewrite Hc, lookup_insert_eq|].
      split.
      + intros q Hq. apply elem_of_cons in Hq as [?|Hq]; [by left|right].
        apply elem_of_app. by left.
      + right. split; [done|]. by exists l0, x, kx. }
  destruct Hcommon as (l' & Hb' & Hkp & Hl' & Hshape).
  assert (Hlt : ∀ q, q ∈ FastCacheWithTTL.timeHead c :: tl ++ [FastCacheWithTTL.timeTail c] →
                     (q < p)%nat) by exact Hfresh.
  destruct Hfr as (Hfk & Hfv & Hfs & Hftp & Hftn).
  destruct (ttl_stamp_add c1 l' tl p now) as (h' & Hadd & Hb2 & Hdll2 & Hstamp & Hkv & Hoth).
  { done. }
  { destruct Hdll as [Hnd Hch]. split; [done|].
    apply (chain_agree _ _ p h); done. }
  { intros Hin. apply Hlt in Hin. lia. }
  change (FastCacheWithTTL.heap c1) with (FastCache.heap s') in Hkv, Hoth.
  exists (FastCacheWithTTL.with_heap c1 h').
  assert (Hinv' : InvT (FastCacheWithTTL.with_heap c1 h') l' (tl ++ [p])).
  { constructor; unfold FastCacheWithTTL.heap; simpl; try done.
    - intros q Hq. apply elem_of_app. destruct (Hl' q Hq) as [->|Hq'].
      + right. left.
      + left. by apply Hsub.
    - intros q Hq. rewrite Hnext. apply elem_of_full_snoc in Hq as [->|Hq]; [lia|].
      apply Hlt in Hq. lia.
    - intros q Hq. destruct (decide (q = p)) as [->|Hne].
      + rewrite Hstamp. by eexists.
      + rewrite Hoth by done. destruct (Hl' q Hq) as [?|Hq']; [done|].
        rewrite Hfs by (by apply (InvL_lt _ _ _ Hb)). by apply Hts. }
  split; [|split; [|split; [|split; [|split]]]].
  - unfold FastCacheWithTTL.set. cbv zeta. rewrite Hset. simpl.
    unfold FastCacheWithTTL.cache in *. simpl. rewrite Hkp, Hk. exact Hadd.
  - unfold stats. simpl. by rewrite Hhits, Hmiss.
  - unfold config. simpl. by rewrite Hmax.
  - unfold node_data, FastCacheWithTTL.heap. simpl. rewrite Hstamp.
    destruct (Hkv p) as [-> ->]. by rewrite Hkey, Hval.
  - intros q Hq. unfold node_data, FastCacheWithTTL.heap. simpl.
    rewrite Hoth by lia. destruct (Hkv q) as [-> ->].
    by rewrite Hfk, Hfv, Hfs.
  - destruct Hshape as [(Hsz & Hc & ->)|(Hsz & l0 & x & kx & -> & Hkx & Hcx & Hc & ->)].
    + left. done.
    + right. split; [done|]. exists l0, x, kx. done.
Qed.

Lemma ttl_clear_spec c l tl :
  InvT c l tl →
  InvT (FastCacheWithTTL.clear c) [] [] ∧
  stats (FastCacheWithTTL.clear c) = (0, 0, 0) ∧
  config (FastCacheWithTTL.clear c) = config c ∧
  FastCacheWithTTL.cache (FastCacheWithTTL.clear c) = ∅.
Proof.
  intros [Hb Hdll Hsub Hfresh Hts Httl].
  destruct (clear_spec _ l Hb) as [Hb' Hfr].
  split; [|done].
  destruct Hdll as [Hnd Hch].
  assert (Hne : FastCacheWithTTL.timeHead c ≠ FastCacheWithTTL.timeTail c).
  { apply NoDup_cons in Hnd as [Hh _]. intros Heq. apply Hh. rewrite Heq.
    apply elem_of_app. right. left. }
  constructor; unfold FastCacheWithTTL.heap; simpl; try done.
  - apply InvL_agree with (s := FastCache.clear (FastCacheWithTTL.base c)); [done|].
    intros q. simpl.
    set (h0 := upd (upd _ (FastCache.head _) _) (FastCache.tail _) _).
    rewrite ?upd_spec. case_upd; done.
  - split.
    + apply NoDup_cons. split; [|apply NoDup_singleton].
      by intros ?%list_elem_of_singleton.
    + simpl. split; [|done]. split.
      * rewrite upd_ne by done. by rewrite upd_eq.
      * by rewrite upd_eq.
  - intros p Hp. apply Hfresh.
    apply elem_of_cons in Hp as [->|Hp]; [left|right].
    apply elem_of_app. by right.
  - intros p Hp. by apply elem_of_nil in Hp.
Qed.

Lemma ttl_new_spec options c :
  FastCacheWithTTL.new options = Ok c →
  InvT c [] [] ∧ stats c = (0, 0, 0) ∧ FastCacheWithTTL.cache c = ∅ ∧
  config c = (default 0 (opt_ttl options), opt_maxSize options).
Proof.
  unfold FastCacheWithTTL.new, FastCache.new.
  destruct (opt_maxSize options <=? 0) eqn:Hm; [done|]. apply Z.leb_gt in Hm.
  simpl.
  destruct (match opt_ttl options with Some x => x <=? 0 | None => false end) eqn:Ht;
    [done|].
  intros [= <-]. split; [|done].
  assert (Hnd2 : ∀ a b : ptr, a ≠ b → NoDup [a; b]).
  { intros a b Hab. apply NoDup_cons. split; [|apply NoDup_singleton].
    by intros ?%list_elem_of_singleton. }
  assert (Hmem2 : ∀ (a b q : ptr) (P : Prop), (q = a → P) → (q = b → P) → q ∈ [a; b] → P).
  { intros a b q P Ha Hb Hq. apply elem_of_cons in Hq as [?|Hq]; [auto|].
    apply list_elem_of_singleton in Hq. auto. }
  constructor; unfold FastCacheWithTTL.heap; simpl.
  - constructor; simpl; try done.
    + split; [by apply Hnd2|done].
    + intros p Hp. by apply elem_of_nil in Hp.
    + intros p Hp. by apply elem_of_nil in Hp.
    + intros p. apply Hmem2; intros ->; lia.
    + rewrite map_size_empty. lia.
  - split; [by apply Hnd2|done].
  - done.
  - intros p. apply Hmem2; intros ->; lia.
  - intros p Hp. by apply elem_of_nil in Hp.
  - destruct (opt_ttl options) as [x|]; simpl; [|done]. apply Z.leb_gt in Ht. lia.
Qed.

Lemma InvT_destroy c l tl : InvT c l tl → InvT (FastCacheWithTTL.destroy c) l tl.
Proof.
  intros Hinv. unfold FastCacheWithTTL.destroy.
  destruct (FastCacheWithTTL.cleanupTimer c); [|done].
  destruct Hinv. by constructor.
Qed.

(** Whatever the key, [delete] keeps the invariant and the counters. *)
Lemma ttl_delete_inv c l tl k :
  InvT c l tl →
  ∃ l' tl', InvT (FastCacheWithTTL.delete c k).1 l' tl' ∧
            stats (FastCacheWithTTL.delete c k).1 = stats c ∧
            config (FastCacheWithTTL.delete c k).1 = config c.
Proof.
  intros Hinv. destruct (FastCacheWithTTL.cache c !! k) as [p|] eqn:Hk.
  - destruct (ttl_delete_present c l tl k p Hinv Hk) as (c' & -> & Hinv' & _ & Hst & Hcf & _).
    simpl. eauto.
  - rewrite ttl_delete_absent by done. simpl. eauto.
Qed.

(** The loop of [cleanup] keeps the invariant, the configuration and the
    counters of [get]; it either ends or exhausts its budget. *)
Lemma cleanup_loop_inv fuel c l tl now n cur :
  InvT c l tl →
  (∃ c' n' l' tl',
      FastCacheWithTTL.cleanup_loop fuel c now n cur = Ok (c', n') ∧
      InvT c' l' tl' ∧ config c' = config c ∧
      (stats c').1 = (stats c).1) ∨
  FastCacheWithTTL.cleanup_loop fuel c now n cur = OutOfFuel.
Proof.
  revert c l tl n cur. induction fuel as [|fuel IH]; intros c l tl n cur Hinv; [by right|].
  simpl. destruct cur as [node|]; [|left; by exists c, n, l, tl].
  case_decide; [left; by exists c, n, l, tl|].
  destruct (FastCacheWithTTL.isExpired c node now); [|left; by exists c, n, l, tl].
  set (c1 := (FastCacheWithTTL.delete_key_of c _).1).
  assert (H1 : ∃ l' tl', InvT c1 l' tl' ∧ stats c1 = stats c ∧ config c1 = config c).
  { unfold c1, FastCacheWithTTL.delete_key_of.
    destruct (key _) as [k|]; [by apply (ttl_delete_inv c l tl)|]. simpl. eauto. }
  destruct H1 as (l1 & tl1 & Hinv1 & Hst1 & Hcf1).
  set (c2 := FastCacheWithTTL.with_expired c1 _).
  assert (Hinv2 : InvT c2 l1 tl1) by (by apply InvT_with_expired).
  destruct (IH c2 l1 tl1 (n + 1) (timeNext (FastCacheWithTTL.heap c2
              (FastCacheWithTTL.timeHead c2))) Hinv2)
    as [(c' & n' & l' & tl' & Heq & Hinv' & Hcf & Hst)|Hout]; [left|by right].
  exists c', n', l', tl'. split; [done|]. split; [done|].
  unfold stats, config in *. simpl in *. split; congruence.
Qed.

Lemma cleanup_inv fuel c l tl now :
  InvT c l tl →
  (∃ c' n' l' tl',
      FastCacheWithTTL.cleanup fuel c now = Ok (c', n') ∧
      InvT c' l' tl' ∧ config c' = config c ∧
      (stats c').1 = (stats c).1) ∨
  FastCacheWithTTL.cleanup fuel c now = OutOfFuel.
Proof.
  intros Hinv. unfold FastCacheWithTTL.cleanup.
  destruct (FastCacheWithTTL.ttl c =? 0); [left; by exists c, 0, l, tl|].
  by apply (cleanup_loop_inv fuel c l tl).
Qed.

(** Every call keeps the invariant and counts as the client does; only
    [cleanup] can fail to return. *)
Lemma ttl_step_inv c l tl op :
  InvT c l tl →
  (∃ c' o l' tl', TTL.step c op = Ok (c', o) ∧ InvT c' l' tl' ∧ config c' = config c ∧
                  (stats c').1 = TTL.record (stats c).1 o) ∨
  (TTL.step c op = OutOfFuel ∧ ∃ fuel now, op = TTL.OpCleanup fuel now).
Proof.
  intros Hinv. destruct op as [k now|k v now|k| |k now|fuel now|]; simpl.
  - left. destruct (FastCacheWithTTL.cache c !! k) as [p|] eqn:Hk.
    + destruct (FastCacheWithTTL.isExpired c p now) eqn:Hexp.
      * destruct (ttl_get_expired c l tl k p now Hinv Hk Hexp)
          as (c' & -> & Hinv' & _ & Hst & Hcf & _). simpl.
        do 4 eexists. split; [done|]. split; [done|]. split; [done|]. unfold stats in *; simpl in *; congruence.
      * destruct (ttl_get_live c l tl k p now Hinv Hk Hexp)
          as (c' & v & -> & _ & Hinv' & _ & Hst & Hcf & _). simpl.
        do 4 eexists. split; [done|]. split; [done|]. split; [done|]. unfold stats in *; simpl in *; congruence.
    + rewrite ttl_get_miss by done. simpl. do 4 eexists.
      split; [done|]. split; [by apply InvT_with_misses|done].
  - left. destruct (FastCacheWithTTL.cache c !! k) as [p|] eqn:Hk.
    + destruct (ttl_set_existing c l tl k v p now Hinv Hk)
        as (c' & -> & Hinv' & _ & Hst & Hcf & _). simpl.
      do 4 eexists. split; [done|]. split; [done|]. split; [done|]. unfold stats in *; simpl in *; congruence.
    + destruct (ttl_set_new c l tl k v now Hinv Hk)
        as (c' & -> & Hst & Hcf & _ & _ & [(_ & _ & Hinv')|(_ & l0 & x & kx & _ & _ & _ & _ & Hinv')]);
        simpl; do 4 eexists; (split; [done|]); (split; [done|]); (split; [done|]);
        unfold stats in *; simpl in *; congruence.
  - left. destruct (ttl_delete_inv c l tl k Hinv) as (l' & tl' & Hinv' & Hst & Hcf).
    destruct (FastCacheWithTTL.delete c k) as [c' r]. simpl in *.
    do 4 eexists. split; [done|]. split; [done|]. split; [done|]. unfold stats in *; simpl in *; congruence.
  - left. destruct (ttl_clear_spec c l tl Hinv) as (Hinv' & Hst & Hcf & _).
    do 4 eexists. split; [done|]. split; [done|]. split; [done|]. unfold stats in *; simpl in *; congruence.
  - left. destruct (FastCacheWithTTL.cache c !! k) as [p|] eqn:Hk.
    + destruct (FastCacheWithTTL.isExpired c p now) eqn:Hexp.
      * destruct (ttl_has_expired c l tl k p now Hinv Hk Hexp)
          as (c' & -> & Hinv' & _ & Hst & Hcf). simpl.
        do 4 eexists. split; [done|]. split; [done|]. split; [done|]. unfold stats in *; simpl in *; congruence.
      * rewrite (ttl_has_live c k p now) by done. eauto 10.
    + rewrite ttl_has_absent by done. eauto 10.
  - destruct (cleanup_inv fuel c l tl now Hinv)
      as [(c' & n' & l' & tl' & -> & Hinv' & Hcf & Hst)| ->]; simpl; [left|right]; eauto 10.
  - left. do 4 eexists. split; [done|]. split; [by apply InvT_destroy|].
    unfold FastCacheWithTTL.destroy. by destruct (FastCacheWithTTL.cleanupTimer c).
Qed.

Lemma ttl_run_inv c l tl ops c' outs :
  InvT c l tl → TTL.run c ops = Ok (c', outs) →
  ∃ l' tl', InvT c' l' tl' ∧ config c' = config c ∧
            (stats c').1 = foldl TTL.record (stats c).1 outs.
Proof.
  revert c l tl c' outs. induction ops as [|op ops IH]; intros c l tl c' outs Hinv Hrun.
  - simpl in Hrun. injection Hrun as <- <-. eauto.
  - simpl in Hrun.
    destruct (ttl_step_inv c l tl op Hinv)
      as [(c1 & o & l1 & tl1 & Hstep & Hinv1 & Hcf1 & Hst1)|[Hstep _]];
      rewrite Hstep in Hrun; simpl in Hrun; [|done].
    destruct (TTL.run c1 ops) as [[c2 os]| |] eqn:Hrun1; simpl in Hrun; try done.
    injection Hrun as <- <-.
    destruct (IH c1 l1 tl1 c2 os Hinv1 Hrun1) as (l' & tl' & Hinv' & Hcf' & Hst').
    exists l', tl'. split; [done|]. split; [congruence|]. rewrite Hst', Hst1. done.
Qed.

(** A sequence of calls never throws. *)
Lemma ttl_run_no_throw c l tl ops msg :
  InvT c l tl → TTL.run c ops ≠ Throw msg.
Proof.
  revert c l tl. induction ops as [|op ops IH]; intros c l tl Hinv; [done|].
  simpl.
  destruct (ttl_step_inv c l tl op Hinv)
    as [(c1 & o & l1 & tl1 & Hstep & Hinv1 & Hcf1 & _)|[Hstep _]];
    rewrite Hstep; simpl; [|done].
  specialize (IH c1 l1 tl1 Hinv1).
  destruct (TTL.run c1 ops) as [[c2 os]| |]; simpl; congruence.
Qed.

Lemma ttl_reachable_inv options c :
  TTL.reachable options c →
  ∃ l tl, InvT c l tl ∧ config c = (default 0 (opt_ttl options), opt_maxSize options).
Proof.
  intros (c0 & ops & outs & Hnew & Hrun).
  destruct (ttl_new_spec options c0 Hnew) as (Hinv0 & _ & _ & Hcf0).
  destruct (ttl_run_inv c0 [] [] ops c outs Hinv0 Hrun) as (l & tl & Hinv & Hcf & _).
  exists l, tl. split; [done|]. congruence.
Qed.

(** Under the invariant the two observers read the two lists back. *)
Lemma InvL_lru_list s l : InvL s l → FastCache.lru_list s = Some l.
Proof.
  intros Hinv. destruct (invl_dll _ _ Hinv) as [Hnd Hch].
  unfold FastCache.lru_list. apply (walk_chain next prev); [done|done|].
  assert (Hlen : (length (FastCache.head s :: l ++ [FastCache.tail s])
                  ≤ length (seq 0 (FastCache.nextptr s)))%nat).
  { apply submseteq_length, NoDup_submseteq; [done|].
    intros q Hq. apply elem_of_seq. pose proof (invl_fresh _ _ Hinv q Hq). lia. }
  rewrite length_seq in Hlen. simpl in Hlen. rewrite length_app in Hlen. simpl in Hlen. lia.
Qed.

Lemma InvT_lists c l tl :
  InvT c l tl →
  FastCacheWithTTL.lru_list c = Some l ∧ FastCacheWithTTL.time_list c = Some tl.
Proof.
  intros Hinv. split; [apply InvL_lru_list, Hinv|].
  destruct (invt_dll _ _ _ Hinv) as [Hnd Hch].
  unfold FastCacheWithTTL.time_list. apply (walk_chain timeNext timePrev); [done|done|].
  assert (Hlen : (length (FastCacheWithTTL.timeHead c :: tl ++ [FastCacheWithTTL.timeTail c])
                  ≤ length (seq 0 (FastCache.nextptr (FastCacheWithTTL.base c))))%nat).
  { apply submseteq_length, NoDup_submseteq; [done|].
    intros q Hq. apply elem_of_seq. pose proof (invt_fresh _ _ _ Hinv q Hq). lia. }
  rewrite length_seq in Hlen. simpl in Hlen. rewrite length_app in Hlen. simpl in Hlen. lia.
Qed.
End TTLLemmas.

(** ** Sequences of calls on the LRU core *)

Section LRURun.
Context `{Countable K} {V : Type}.
Implicit Types (s : FastCache.t K V) (l : list ptr).

(** Every call returns, keeps the invariant and counts as the client does. *)
Lemma lru_step_inv s l op :
  InvL s l →
  ∃ s' o l', LRU.step s op = Ok (s', o) ∧ InvL s' l' ∧
             FastCache.maxSize s' = FastCache.maxSize s ∧
             (FastCache.hits s', FastCache.misses s')
               = LRU.record (FastCache.hits s, FastCache.misses s) o.
Proof.
  intros Hinv. destruct op as [k|k v|k| |k]; simpl.
  - destruct (FastCache.cache s !! k) as [p|] eqn:Hk.
    + destruct (get_hit s l k p Hinv Hk) as (h' & v & -> & _ & Hinv' & _). simpl.
      do 3 eexists. split; [done|]. split; [by apply InvL_with_hits|done].
    + rewrite get_miss by done. simpl.
      do 3 eexists. split; [done|]. split; [by apply InvL_with_misses|done].
  - destruct (FastCache.cache s !! k) as [p|] eqn:Hk.
    + destruct (set_existing s l k v p Hinv Hk) as (h' & -> & Hinv' & _). simpl.
      do 3 eexists. split; [done|]. split; [done|done].
    + destruct (set_new s l k v Hinv Hk)
        as (s' & -> & _ & _ & _ & Hmax & Hhits & Hmiss & _ & _ & _ & Hcases). simpl.
      destruct Hcases as [(_ & _ & Hinv')|(_ & l0 & x & kx & _ & _ & _ & _ & Hinv')];
        do 3 eexists; (split; [done|]); (split; [done|]); (split; [done|]);
        by rewrite Hhits, Hmiss.
  - destruct (FastCache.cache s !! k) as [p|] eqn:Hk.
    + rewrite (delete_present s k p) by done.
      do 3 eexists. split; [done|]. split; [by apply InvL_remove|done].
    + rewrite delete_absent by done. do 3 eexists. split; [done|]. done.
  - destruct (clear_spec s l Hinv) as [Hinv' _]. do 3 eexists. split; [done|]. done.
  - do 3 eexists. split; [done|]. done.
Qed.

Lemma lru_run_inv s l ops :
  InvL s l →
  ∃ s' outs l', LRU.run s ops = Ok (s', outs) ∧ InvL s' l' ∧
                FastCache.maxSize s' = FastCache.maxSize s ∧
                (FastCache.hits s', FastCache.misses s')
                  = foldl LRU.record (FastCache.hits s, FastCache.misses s) outs.
Proof.
  revert s l. induction ops as [|op ops IH]; intros s l Hinv.
  - exists s, [], l. done.
  - destruct (lru_step_inv s l op Hinv) as (s1 & o & l1 & Hstep & Hinv1 & Hmax1 & Hst1).
    destruct (IH s1 l1 Hinv1) as (s2 & os & l2 & Hrun & Hinv2 & Hmax2 & Hst2).
    exists s2, (o :: os), l2. simpl. rewrite Hstep. simpl. rewrite Hrun. simpl.
    split; [done|]. split; [done|]. split; [congruence|].
    rewrite Hst2, Hst1. done.
Qed.

Lemma lru_reachable_inv c s :
  LRU.reachable c s → ∃ l, InvL s l ∧ FastCache.maxSize s = c.
Proof.
  intros (s0 & ops & outs & Hnew & Hrun).
  assert (Hc : 0 < c).
  { unfold FastCache.new in Hnew. destruct (c <=? 0) eqn:Hc; [done|]. by apply Z.leb_gt. }
  destruct (new_spec (K:=K) (V:=V) c Hc) as (s0' & Hnew' & Hinv0 & Hmax0 & _).
  rewrite Hnew in Hnew'. injection Hnew' as <-.
  destruct (lru_run_inv s0 [] ops Hinv0) as (s' & outs' & l & Hrun' & Hinv & Hmax & _).
  rewrite Hrun in Hrun'. injection Hrun' as <- <-.
  exists l. split; [done|]. congruence.
Qed.
End LRURun.

(** ** Construction and expiry of a TTL cache *)

Section TTLFacts.
Context `{Countable K} {V : Type}.
Implicit Types (c : FastCacheWithTTL.t K V).

(** The constructor throws exactly when [maxSize ≤ 0], or [ttl] is given and
    [ttl ≤ 0]; the cleanup interval is not looked at. *)
Lemma ttl_new_ok_iff options :
  (∃ c, FastCacheWithTTL.new (K:=K) (V:=V) options = Ok c) ↔
  0 < opt_maxSize options ∧ (∀ t, opt_ttl options = Some t → 0 < t).
Proof.
  unfold FastCacheWithTTL.new, FastCache.new.
  destruct (opt_maxSize options <=? 0) eqn:Hm; simpl.
  - apply Z.leb_le in Hm. split; [by intros [c ?]|intros [? _]; lia].
  - apply Z.leb_gt in Hm. destruct (opt_ttl options) as [t|]; simpl.
    + destruct (t <=? 0) eqn:Ht.
      * apply Z.leb_le in Ht. split; [by intros [c ?]|].
        intros [_ Hpos]. specialize (Hpos t eq_refl). lia.
      * apply Z.leb_gt in Ht. split; [|by eexists].
        intros _. split; [done|]. by intros ? [= <-].
    + split; [|by eexists]. intros _. split; [done|]. by intros ? [=].
Qed.

Lemma ttl_reachable_ttl options c t :
  TTL.reachable options c → opt_ttl options = Some t →
  FastCacheWithTTL.ttl c = t ∧ 0 < t.
Proof.
  intros Hreach Ht. pose proof Hreach as (c0 & ops & outs & Hnew & Hrun).
  destruct (ttl_reachable_inv options c Hreach) as (l & tl & Hinv & Hcf).
  rewrite Ht in Hcf. injection Hcf as Httl _. split; [done|].
  assert (Hok : ∃ c, FastCacheWithTTL.new (K:=K) (V:=V) options = Ok c) by eauto.
  apply ttl_new_ok_iff in Hok as [_ Hpos]. by apply Hpos.
Qed.

Lemma isExpired_stamped c p now ts :
  0 < FastCacheWithTTL.ttl c → timestamp (FastCacheWithTTL.heap c p) = Some ts →
  FastCacheWithTTL.isExpired c p now = (now - ts >? FastCacheWithTTL.ttl c).
Proof.
  intros Httl Hts. unfold FastCacheWithTTL.isExpired. rewrite Hts.
  destruct (FastCacheWithTTL.ttl c =? 0) eqn:H0; [|done]. apply Z.eqb_eq in H0. lia.
Qed.

(** Without a [ttl] nothing ever expires. *)
Lemma ttl_disabled_never_expires options c p now :
  TTL.reachable options c → opt_ttl options = None →
  FastCacheWithTTL.isExpired c p now = false.
Proof.
  intros Hreach Ht.
  destruct (ttl_reachable_inv options c Hreach) as (l & tl & Hinv & Hcf).
  rewrite Ht in Hcf. injection Hcf as Httl _.
  unfold FastCacheWithTTL.isExpired. by rewrite Httl.
Qed.

Lemma ttl_reachable_intro options ops c outs :
  (c0 ← FastCacheWithTTL.new options; TTL.run c0 ops) = Ok (c, outs) →
  TTL.reachable options c.
Proof.
  intros Hrun. destruct (FastCacheWithTTL.new options) as [c0| |] eqn:Hnew; try done.
  by exists c0, ops, outs.
Qed.
End TTLFacts.

(** ** The recency list is the order of last use *)

Section LRURefinement.
Context `{Countable K} {V : Type}.
Implicit Types (s : FastCache.t K V) (h : Heap K V) (l : list ptr) (ks : list K).

Lemma InvL_size s l : InvL s l → size (FastCache.cache s) = length l.
Proof.
  intros Hinv. rewrite <- length_map_to_list.
  rewrite <- (length_fmap snd). apply Permutation_length, NoDup_Permutation.
  - apply NoDup_fmap_2_strong; [|apply NoDup_map_to_list].
    intros [k1 p1] [k2 p2] H1 H2 Heq. simpl in Heq. subst p2.
    apply elem_of_map_to_list in H1, H2.
    destruct (invl_idx _ _ Hinv k1 p1 H1) as [_ Hk1].
    destruct (invl_idx _ _ Hinv k2 p1 H2) as [_ Hk2]. congruence.
  - destruct (invl_dll _ _ Hinv) as [Hnd _].
    apply NoDup_cons in Hnd as [_ Hnd]. by apply NoDup_app in Hnd as [? _].
  - intros p. rewrite list_elem_of_fmap. split.
    + intros ([k p'] & -> & Hin). apply elem_of_map_to_list in Hin.
      by destruct (invl_idx _ _ Hinv k p' Hin).
    + intros Hp. destruct (invl_live _ _ Hinv p Hp) as (k & _ & Hk).
      exists (k, p). split; [done|]. by apply elem_of_map_to_list.
Qed.

Lemma filter_fmap_Some (k : K) ks :
  filter (λ o, o ≠ Some k) (Some <$> ks) = Some <$> filter (λ x, x ≠ k) ks.
Proof.
  induction ks as [|x ks IH]; [done|]. rewrite fmap_cons.
  destruct (decide (x = k)) as [->|Hne].
  - rewrite filter_cons_False by (intros Hn; by apply Hn).
    rewrite filter_cons_False by (intros Hn; by apply Hn). done.
  - rewrite filter_cons_True by congruence. rewrite filter_cons_True by done.
    rewrite fmap_cons. by f_equal.
Qed.

Lemma filter_ne_notin (k : K) ks : k ∉ ks → filter (λ x, x ≠ k) ks = ks.
Proof.
  induction ks as [|x ks IH]; intros Hk; [done|].
  apply not_elem_of_cons in Hk as [Hne Hk].
  rewrite filter_cons_True by congruence. f_equal. by apply IH.
Qed.

Lemma keys_of_without h l p k :
  (∀ q, q ∈ l → key (h q) = Some k → q = p) → key (h p) = Some k →
  FastCache.keys_of h (without p l) = filter (λ o, o ≠ Some k) (FastCache.keys_of h l).
Proof.
  intros Hinj Hp. induction l as [|q l IH]; [done|].
  unfold FastCache.keys_of, without in *. rewrite fmap_cons.
  destruct (decide (q = p)) as [->|Hne].
  - rewrite filter_cons_False by (intros Hn; by apply Hn).
    rewrite filter_cons_False by (intros Hn; by apply Hn).
    apply IH. intros q Hq. apply Hinj. by right.
  - rewrite filter_cons_True by done. rewrite filter_cons_True.
    + rewrite fmap_cons. f_equal. apply IH. intros q' Hq'. apply Hinj. by right.
    + intros Hk. apply Hne, Hinj; [left|done].
Qed.

Lemma keys_of_agree h h' l :
  (∀ q, q ∈ l → key (h' q) = key (h q)) → FastCache.keys_of h' l = FastCache.keys_of h l.
Proof.
  intros Hag. unfold FastCache.keys_of. apply list_fmap_ext.
  intros i q Hq. apply Hag. by apply list_elem_of_lookup_2 in Hq.
Qed.

(** The keys of a list, once a key is taken out. *)
Lemma InvL_keys_without s l ks k p :
  InvL s l → FastCache.keys_of (FastCache.heap s) l = Some <$> ks →
  FastCache.cache s !! k = Some p →
  FastCache.keys_of (FastCache.heap s) (without p l) = Some <$> filter (λ x, x ≠ k) ks.
Proof.
  intros Hinv Hks Hk. destruct (invl_idx _ _ Hinv k p Hk) as [Hp Hkp].
  rewrite (keys_of_without _ _ p k); [by rewrite Hks, filter_fmap_Some| |done].
  intros q Hq Hkq. destruct (invl_live _ _ Hinv q Hq) as (k' & Hk' & Hc). congruence.
Qed.

Lemma InvL_keys_mem s l ks k :
  InvL s l → FastCache.keys_of (FastCache.heap s) l = Some <$> ks →
  k ∈ ks ↔ is_Some (FastCache.cache s !! k).
Proof.
  intros Hinv Hks. split.
  - intros Hk. assert (Hin : Some k ∈ FastCache.keys_of (FastCache.heap s) l).
    { rewrite Hks. apply list_elem_of_fmap. by exists k. }
    apply list_elem_of_fmap in Hin as (p & Hkp & Hp).
    destruct (invl_live _ _ Hinv p Hp) as (k' & Hk' & Hc). exists p. congruence.
  - intros [p Hk]. destruct (invl_idx _ _ Hinv k p Hk) as [Hp Hkp].
    assert (Hin : Some k ∈ Some <$> ks).
    { rewrite <- Hks. apply list_elem_of_fmap. by exists p. }
    apply list_elem_of_fmap in Hin as (k' & [= <-] & Hin). done.
Qed.

(** Every call does to the keys of the recency list what the policy says. *)
Lemma lru_step_refines s l ks op :
  InvL s l → FastCache.keys_of (FastCache.heap s) l = Some <$> ks →
  ∃ s' o l',
    LRU.step s op = Ok (s', o) ∧ InvL s' l' ∧
    FastCache.maxSize s' = FastCache.maxSize s ∧
    FastCache.keys_of (FastCache.heap s') l'
      = Some <$> LRU.spec_step (FastCache.maxSize s) ks op.
Proof.
  intros Hinv Hks.
  pose proof (InvL_keys_mem s l ks) as Hmem.
  destruct op as [k|k v|k| |k]; simpl.
  - (* get *)
    destruct (FastCache.cache s !! k) as [p|] eqn:Hk.
    + destruct (get_hit s l k p Hinv Hk) as (h' & v & -> & _ & Hinv' & Hfr). simpl.
      do 3 eexists. split; [done|]. split; [by apply InvL_with_hits|]. split; [done|].
      rewrite decide_True by (apply Hmem; [done|done|by eexists]).
      destruct (invl_idx _ _ Hinv k p Hk) as [Hp Hkp].
      rewrite (keys_of_agree (FastCache.heap s)).
      * unfold FastCache.keys_of at 1. rewrite fmap_cons, Hkp.
        unfold LRU.touch. rewrite fmap_cons. f_equal.
        by apply (InvL_keys_without s l ks k p).
      * intros q _. destruct (Hfr (S q)) as (Hky & _). apply Hky. lia.
    + rewrite get_miss by done. simpl.
      do 3 eexists. split; [done|]. split; [by apply InvL_with_misses|]. split; [done|].
      rewrite decide_False; [done|]. intros Hin. apply Hmem in Hin; [|done..].
      rewrite Hk in Hin. by destruct Hin.
  - (* set *)
    destruct (FastCache.cache s !! k) as [p|] eqn:Hk.
    + destruct (set_existing s l k v p Hinv Hk) as (h' & -> & Hinv' & _ & Hsame & _). simpl.
      do 3 eexists. split; [done|]. split; [done|]. split; [done|].
      rewrite decide_True by (apply Hmem; [done|done|by eexists]).
      destruct (invl_idx _ _ Hinv k p Hk) as [Hp Hkp].
      rewrite (keys_of_agree (FastCache.heap s)).
      * unfold FastCache.keys_of at 1. rewrite fmap_cons, Hkp.
        unfold LRU.touch. rewrite fmap_cons. f_equal.
        by apply (InvL_keys_without s l ks k p).
      * intros q _. destruct (Hsame q) as (Hky & _). exact Hky.
    + destruct (set_new s l k v Hinv Hk)
        as (s' & -> & _ & _ & _ & Hmax & _ & _ & Hkey & _ & Hfr & Hcases). simpl.
      rewrite decide_False.
      2:{ intros Hin. apply Hmem in Hin; [|done..]. rewrite Hk in Hin. by destruct Hin. }
      pose proof (InvL_size s l Hinv) as Hsz.
      assert (Hlen : length ks = length l).
      { rewrite <- (length_fmap Some ks), <- Hks. unfold FastCache.keys_of.
        by rewrite length_fmap. }
      destruct Hfr as (Hfk & _).
      destruct Hcases as [(Hlt & _ & Hinv')|(Hge & l0 & x & kx & -> & Hkx & Hcx & _ & Hinv')].
      * do 3 eexists. split; [done|]. split; [done|]. split; [done|].
        rewrite Z.geb_leb, (proj2 (Z.leb_gt _ _)) by lia.
        unfold FastCache.keys_of at 1. rewrite !fmap_cons, Hkey. f_equal.
        rewrite <- Hks. apply keys_of_agree. intros q Hq. apply Hfk.
        by apply (InvL_lt s l).
      * do 3 eexists. split; [done|]. split; [done|]. split; [done|].
        rewrite Z.geb_leb, (proj2 (Z.leb_le _ _)) by lia.
        unfold FastCache.keys_of at 1. rewrite !fmap_cons, Hkey. f_equal.
        unfold FastCache.keys_of in Hks. rewrite fmap_app in Hks.
        symmetry in Hks. apply fmap_app_inv in Hks as (ks0 & kl & Hks0 & Hkl & ->).
        destruct kl as [|kx' [|? ?]]; try done.
        rewrite removelast_last. rewrite <- Hks0.
        apply keys_of_agree. intros q Hq. apply Hfk.
        apply (InvL_lt s (l0 ++ [x])); [done|]. apply elem_of_app. by left.
  - (* delete *)
    destruct (FastCache.cache s !! k) as [p|] eqn:Hk.
    + rewrite (delete_present s k p) by done.
      do 3 eexists. split; [done|]. split; [by apply InvL_remove|]. split; [done|]. simpl.
      rewrite (keys_of_agree (FastCache.heap s)).
      * by apply (InvL_keys_without s l ks k p).
      * intros q _. by apply (unlink_frame next prev with_next with_prev).
    + rewrite delete_absent by done.
      do 3 eexists. split; [done|]. split; [done|]. split; [done|].
      rewrite Hks. f_equal. symmetry. apply filter_ne_notin.
      intros Hin. apply Hmem in Hin; [|done..]. rewrite Hk in Hin. by destruct Hin.
  - (* clear *)
    destruct (clear_spec s l Hinv) as [Hinv' _].
    do 3 eexists. split; [done|]. split; [done|]. done.
  - (* has *)
    do 3 eexists. split; [done|]. split; [done|]. done.
Qed.

(** The recency list of the implementation, read as keys from head to tail,
    is the list of the policy, for every sequence of calls on a fresh cache. *)
Theorem lru_refines_policy (c : Z) (ops : list (LRU.Op K V)) :
  0 < c →
  ∃ s outs,
    (s0 ← FastCache.new c; LRU.run s0 ops) = Ok (s, outs) ∧
    FastCache.lru_keys s = Some (Some <$> LRU.spec_run c ops).
Proof.
  intros Hc.
  destruct (new_spec (K:=K) (V:=V) c Hc) as (s0 & Hnew & Hinv0 & Hmax0 & _).
  rewrite Hnew. simpl. unfold LRU.spec_run.
  assert (Hgen : ∀ ops s l ks,
            InvL s l → FastCache.maxSize s = c →
            FastCache.keys_of (FastCache.heap s) l = Some <$> ks →
            ∃ s' outs, LRU.run s ops = Ok (s', outs) ∧
              FastCache.lru_keys s' = Some (Some <$> foldl (LRU.spec_step c) ks ops)).
  { clear. intros ops. induction ops as [|op ops IH]; intros s l ks Hinv Hmax Hks.
    - exists s, []. split; [done|]. unfold FastCache.lru_keys.
      rewrite (InvL_lru_list s l Hinv). simpl. by rewrite Hks.
    - destruct (lru_step_refines s l ks op Hinv Hks)
        as (s1 & o & l1 & Hstep & Hinv1 & Hmax1 & Hks1).
      rewrite Hmax in Hks1.
      destruct (IH s1 l1 _ Hinv1 ltac:(congruence) Hks1) as (s2 & os & Hrun & Hres).
      exists s2, (o :: os). simpl. rewrite Hstep. simpl. rewrite Hrun. done. }
  by apply (Hgen ops s0 [] []).
Qed.
End LRURefinement.

(** ** Batch calls are sequences of single calls *)

Section BatchCalls.
Context `{Countable K} {V : Type}.

Lemma foldl_not_ok {A B} (f : Outcome A → B → Outcome A) (m : Outcome A) (l : list B) :
  (∀ a, m ≠ Ok a) → (∀ m' b, (∀ a, m' ≠ Ok a) → f m' b = m') → foldl f m l = m.
Proof.
  intros Hm Hf. induction l as [|b l IH]; [done|]. simpl. by rewrite Hf.
Qed.

Lemma setMany_run (s : FastCache.t K V) (entries : list (K * V)) :
  FastCache.setMany s entries
    = (r ← LRU.run s ((λ e, LRU.OpSet e.1 e.2) <$> entries); Ok r.1).
Proof.
  unfold FastCache.setMany. revert s. induction entries as [|e es IH]; intros s; [done|].
  simpl. destruct (FastCache.set s e.1 e.2) as [s1| |] eqn:Hset; simpl.
  - rewrite IH. by destruct (LRU.run s1 _) as [[s2 os]| |].
  - apply foldl_not_ok; [done|]. by intros [a| |] b Hm; [destruct (Hm a)| |].
  - apply foldl_not_ok; [done|]. by intros [a| |] b Hm; [destruct (Hm a)| |].
Qed.

Lemma getMany_run `{!Undefinable V} (s : FastCache.t K V) (keys : list K) :
  (r ← FastCache.getMany s keys; Ok r.1)
    = (r ← LRU.run s (LRU.OpGet <$> keys); Ok r.1).
Proof.
  unfold FastCache.getMany. generalize (∅ : gmap K V). revert s.
  induction keys as [|k ks IH]; intros s m; [done|].
  simpl. destruct (FastCache.get s k) as [[s1 v]| |] eqn:Hget; simpl.
  - rewrite IH. by destruct (LRU.run s1 _) as [[s2 os]| |].
  - rewrite foldl_not_ok; [done|done|]. by intros [a| |] b Hm; [destruct (Hm a)| |].
  - rewrite foldl_not_ok; [done|done|]. by intros [a| |] b Hm; [destruct (Hm a)| |].
Qed.

Lemma ttl_setMany_run (c : FastCacheWithTTL.t K V) (entries : list (K * V * Z)) :
  FastCacheWithTTL.setMany c entries
    = (r ← TTL.run c ((λ e, TTL.OpSet e.1.1 e.1.2 e.2) <$> entries); Ok r.1).
Proof.
  unfold FastCacheWithTTL.setMany. revert c. induction entries as [|e es IH]; intros c; [done|].
  simpl. destruct (FastCacheWithTTL.set c e.1.1 e.1.2 e.2) as [c1| |] eqn:Hset; simpl.
  - rewrite IH. by destruct (TTL.run c1 _) as [[c2 os]| |].
  - apply foldl_not_ok; [done|]. by intros [a| |] b Hm; [destruct (Hm a)| |].
  - apply foldl_not_ok; [done|]. by intros [a| |] b Hm; [destruct (Hm a)| |].
Qed.

Lemma ttl_getMany_run `{!Undefinable V} (c : FastCacheWithTTL.t K V) (keys : list (K * Z)) :
  (r ← FastCacheWithTTL.getMany c keys; Ok r.1)
    = (r ← TTL.run c ((λ k, TTL.OpGet k.1 k.2) <$> keys); Ok r.1).
Proof.
  unfold FastCacheWithTTL.getMany. generalize (∅ : gmap K V). revert c.
  induction keys as [|k ks IH]; intros c m; [done|].
  simpl. destruct (FastCacheWithTTL.get c k.1 k.2) as [[c1 v]| |] eqn:Hget; simpl.
  - rewrite IH. by destruct (TTL.run c1 _) as [[c2 os]| |].
  - rewrite foldl_not_ok; [done|done|]. by intros [a| |] b Hm; [destruct (Hm a)| |].
  - rewrite foldl_not_ok; [done|done|]. by intros [a| |] b Hm; [destruct (Hm a)| |].
Qed.
End BatchCalls.

(** ** Numbers: integers and their quotients as doubles

    What [number_of_Z] and [number_div] give on the counters of [getStats]:
    an integer below [2^53] is held exactly, [0 / t] is [0] and [t / t] is
    [1]. *)

Section Numbers.

Lemma digits2_pos_iter_xO (p : positive) (n : positive) :
  SpecFloat.digits2_pos (Pos.iter xO p n) = (SpecFloat.digits2_pos p + n)%positive.
Proof.
  revert p. induction n as [|n IH] using Pos.peano_ind; intros p.
  - simpl. lia.
  - rewrite Pos.iter_succ. simpl. rewrite IH. lia.
Qed.

Lemma digits2_pos_bound (p : positive) :
  Z.pos p < 2 ^ 53 → Z.pos (SpecFloat.digits2_pos p) ≤ 53.
Proof.
  intros Hp.
  assert (Hgen : ∀ q : positive, 2 ^ (Z.pos (SpecFloat.digits2_pos q) - 1) ≤ Z.pos q).
  { induction q as [q IH|q IH|]; simpl SpecFloat.digits2_pos.
    - rewrite Pos2Z.inj_succ. replace (Z.succ (Z.pos (SpecFloat.digits2_pos q)) - 1)
        with (Z.succ (Z.pos (SpecFloat.digits2_pos q) - 1)) by lia.
      rewrite Z.pow_succ_r by lia. lia.
    - rewrite Pos2Z.inj_succ. replace (Z.succ (Z.pos (SpecFloat.digits2_pos q)) - 1)
        with (Z.succ (Z.pos (SpecFloat.digits2_pos q) - 1)) by lia.
      rewrite Z.pow_succ_r by lia. lia.
    - simpl. lia. }
  specialize (Hgen p).
  destruct (Z.le_gt_cases (Z.pos (SpecFloat.digits2_pos p)) 53) as [|Hgt]; [done|].
  assert (2 ^ 53 ≤ 2 ^ (Z.pos (SpecFloat.digits2_pos p) - 1))
    by (apply Z.pow_le_mono_r; lia).
  lia.
Qed.

(** A positive integer below [2^53] is a double with a mantissa of 53 bits
    and no rounding. *)
Lemma number_of_Z_exact (p : positive) :
  Z.pos p < 2 ^ 53 →
  ∃ m e, number_of_Z (Z.pos p) = SpecFloat.S754_finite false m e ∧
         Z.pos (SpecFloat.digits2_pos m) = 53 ∧ -52 ≤ e ≤ 0.
Proof.
  intros Hp. pose proof (digits2_pos_bound p Hp) as Hd.
  unfold number_of_Z, SpecFloat.binary_normalize, SpecFloat.binary_round.
  set (d := SpecFloat.digits2_pos p) in *.
  assert (Hfexp : SpecFloat.fexp 53 1024 (Z.pos d + 0) = Z.pos d - 53).
  { unfold SpecFloat.fexp, SpecFloat.emin. lia. }
  rewrite Hfexp. unfold SpecFloat.shl_align.
  assert (Haux : ∀ mz ez, Z.pos (SpecFloat.digits2_pos mz) = 53 → -52 ≤ ez ≤ 0 →
            SpecFloat.binary_round_aux 53 1024 false (Z.pos mz) ez SpecFloat.loc_Exact
            = SpecFloat.S754_finite false mz ez).
  { intros mz ez Hmz Hez. unfold SpecFloat.binary_round_aux, SpecFloat.shr_fexp.
    simpl SpecFloat.Zdigits2. rewrite Hmz.
    assert (SpecFloat.fexp 53 1024 (53 + ez) - ez = 0) as ->
      by (unfold SpecFloat.fexp, SpecFloat.emin; lia).
    simpl. rewrite Hmz.
    assert (SpecFloat.fexp 53 1024 (53 + ez) - ez = 0) as ->
      by (unfold SpecFloat.fexp, SpecFloat.emin; lia).
    cbn. change (1024 - 53) with 971.
    by rewrite (proj2 (Z.leb_le ez 971)) by lia. }
  destruct (Z.pos d - 53 - 0) as [|q|q] eqn:Hs.
  - exists p, 0. rewrite Haux; [|fold d; lia|lia]. split; [done|]. fold d. lia.
  - lia.
  - exists (Pos.iter xO p q), (Z.pos d - 53).
    assert (Hdig : Z.pos (SpecFloat.digits2_pos (Pos.iter xO p q)) = 53).
    { rewrite digits2_pos_iter_xO. fold d. lia. }
    rewrite Haux; [|done|lia]. split; [done|]. split; [done|lia].
Qed.

(** No hit among the calls counted: the rate is [0]. *)
Lemma number_div_zero (t : Z) :
  0 < t < 2 ^ 53 → number_div (number_of_Z 0) (number_of_Z t) = SpecFloat.S754_zero false.
Proof.
  intros Ht. destruct t as [|p|p]; try lia.
  destruct (number_of_Z_exact p) as (m & e & -> & _); [lia|]. done.
Qed.

(** No miss among the calls counted: the rate is [1]. *)
Lemma number_div_same (t : Z) :
  0 < t < 2 ^ 53 → number_div (number_of_Z t) (number_of_Z t) = number_of_Z 1.
Proof.
  intros Ht. destruct t as [|p|p]; try lia.
  destruct (number_of_Z_exact p) as (m & e & -> & Hm & He); [lia|].
  unfold number_div, SpecFloat.SFdiv, SpecFloat.SFdiv_core_binary.
  simpl SpecFloat.Zdigits2.
  assert (SpecFloat.fexp 53 1024 (Z.pos (SpecFloat.digits2_pos m) + e
                                   - (Z.pos (SpecFloat.digits2_pos m) + e)) = -53) as ->.
  { rewrite Z.sub_diag. reflexivity. }
  rewrite Z.sub_diag. change (Z.min (-53) 0) with (-53). change (0 - -53) with 53.
  cbv iota beta.
  assert (Z.div_eucl (Z.shiftl (Z.pos m) 53) (Z.pos m) = (2 ^ 53, 0)) as ->.
  { rewrite Z.shiftl_mul_pow2 by lia.
    pose proof (Z.div_eucl_eq (Z.pos m * 2 ^ 53) (Z.pos m) ltac:(lia)) as Heq.
    pose proof (Z.mod_pos_bound (Z.pos m * 2 ^ 53) (Z.pos m) ltac:(lia)) as Hb.
    unfold Z.modulo, Z.div in *.
    destruct (Z.div_eucl (Z.pos m * 2 ^ 53) (Z.pos m)) as [q r]. simpl in *.
    assert (r = 0 ∧ q = 2 ^ 53) as [-> ->]; [|done].
    assert (Hr : r = Z.pos m * (2 ^ 53 - q)) by lia.
    assert (2 ^ 53 - q = 0) by nia. split; nia. }
  unfold SpecFloat.new_location, SpecFloat.new_location_even, SpecFloat.new_location_odd.
  simpl (0 =? 0). destruct (Z.even (Z.pos m)); reflexivity.
Qed.
End Numbers.

(** * The properties of the specification *)

(** What does hold of the two lists in every state a client can reach: the
    nodes of the recency list are exactly the nodes of the index, and each of
    them is in the time list. *)
Lemma index_nodes_in_both_lists `{Countable K} {V : Type}
    (options : CacheOptions) (c : FastCacheWithTTL.t K V) :
  TTL.reachable options c →
  ∃ l tl,
    FastCacheWithTTL.lru_list c = Some l ∧ FastCacheWithTTL.time_list c = Some tl ∧
    (∀ p, p ∈ l ↔ ∃ k, FastCacheWithTTL.cache c !! k = Some p) ∧
    (∀ p, p ∈ l → p ∈ tl).
Proof.
  intros Hreach.
  destruct (ttl_reachable_inv options c Hreach) as (l & tl & Hinv & _).
  destruct (InvT_lists c l tl Hinv) as [Hl Htl].
  exists l, tl. split; [done|]. split; [done|]. split; [|apply Hinv].
  intros p. split.
  - intros Hp. destruct (invl_live _ _ (invt_base _ _ _ Hinv) p Hp) as (k & _ & Hk).
    by exists k.
  - intros [k Hk]. by destruct (invl_idx _ _ (invt_base _ _ _ Hinv) k p Hk).
Qed.

(** C1, at its failing input.  A TTL cache with [maxSize = 2] and
    [ttl = 60000] after [set(a); set(b); set(c)]: the third call evicts the
    node of [a] from the index and from the recency list ([removeTail] of the
    core), and the node is still linked in the time list. *)
Theorem C1_evicted_node_stays_in_time_list :
  returns (c0 ← FastCacheWithTTL.new (K:=string) (V:=Z) (mkOptions 2 (Some 60000) None None);
           TTL.run c0 [TTL.OpSet "a" 1 0; TTL.OpSet "b" 2 1; TTL.OpSet "c" 3 2])
    (λ '(c, _),
       FastCacheWithTTL.cache c !! "a" = None ∧
       FastCacheWithTTL.has c "a" 3 = (c, false) ∧
       FastCacheWithTTL.size c = 2 ∧
       FastCacheWithTTL.lru_keys c = Some [Some "c"; Some "b"] ∧
       FastCacheWithTTL.time_keys c = Some [Some "a"; Some "b"; Some "c"] ∧
       FastCacheWithTTL.lru_list c = Some [6; 5]%nat ∧
       FastCacheWithTTL.time_list c = Some [4; 5; 6]%nat).
Proof. vm_compute. repeat apply conj; reflexivity. Qed.

(** C2 (capacity invariant).  For every capacity [c > 0] and every sequence of
    calls on a fresh [FastCache] (sequences of [set] among them), the calls all
    return and leave [size ≤ capacity = c], with the recency list holding the
    keys in the order of their last use.  In such a state with [size = c], a
    [set] of a key that is not in the index takes out exactly the node next to
    the tail sentinel of the recency list (the least recently used one), under
    its own key, and puts the new node at the head: the index loses that one
    key and gains the new one, and the size is [c] again.  A [set] of a key
    that is in the index leaves the index as it is (nothing is evicted) and
    moves the node of the key to the head. *)
Theorem C2_capacity_invariant `{Countable K} {V : Type}
    (c : Z) (ops : list (LRU.Op K V)) :
  0 < c →
  ∃ s outs,
    (s0 ← FastCache.new c; LRU.run s0 ops) = Ok (s, outs) ∧
    FastCache.capacity s = c ∧ FastCache.size s ≤ c ∧
    FastCache.lru_keys s = Some (Some <$> LRU.spec_run c ops) ∧
    ∀ k v,
      (FastCache.cache s !! k = None → FastCache.size s = c →
       ∃ s' l0 x kx,
         FastCache.set s k v = Ok s' ∧
         FastCache.lru_list s = Some (l0 ++ [x]) ∧
         key (FastCache.heap s x) = Some kx ∧ FastCache.cache s !! kx = Some x ∧
         FastCache.cache s' = <[k := FastCache.nextptr s]> (delete kx (FastCache.cache s)) ∧
         FastCache.lru_list s' = Some (FastCache.nextptr s :: l0) ∧
         FastCache.size s' = c) ∧
      (∀ p, FastCache.cache s !! k = Some p →
       ∃ s' l,
         FastCache.set s k v = Ok s' ∧
         FastCache.lru_list s = Some l ∧
         FastCache.cache s' = FastCache.cache s ∧
         FastCache.lru_list s' = Some (p :: without p l) ∧
         FastCache.size s' = FastCache.size s).
Proof.
  intros Hc.
  destruct (new_spec (K:=K) (V:=V) c Hc) as (s0 & Hnew & Hinv0 & Hmax0 & _).
  destruct (lru_run_inv s0 [] ops Hinv0) as (s & outs & l & Hrun & Hinv & Hmax & _).
  exists s, outs. rewrite Hnew. simpl. split; [exact Hrun|].
  unfold FastCache.capacity, FastCache.size.
  split; [congruence|]. split; [rewrite <- Hmax0, <- Hmax; apply Hinv|].
  split.
  { destruct (lru_refines_policy (K:=K) (V:=V) c ops Hc) as (s' & outs' & Hrun' & Hks).
    rewrite Hnew in Hrun'. simpl in Hrun'. rewrite Hrun in Hrun'.
    by injection Hrun' as <- <-. }
  intros k v. split.
  - intros Hk Hfull.
    destruct (set_new s l k v Hinv Hk)
      as (s' & Hset & _ & _ & _ & _ & _ & _ & _ & _ & _ & Hcases).
    destruct Hcases as [(Hlt & _)|(_ & l0 & x & kx & -> & Hkx & Hcx & Hc' & Hinv')]; [lia|].
    exists s', l0, x, kx. split; [done|].
    split; [by apply InvL_lru_list|]. split; [done|]. split; [done|]. split; [done|].
    split; [by apply InvL_lru_list|].
    rewrite Hc'. rewrite map_size_insert_None.
    + rewrite map_size_delete_Some by (by eexists).
      assert (size (FastCache.cache s) ≠ 0%nat)
        by (apply map_size_ne_0_lookup_2 with kx; by eexists). lia.
    + rewrite lookup_delete_ne; [done|]. intros ->. congruence.
  - intros p Hk.
    destruct (set_existing s l k v p Hinv Hk) as (h' & Hset & Hinv' & _).
    exists (FastCache.with_heap s h'), l. split; [done|].
    split; [by apply InvL_lru_list|]. split; [done|].
    split; [by apply InvL_lru_list|done].
Qed.

Lemma C2_capacity_invariant_witness :
  0 < 2 ∧
  ∃ (s : FastCache.t string Z) outs,
    (s0 ← FastCache.new 2;
     LRU.run s0 [LRU.OpSet "a" 1; LRU.OpSet "b" 2; LRU.OpSet "c" 3]) = Ok (s, outs) ∧
    FastCache.size s ≤ 2.
Proof.
  split; [lia|].
  destruct (C2_capacity_invariant (K:=string) (V:=Z) 2
              [LRU.OpSet "a" 1; LRU.OpSet "b" 2; LRU.OpSet "c" 3] ltac:(lia))
    as (s & outs & Hrun & _ & Hsz & _).
  exists s, outs. split; [exact Hrun|exact Hsz].
Defined.

(** C3 (lazy expiration on get).  On a TTL cache made with [ttl = t], in any
    state a client can reach, take a key [k] of the index and its node [p]; the
    node carries a stamp [ts] and sits in both lists.  If [now - ts > t],
    [get k] at time [now] returns nothing, the key leaves the index (the size
    goes down by one), the node leaves the recency list and the time list, and
    [misses] and [expired] each go up by exactly one while [hits] stays.
    Otherwise [get k] returns the stored value and only [hits] goes up, by
    one. *)
Theorem C3_lazy_expiration_on_get `{Countable K} {V : Type}
    (options : CacheOptions) (t : Z) (c : FastCacheWithTTL.t K V)
    (k : K) (p : ptr) (now : Z) :
  TTL.reachable options c → opt_ttl options = Some t →
  FastCacheWithTTL.cache c !! k = Some p →
  ∃ ts l tl,
    timestamp (FastCacheWithTTL.heap c p) = Some ts ∧
    FastCacheWithTTL.lru_list c = Some l ∧ FastCacheWithTTL.time_list c = Some tl ∧
    p ∈ l ∧ p ∈ tl ∧
    (now - ts > t →
     ∃ c', FastCacheWithTTL.get c k now = Ok (c', None) ∧
           FastCacheWithTTL.cache c' = delete k (FastCacheWithTTL.cache c) ∧
           FastCacheWithTTL.lru_list c' = Some (without p l) ∧
           FastCacheWithTTL.time_list c' = Some (without p tl) ∧
           FastCacheWithTTL.size c' = FastCacheWithTTL.size c - 1 ∧
           stats c' = (FastCache.hits (FastCacheWithTTL.base c),
                       FastCache.misses (FastCacheWithTTL.base c) + 1,
                       FastCacheWithTTL.expired c + 1)) ∧
    (now - ts ≤ t →
     ∃ c' v, FastCacheWithTTL.get c k now = Ok (c', Some v) ∧
             value (FastCacheWithTTL.heap c p) = Some v ∧
             FastCacheWithTTL.cache c' = FastCacheWithTTL.cache c ∧
             stats c' = (FastCache.hits (FastCacheWithTTL.base c) + 1,
                         FastCache.misses (FastCacheWithTTL.base c),
                         FastCacheWithTTL.expired c)).
Proof.
  intros Hreach Ht Hk.
  destruct (ttl_reachable_inv options c Hreach) as (l & tl & Hinv & _).
  destruct (ttl_reachable_ttl options c t Hreach Ht) as [Httl Hpos].
  destruct (InvT_lists c l tl Hinv) as [Hl Htl].
  destruct (invl_idx _ _ (invt_base _ _ _ Hinv) k p Hk) as [Hp _].
  destruct (invt_ts _ _ _ Hinv p Hp) as [ts Hts].
  exists ts, l, tl. split; [done|]. split; [done|]. split; [done|].
  split; [done|]. split; [by apply (invt_sub _ _ _ Hinv)|].
  pose proof (isExpired_stamped c p now ts ltac:(lia) Hts) as Hexp. rewrite Httl in Hexp.
  split.
  - intros Hold. rewrite (proj2 (Z.gtb_gt _ _)) in Hexp by lia.
    destruct (ttl_get_expired c l tl k p now Hinv Hk Hexp)
      as (c' & Hget & Hinv' & Hc' & Hst & _).
    destruct (InvT_lists c' _ _ Hinv') as [Hl' Htl'].
    exists c'. split; [done|]. split; [done|]. split; [done|]. split; [done|].
    split; [|done]. unfold FastCacheWithTTL.size. rewrite Hc'.
    rewrite map_size_delete_Some by (by eexists).
    assert (size (FastCacheWithTTL.cache c) ≠ 0%nat)
      by (apply map_size_ne_0_lookup_2 with k; by eexists). lia.
  - intros Hyoung.
    assert (Hexp' : FastCacheWithTTL.isExpired c p now = false).
    { rewrite Hexp. rewrite Z.gtb_ltb. apply Z.ltb_ge. lia. }
    destruct (ttl_get_live c l tl k p now Hinv Hk Hexp')
      as (c' & v & Hget & Hv & _ & Hc' & Hst & _).
    exists c', v. done.
Qed.

Lemma C3_lazy_expiration_on_get_witness :
  ∃ c : FastCacheWithTTL.t string Z,
    TTL.reachable (mkOptions 3 (Some 100) None None) c ∧
    opt_ttl (mkOptions 3 (Some 100) None None) = Some 100 ∧
    FastCacheWithTTL.cache c !! "x" = Some 4%nat ∧
    ∃ ts, timestamp (FastCacheWithTTL.heap c 4%nat) = Some ts ∧
          (150 - ts > 100 → ∃ c', FastCacheWithTTL.get c "x" 150 = Ok (c', None)).
Proof.
  assert (Hr : returns (c0 ← FastCacheWithTTL.new (K:=string) (V:=Z)
                               (mkOptions 3 (Some 100) None None);
                        TTL.run c0 [TTL.OpSet "x" 1 0])
                 (λ '(c, _), FastCacheWithTTL.cache c !! "x" = Some 4%nat))
    by (vm_compute; done).
  destruct (proj1 (returns_ex _ _) Hr) as ([c outs] & Hrun & Hk).
  apply ttl_reachable_intro in Hrun.
  exists c. split; [exact Hrun|]. split; [reflexivity|]. split; [exact Hk|].
  destruct (C3_lazy_expiration_on_get _ 100 c "x" 4%nat 150 Hrun eq_refl Hk)
    as (ts & l & tl & Hts & _ & _ & _ & _ & Hold & _).
  exists ts. split; [exact Hts|]. intros Hgt.
  destruct (Hold Hgt) as (c' & Hget & _). by exists c'.
Defined.

(** C4, at its failing input.  Active cleanup asked for with a cleanup
    interval of [0]: the constructor returns a cache, with a timer of interval
    [0] started. *)
Theorem C4_zero_cleanup_interval_accepted :
  returns (FastCacheWithTTL.new (K:=string) (V:=Z)
             (mkOptions 2 (Some 1000) (Some true) (Some 0)))
    (λ c, FastCacheWithTTL.cleanupTimer c = Some 0 ∧
          FastCacheWithTTL.autoCleanup c = true).
Proof. vm_compute. split; reflexivity. Qed.

Section CleanupStuck.
Context `{Countable K} {V : Type}.

(** When the node at the head of the time list has expired and its key is not
    in the index, [delete] does nothing and the loop of [cleanup] reads the
    same head again, whatever the budget. *)
Lemma cleanup_loop_stuck (c : FastCacheWithTTL.t K V) (now : Z) (p : ptr) (k : K) :
  timeNext (FastCacheWithTTL.heap c (FastCacheWithTTL.timeHead c)) = Some p →
  p ≠ FastCacheWithTTL.timeTail c →
  FastCacheWithTTL.isExpired c p now = true →
  key (FastCacheWithTTL.heap c p) = Some k →
  FastCacheWithTTL.cache c !! k = None →
  ∀ fuel e n,
    FastCacheWithTTL.cleanup_loop fuel (FastCacheWithTTL.with_expired c e) now n (Some p)
      = OutOfFuel.
Proof.
  intros Hhead Hne Hexp Hkey Hk fuel. induction fuel as [|fuel IH]; intros e n; [done|].
  simpl. rewrite decide_False by done.
  change (FastCacheWithTTL.isExpired (FastCacheWithTTL.with_expired c e) p now)
    with (FastCacheWithTTL.isExpired c p now). rewrite Hexp.
  change (FastCacheWithTTL.heap (FastCacheWithTTL.with_expired c e))
    with (FastCacheWithTTL.heap c). rewrite Hkey. simpl.
  unfold FastCacheWithTTL.delete.
  change (FastCacheWithTTL.cache (FastCacheWithTTL.with_expired c e))
    with (FastCacheWithTTL.cache c). rewrite Hk. simpl.
  change (FastCacheWithTTL.heap
            (FastCacheWithTTL.with_expired (FastCacheWithTTL.with_expired c e) (e + 1)))
    with (FastCacheWithTTL.heap c). rewrite Hhead.
  apply (IH (e + 1) (n + 1)).
Qed.
End CleanupStuck.

(** C5, at its failing input.  A TTL cache with [maxSize = 1] and [ttl = 100]
    after [set(a)] at time 0 and [set(b)] at time 1: the node of [a] was
    evicted by the second call and is still the head of the time list.
    [cleanup] at time 200 finds it expired, deletes the key [a] (which is not
    in the index, so nothing changes) and looks at the head of the time list
    again: the call does not return, whatever the number of iterations it is
    given, and the expired entry [b] stays in the cache. *)
Theorem C5_cleanup_never_returns :
  returns (c0 ← FastCacheWithTTL.new (K:=string) (V:=Z) (mkOptions 1 (Some 100) None None);
           TTL.run c0 [TTL.OpSet "a" 1 0; TTL.OpSet "b" 2 1])
    (λ '(c, _),
       FastCacheWithTTL.time_keys c = Some [Some "a"; Some "b"] ∧
       FastCacheWithTTL.lru_keys c = Some [Some "b"] ∧
       FastCacheWithTTL.cache c !! "a" = None ∧
       ∀ fuel, FastCacheWithTTL.cleanup fuel c 200 = OutOfFuel).
Proof.
  assert (Hr : returns (c0 ← FastCacheWithTTL.new (K:=string) (V:=Z)
                               (mkOptions 1 (Some 100) None None);
                        TTL.run c0 [TTL.OpSet "a" 1 0; TTL.OpSet "b" 2 1])
    (λ '(c, _),
       (FastCacheWithTTL.time_keys c = Some [Some "a"; Some "b"] ∧
        FastCacheWithTTL.lru_keys c = Some [Some "b"] ∧
        FastCacheWithTTL.cache c !! "a" = None) ∧
       (FastCacheWithTTL.ttl c =? 0) = false ∧
       timeNext (FastCacheWithTTL.heap c (FastCacheWithTTL.timeHead c)) = Some 4%nat ∧
       FastCacheWithTTL.timeTail c = 3%nat ∧
       FastCacheWithTTL.isExpired c 4%nat 200 = true ∧
       key (FastCacheWithTTL.heap c 4%nat) = Some "a")).
  { vm_compute. repeat apply conj; reflexivity. }
  destruct (proj1 (returns_ex _ _) Hr)
    as ([c outs] & Hrun & (Htk & Hlk & Hk) & Httl & Hhead & Htail & Hexp & Hkey).
  refine (proj2 (returns_ex _ _) _). exists (c, outs). split; [exact Hrun|].
  split; [exact Htk|]. split; [exact Hlk|]. split; [exact Hk|].
  intros fuel. unfold FastCacheWithTTL.cleanup. rewrite Httl, Hhead.
  assert (Hne : 4%nat ≠ FastCacheWithTTL.timeTail c) by (rewrite Htail; lia).
  pose proof (cleanup_loop_stuck c 200 4%nat "a" Hhead Hne Hexp Hkey Hk fuel
                (FastCacheWithTTL.expired c) 0) as Hstuck.
  destruct c. exact Hstuck.
Qed.

(** The scenario of C6, evaluated. *)
Lemma C6_scenario {V : Type} (a b c d : V) :
  returns (s0 ← FastCache.new (K:=string) 3;
           LRU.run s0 [LRU.OpSet "A" a; LRU.OpSet "B" b; LRU.OpSet "C" c; LRU.OpGet "A"])
    (λ '(s4, outs),
       outs = [LRU.RSet; LRU.RSet; LRU.RSet; LRU.RGet (Some a)] ∧
       FastCache.lru_keys s4 = Some [Some "A"; Some "C"; Some "B"] ∧
       FastCache.has s4 "B" = true ∧
       returns (FastCache.set s4 "D" d)
         (λ s5,
            FastCache.has s5 "B" = false ∧
            FastCache.has s5 "A" = true ∧ FastCache.has s5 "C" = true ∧
            FastCache.has s5 "D" = true ∧
            dom (FastCache.cache s5) = {["A"; "C"; "D"]} ∧
            FastCache.size s5 = 3 ∧
            FastCache.lru_keys s5 = Some [Some "D"; Some "A"; Some "C"])).
Proof.
  vm_compute. repeat apply conj; reflexivity.
Qed.

(** C6 (LRU eviction order).  On a [FastCache] of capacity 3, after
    [set(A); set(B); set(C); get(A)] the call [set(D)] evicts [B]: [B] is in the
    index before the call and not after it, the keys of the index are then
    exactly [A], [C] and [D], and the recency list reads [D, A, C] from head to
    tail. *)
Theorem C6_lru_eviction_order {V : Type} (a b c d : V) :
  ∃ s4 s5 : FastCache.t string V,
    (s0 ← FastCache.new 3;
     LRU.run s0 [LRU.OpSet "A" a; LRU.OpSet "B" b; LRU.OpSet "C" c; LRU.OpGet "A"])
      = Ok (s4, [LRU.RSet; LRU.RSet; LRU.RSet; LRU.RGet (Some a)]) ∧
    FastCache.set s4 "D" d = Ok s5 ∧
    FastCache.lru_keys s4 = Some [Some "A"; Some "C"; Some "B"] ∧
    FastCache.has s4 "B" = true ∧
    FastCache.has s5 "B" = false ∧
    FastCache.has s5 "A" = true ∧ FastCache.has s5 "C" = true ∧
    FastCache.has s5 "D" = true ∧
    dom (FastCache.cache s5) = {["A"; "C"; "D"]} ∧
    FastCache.size s5 = 3 ∧
    FastCache.lru_keys s5 = Some [Some "D"; Some "A"; Some "C"].
Proof.
  destruct (proj1 (returns_ex _ _) (C6_scenario a b c d))
    as ([s4 outs] & Hrun & -> & Hk4 & HB & Hset).
  destruct (proj1 (returns_ex _ _) Hset) as (s5 & Hset5 & Hrest).
  exists s4, s5. split; [exact Hrun|]. split; [exact Hset5|].
  split; [exact Hk4|]. split; [exact HB|]. exact Hrest.
Qed.

(** C7 (TTL refresh on overwrite).  On a TTL cache made with [ttl = t], in any
    state a client can reach, [set] of a key that is in the index writes the
    new value into the node of the key, stamps the node with the clock reading
    of the call and moves it to the tail of the time list; from then on the
    node expires by that reading alone.  So with [ttl = 100] an entry set at
    [T0] and set again at [T0 + 80] is returned by [get] at [T0 + 130] and is
    gone for [get] at [T0 + 181] (without the second [set] it is gone at
    [T0 + 130] already). *)
Theorem C7_ttl_refresh_on_overwrite `{Countable K} {V : Type} :
  (∀ (options : CacheOptions) (t : Z) (c : FastCacheWithTTL.t K V)
     (k : K) (p : ptr) (v : V) (now : Z),
     TTL.reachable options c → opt_ttl options = Some t →
     FastCacheWithTTL.cache c !! k = Some p →
     ∃ c' tl,
       FastCacheWithTTL.set c k v now = Ok c' ∧
       FastCacheWithTTL.cache c' !! k = Some p ∧
       FastCacheWithTTL.time_list c = Some tl ∧
       FastCacheWithTTL.time_list c' = Some (without p tl ++ [p]) ∧
       node_data (FastCacheWithTTL.heap c') p = (Some k, Some v, Some now) ∧
       (∀ now', FastCacheWithTTL.isExpired c' p now' = (now' - now >? t))) ∧
  (∀ (maxSize T0 : Z) (k : K) (v1 v2 : V),
     0 < maxSize →
     ∃ c0 c1 c2 : FastCacheWithTTL.t K V,
       FastCacheWithTTL.new (mkOptions maxSize (Some 100) None None) = Ok c0 ∧
       FastCacheWithTTL.set c0 k v1 T0 = Ok c1 ∧
       FastCacheWithTTL.set c1 k v2 (T0 + 80) = Ok c2 ∧
       (∃ c3, FastCacheWithTTL.get c2 k (T0 + 130) = Ok (c3, Some v2)) ∧
       (∃ c4, FastCacheWithTTL.get c2 k (T0 + 181) = Ok (c4, None)) ∧
       FastCacheWithTTL.has c2 k (T0 + 130) = (c2, true) ∧
       (FastCacheWithTTL.has c2 k (T0 + 181)).2 = false ∧
       (∃ c5, FastCacheWithTTL.get c1 k (T0 + 130) = Ok (c5, None))).
Proof.
  assert (Hgen : ∀ (options : CacheOptions) (t : Z) (c : FastCacheWithTTL.t K V)
     (k : K) (p : ptr) (v : V) (now : Z),
     TTL.reachable options c → opt_ttl options = Some t →
     FastCacheWithTTL.cache c !! k = Some p →
     ∃ c' tl,
       FastCacheWithTTL.set c k v now = Ok c' ∧
       FastCacheWithTTL.cache c' !! k = Some p ∧
       FastCacheWithTTL.time_list c = Some tl ∧
       FastCacheWithTTL.time_list c' = Some (without p tl ++ [p]) ∧
       node_data (FastCacheWithTTL.heap c') p = (Some k, Some v, Some now) ∧
       (∀ now', FastCacheWithTTL.isExpired c' p now' = (now' - now >? t))).
  { intros options t c k p v now Hreach Ht Hk.
    destruct (ttl_reachable_inv options c Hreach) as (l & tl & Hinv & _).
    destruct (ttl_reachable_ttl options c t Hreach Ht) as [Httl Hpos].
    destruct (InvT_lists c l tl Hinv) as [_ Htl].
    destruct (ttl_set_existing c l tl k v p now Hinv Hk)
      as (c' & Hset & Hinv' & Hc' & _ & Hcf & Hnd & _).
    destruct (InvT_lists c' _ _ Hinv') as [_ Htl'].
    rewrite Httl, (proj2 (Z.gtb_gt t 0)) in Hnd by lia.
    assert (Httl' : FastCacheWithTTL.ttl c' = t).
    { unfold config in Hcf. injection Hcf as -> _. done. }
    exists c', tl. split; [done|]. split; [by rewrite Hc'|]. split; [done|].
    split; [done|]. split; [done|].
    intros now'. rewrite <- Httl'. apply isExpired_stamped; [lia|].
    unfold node_data in Hnd. by injection Hnd. }
  split; [exact Hgen|].
  intros maxSize T0 k v1 v2 Hmax.
  set (options := mkOptions maxSize (Some 100) None None).
  destruct (proj2 (ttl_new_ok_iff (K:=K) (V:=V) options)) as [c0 Hnew].
  { split; [done|]. simpl. intros t [= <-]. lia. }
  destruct (ttl_new_spec options c0 Hnew) as (Hinv0 & _ & Hc0 & Hcf0).
  assert (Hk0 : FastCacheWithTTL.cache c0 !! k = None) by (by rewrite Hc0).
  assert (Httl0 : FastCacheWithTTL.ttl c0 = 100).
  { unfold config in Hcf0. by injection Hcf0. }
  destruct (ttl_set_new c0 [] [] k v1 T0 Hinv0 Hk0)
    as (c1 & Hset1 & _ & Hcf1 & Hnd1 & _ & Hcases).
  rewrite Httl0 in Hnd1. simpl in Hnd1.
  set (p := FastCache.nextptr (FastCacheWithTTL.base c0)) in *.
  assert (Hk1 : FastCacheWithTTL.cache c1 !! k = Some p).
  { destruct Hcases as [(_ & -> & _)|(_ & l0 & x & kx & _ & _ & _ & -> & _)];
      by rewrite lookup_insert_eq. }
  assert (Hreach1 : TTL.reachable options c1).
  { exists c0, [TTL.OpSet k v1 T0], [TTL.RSet]. split; [done|]. simpl. by rewrite Hset1. }
  destruct (ttl_reachable_inv options c1 Hreach1) as (l1 & tl1 & Hinv1 & _).
  destruct (Hgen options 100 c1 k p v2 (T0 + 80) Hreach1 eq_refl Hk1)
    as (c2 & tl & Hset2 & Hk2 & _ & _ & Hnd2 & Hexp2).
  assert (Hreach2 : TTL.reachable options c2).
  { exists c0, [TTL.OpSet k v1 T0; TTL.OpSet k v2 (T0 + 80)], [TTL.RSet; TTL.RSet].
    split; [done|]. simpl. rewrite Hset1. simpl. by rewrite Hset2. }
  destruct (ttl_reachable_inv options c2 Hreach2) as (l2 & tl2 & Hinv2 & _).
  assert (Hlive : FastCacheWithTTL.isExpired c2 p (T0 + 130) = false).
  { rewrite Hexp2. rewrite Z.gtb_ltb. apply Z.ltb_ge. lia. }
  assert (Hdead : FastCacheWithTTL.isExpired c2 p (T0 + 181) = true).
  { rewrite Hexp2. apply Z.gtb_gt. lia. }
  assert (Hdead1 : FastCacheWithTTL.isExpired c1 p (T0 + 130) = true).
  { rewrite (isExpired_stamped c1 p _ T0).
    - unfold config in Hcf1. injection Hcf1 as -> _. rewrite Httl0. apply Z.gtb_gt. lia.
    - unfold config in Hcf1. injection Hcf1 as -> _. lia.
    - unfold node_data in Hnd1. by injection Hnd1. }
  exists c0, c1, c2. split; [done|]. split; [done|]. split; [done|].
  split; [|split; [|split; [|split]]].
  - destruct (ttl_get_live c2 l2 tl2 k p (T0 + 130) Hinv2 Hk2 Hlive)
      as (c3 & v & Hget & Hv & _).
    exists c3. rewrite Hget. unfold node_data in Hnd2. injection Hnd2 as _ Hv2 _.
    congruence.
  - destruct (ttl_get_expired c2 l2 tl2 k p (T0 + 181) Hinv2 Hk2 Hdead) as (c4 & Hget & _).
    by exists c4.
  - by apply (ttl_has_live c2 k p).
  - destruct (ttl_has_expired c2 l2 tl2 k p (T0 + 181) Hinv2 Hk2 Hdead) as (c4 & -> & _).
    done.
  - destruct (ttl_get_expired c1 l1 tl1 k p (T0 + 130) Hinv1 Hk1 Hdead1) as (c5 & Hget & _).
    by exists c5.
Qed.

Lemma C7_ttl_refresh_on_overwrite_witness :
  (∃ c : FastCacheWithTTL.t string Z,
     TTL.reachable (mkOptions 2 (Some 100) None None) c ∧
     FastCacheWithTTL.cache c !! "x" = Some 4%nat ∧
     ∃ c', FastCacheWithTTL.set c "x" 10 80 = Ok c' ∧
           ∀ now', FastCacheWithTTL.isExpired c' 4%nat now' = (now' - 80 >? 100)) ∧
  (0 < 3 ∧
   ∃ c2 c3 : FastCacheWithTTL.t string Z,
     FastCacheWithTTL.get c2 "x" (1000 + 130) = Ok (c3, Some 10)).
Proof.
  split.
  - assert (Hr : returns (c0 ← FastCacheWithTTL.new (K:=string) (V:=Z)
                                 (mkOptions 2 (Some 100) None None);
                          TTL.run c0 [TTL.OpSet "x" 1 0])
                   (λ '(c, _), FastCacheWithTTL.cache c !! "x" = Some 4%nat))
      by (vm_compute; done).
    destruct (proj1 (returns_ex _ _) Hr) as ([c outs] & Hrun & Hk).
    apply ttl_reachable_intro in Hrun.
    exists c. split; [exact Hrun|]. split; [exact Hk|].
    destruct (proj1 (C7_ttl_refresh_on_overwrite (K:=string) (V:=Z))
                _ 100 c "x" 4%nat 10 80 Hrun eq_refl Hk)
      as (c' & tl & Hset & _ & _ & _ & _ & Hexp).
    exists c'. split; [exact Hset|exact Hexp].
  - split; [lia|].
    destruct (proj2 (C7_ttl_refresh_on_overwrite (K:=string) (V:=Z))
                3 1000 "x" 1 10 ltac:(lia))
      as (c0 & c1 & c2 & _ & _ & _ & [c3 Hget] & _).
    exists c2, c3. exact Hget.
Defined.

(** C8 (get never renews the TTL).  On a TTL cache, in any state a client can
    reach, [get] of a key of the index whose node has not expired returns the
    stored value, leaves the stamp of every node and the whole time list as
    they are (so the node expires when it would have without the call), moves
    the node to the head of the recency list and adds one to [hits] only. *)
Theorem C8_get_never_renews_ttl `{Countable K} {V : Type}
    (options : CacheOptions) (c : FastCacheWithTTL.t K V) (k : K) (p : ptr) (now : Z) :
  TTL.reachable options c →
  FastCacheWithTTL.cache c !! k = Some p →
  FastCacheWithTTL.isExpired c p now = false →
  ∃ c' v l tl,
    FastCacheWithTTL.get c k now = Ok (c', Some v) ∧
    value (FastCacheWithTTL.heap c p) = Some v ∧
    FastCacheWithTTL.lru_list c = Some l ∧ FastCacheWithTTL.time_list c = Some tl ∧
    (∀ q, timestamp (FastCacheWithTTL.heap c' q) = timestamp (FastCacheWithTTL.heap c q)) ∧
    FastCacheWithTTL.time_list c' = Some tl ∧
    (∀ now', FastCacheWithTTL.isExpired c' p now' = FastCacheWithTTL.isExpired c p now') ∧
    FastCacheWithTTL.lru_list c' = Some (p :: without p l) ∧
    stats c' = (FastCache.hits (FastCacheWithTTL.base c) + 1,
                FastCache.misses (FastCacheWithTTL.base c),
                FastCacheWithTTL.expired c).
Proof.
  intros Hreach Hk Hexp.
  destruct (ttl_reachable_inv options c Hreach) as (l & tl & Hinv & _).
  destruct (InvT_lists c l tl Hinv) as [Hl Htl].
  destruct (ttl_get_live c l tl k p now Hinv Hk Hexp)
    as (c' & v & Hget & Hv & Hinv' & Hc' & Hst & Hcf & Hnd).
  destruct (InvT_lists c' _ _ Hinv') as [Hl' Htl'].
  assert (Hts : ∀ q, timestamp (FastCacheWithTTL.heap c' q)
                     = timestamp (FastCacheWithTTL.heap c q)).
  { intros q. specialize (Hnd q). unfold node_data in Hnd. congruence. }
  exists c', v, l, tl. repeat (split; [done|]). split; [|done].
  intros now'. unfold FastCacheWithTTL.isExpired. rewrite Hts.
  unfold config in Hcf. by injection Hcf as -> _.
Qed.

Lemma C8_get_never_renews_ttl_witness :
  ∃ c : FastCacheWithTTL.t string Z,
    TTL.reachable (mkOptions 3 (Some 100) None None) c ∧
    FastCacheWithTTL.cache c !! "x" = Some 4%nat ∧
    FastCacheWithTTL.isExpired c 4%nat 50 = false ∧
    ∃ c' v, FastCacheWithTTL.get c "x" 50 = Ok (c', Some v) ∧
            FastCacheWithTTL.time_list c' = FastCacheWithTTL.time_list c.
Proof.
  assert (Hr : returns (c0 ← FastCacheWithTTL.new (K:=string) (V:=Z)
                               (mkOptions 3 (Some 100) None None);
                        TTL.run c0 [TTL.OpSet "x" 1 0])
                 (λ '(c, _), FastCacheWithTTL.cache c !! "x" = Some 4%nat ∧
                             FastCacheWithTTL.isExpired c 4%nat 50 = false))
    by (vm_compute; done).
  destruct (proj1 (returns_ex _ _) Hr) as ([c outs] & Hrun & Hk & Hexp).
  apply ttl_reachable_intro in Hrun.
  exists c. split; [exact Hrun|]. split; [exact Hk|]. split; [exact Hexp|].
  destruct (C8_get_never_renews_ttl _ c "x" 4%nat 50 Hrun Hk Hexp)
    as (c' & v & l & tl & Hget & _ & _ & Htl & _ & Htl' & _).
  exists c', v. split; [exact Hget|]. by rewrite Htl, Htl'.
Defined.

(** C9 (stats).  For every sequence of calls on a fresh cache of either class
    that returns, [getStats] reports as [hits] the number of [get] calls that
    returned a value and as [misses] the number of [get] calls that returned
    nothing, both counted since the last [clear]; [hitRate] is
    [hits / (hits + misses)], the quotient of the two numbers as JavaScript
    divides them (the double nearest to the ratio), when [hits + misses > 0],
    and [0] when [hits + misses = 0], where the quotient would be [NaN].  In
    particular, while the counters are below [2^53], [hitRate] is exactly [0]
    when no [get] returned a value and exactly [1] when every [get] did.  On
    a [FastCache] every sequence of calls returns. *)
Theorem C9_stats_correctness `{Countable K} {V : Type} :
  (∀ (c : Z) (ops : list (LRU.Op K V)),
     0 < c →
     ∃ s outs,
       (s0 ← FastCache.new c; LRU.run s0 ops) = Ok (s, outs) ∧
       let st := FastCache.getStats s in
       stat_hits st = (LRU.recorded outs).1 ∧
       stat_misses st = (LRU.recorded outs).2 ∧
       (0 < stat_hits st + stat_misses st →
        stat_hitRate st
          = number_div (number_of_Z (stat_hits st))
                       (number_of_Z (stat_hits st + stat_misses st))) ∧
       (stat_hits st + stat_misses st = 0 →
        stat_hitRate st = SpecFloat.S754_zero false ∧
        number_div (number_of_Z (stat_hits st))
                   (number_of_Z (stat_hits st + stat_misses st)) = SpecFloat.S754_nan) ∧
       (stat_hits st = 0 → 0 < stat_misses st < 2 ^ 53 →
        stat_hitRate st = number_of_Z 0) ∧
       (stat_misses st = 0 → 0 < stat_hits st < 2 ^ 53 →
        stat_hitRate st = number_of_Z 1)) ∧
  (∀ (options : CacheOptions) (ops : list (TTL.Op K V)) (c : FastCacheWithTTL.t K V) outs,
     (c0 ← FastCacheWithTTL.new options; TTL.run c0 ops) = Ok (c, outs) →
     let st := FastCacheWithTTL.getStats c in
     stat_hits st = (TTL.recorded outs).1 ∧
     stat_misses st = (TTL.recorded outs).2 ∧
     (0 < stat_hits st + stat_misses st →
      stat_hitRate st
        = number_div (number_of_Z (stat_hits st))
                     (number_of_Z (stat_hits st + stat_misses st))) ∧
     (stat_hits st + stat_misses st = 0 →
      stat_hitRate st = SpecFloat.S754_zero false ∧
      number_div (number_of_Z (stat_hits st))
                 (number_of_Z (stat_hits st + stat_misses st)) = SpecFloat.S754_nan) ∧
     (stat_hits st = 0 → 0 < stat_misses st < 2 ^ 53 →
      stat_hitRate st = number_of_Z 0) ∧
     (stat_misses st = 0 → 0 < stat_hits st < 2 ^ 53 →
      stat_hitRate st = number_of_Z 1)).
Proof.
  assert (Hrate : ∀ s : FastCache.t K V,
            0 ≤ FastCache.hits s → 0 ≤ FastCache.misses s →
            let st := FastCache.getStats s in
            (0 < stat_hits st + stat_misses st →
             stat_hitRate st
               = number_div (number_of_Z (stat_hits st))
                            (number_of_Z (stat_hits st + stat_misses st))) ∧
            (stat_hits st + stat_misses st = 0 →
             stat_hitRate st = SpecFloat.S754_zero false ∧
             number_div (number_of_Z (stat_hits st))
                        (number_of_Z (stat_hits st + stat_misses st))
               = SpecFloat.S754_nan) ∧
            (stat_hits st = 0 → 0 < stat_misses st < 2 ^ 53 →
             stat_hitRate st = number_of_Z 0) ∧
            (stat_misses st = 0 → 0 < stat_hits st < 2 ^ 53 →
             stat_hitRate st = number_of_Z 1)).
  { intros s Hh Hm. simpl. split; [|split; [|split]].
    - intros Hsum. by rewrite (proj2 (Z.gtb_gt _ _)) by lia.
    - intros Hsum. rewrite Hsum. assert (FastCache.hits s = 0) as -> by lia. done.
    - intros Hz Hb. rewrite Hz, Z.add_0_l.
      rewrite (proj2 (Z.gtb_gt _ _)) by lia. by apply number_div_zero.
    - intros Hz Hb. rewrite Hz, Z.add_0_r.
      rewrite (proj2 (Z.gtb_gt _ _)) by lia. by apply number_div_same. }
  assert (Hpos : ∀ (A : Type) (record : Z * Z → A → Z * Z) (outs : list A),
            (∀ acc o, 0 ≤ acc.1 → 0 ≤ acc.2 →
                      0 ≤ (record acc o).1 ∧ 0 ≤ (record acc o).2) →
            0 ≤ (foldl record (0, 0) outs).1 ∧ 0 ≤ (foldl record (0, 0) outs).2).
  { intros A record outs Hstep.
    assert (Hgen : ∀ acc, 0 ≤ acc.1 → 0 ≤ acc.2 →
              0 ≤ (foldl record acc outs).1 ∧ 0 ≤ (foldl record acc outs).2).
    { induction outs as [|o outs IH]; intros acc H1 H2; [done|]. simpl.
      destruct (Hstep acc o H1 H2). by apply IH. }
    by apply Hgen. }
  split.
  - intros c ops Hc.
    destruct (new_spec (K:=K) (V:=V) c Hc) as (s0 & Hnew & Hinv0 & _ & Hh0 & Hm0 & _).
    destruct (lru_run_inv s0 [] ops Hinv0) as (s & outs & l & Hrun & _ & _ & Hst).
    exists s, outs. rewrite Hnew. split; [exact Hrun|].
    rewrite Hh0, Hm0 in Hst. fold (LRU.recorded outs) in Hst.
    assert (Hnn : 0 ≤ (LRU.recorded outs).1 ∧ 0 ≤ (LRU.recorded outs).2).
    { apply Hpos. intros [a b] o Ha Hb. simpl in *.
      destruct o as [[v|]| | | |]; simpl; lia. }
    cbv zeta. split; [|split; [|apply Hrate]].
    + simpl. by rewrite <- Hst.
    + simpl. by rewrite <- Hst.
    + rewrite <- Hst in Hnn. apply Hnn.
    + rewrite <- Hst in Hnn. apply Hnn.
  - intros options ops c outs Hrun.
    destruct (FastCacheWithTTL.new options) as [c0| |] eqn:Hnew; try done.
    simpl in Hrun.
    destruct (ttl_new_spec options c0 Hnew) as (Hinv0 & Hst0 & _).
    destruct (ttl_run_inv c0 [] [] ops c outs Hinv0 Hrun) as (l & tl & _ & _ & Hst).
    rewrite Hst0 in Hst. simpl in Hst. fold (TTL.recorded outs) in Hst.
    assert (Hnn : 0 ≤ (TTL.recorded outs).1 ∧ 0 ≤ (TTL.recorded outs).2).
    { apply Hpos. intros [a b] o Ha Hb. simpl in *.
      destruct o as [[v|]| | | | | |]; simpl; lia. }
    cbv zeta. split; [|split; [|apply (Hrate (FastCacheWithTTL.base c))]].
    + simpl. by rewrite <- Hst.
    + simpl. by rewrite <- Hst.
    + rewrite <- Hst in Hnn. apply Hnn.
    + rewrite <- Hst in Hnn. apply Hnn.
Qed.

Lemma C9_stats_correctness_witness :
  (0 < 3 ∧
   ∃ (s : FastCache.t string Z) outs,
     (s0 ← FastCache.new 3;
      LRU.run s0 [LRU.OpSet "key1" 1; LRU.OpSet "key2" 2; LRU.OpGet "key1";
                  LRU.OpGet "key1"; LRU.OpGet "nonexistent"]) = Ok (s, outs) ∧
     stat_hits (FastCache.getStats s) = 2 ∧
     stat_misses (FastCache.getStats s) = 1 ∧
     stat_hitRate (FastCache.getStats s)
       = SpecFloat.S754_finite false 6004799503160661 (-53)) ∧
  (∃ (c : FastCacheWithTTL.t string Z) outs,
     (c0 ← FastCacheWithTTL.new (mkOptions 2 (Some 30) None None);
      TTL.run c0 [TTL.OpSet "x" 1 0; TTL.OpGet "x" 40]) = Ok (c, outs) ∧
     stat_misses (FastCacheWithTTL.getStats c) = (TTL.recorded outs).2).
Proof.
  split.
  - split; [lia|].
    destruct (proj1 (C9_stats_correctness (K:=string) (V:=Z)) 3
                [LRU.OpSet "key1" 1; LRU.OpSet "key2" 2; LRU.OpGet "key1";
                 LRU.OpGet "key1"; LRU.OpGet "nonexistent"] ltac:(lia))
      as (s & outs & Hrun & Hh & Hm & Hrate & _).
    assert (Houts : returns (s0 ← FastCache.new (K:=string) (V:=Z) 3;
                             LRU.run s0 [LRU.OpSet "key1" 1; LRU.OpSet "key2" 2;
                                         LRU.OpGet "key1"; LRU.OpGet "key1";
                                         LRU.OpGet "nonexistent"])
                      (λ '(_, o), LRU.recorded o = (2, 1)))
      by (vm_compute; reflexivity).
    rewrite Hrun in Houts. simpl in Houts. rewrite Houts in Hh, Hm.
    exists s, outs. split; [exact Hrun|]. split; [exact Hh|]. split; [exact Hm|].
    rewrite Hrate by (rewrite Hh, Hm; reflexivity). rewrite Hh, Hm. reflexivity.
  - assert (Hr : returns (c0 ← FastCacheWithTTL.new (K:=string) (V:=Z)
                                 (mkOptions 2 (Some 30) None None);
                          TTL.run c0 [TTL.OpSet "x" 1 0; TTL.OpGet "x" 40])
                   (λ _, True)) by (vm_compute; done).
    destruct (proj1 (returns_ex _ _) Hr) as ([c outs] & Hrun & _).
    exists c, outs. split; [exact Hrun|].
    exact (proj1 (proj2 (proj2 (C9_stats_correctness (K:=string) (V:=Z)) _ _ c outs Hrun))).
Defined.

(** C10 (delete of an absent key is a no-op).  For every state of a
    [FastCache] and of a [FastCacheWithTTL], reachable or not, and every key
    that is not in the index, [delete] returns [false] and the state after the
    call is the state before it: index, store (so both lists), size and the
    counters [hits], [misses] and [expired]. *)
Theorem C10_delete_absent_is_noop `{Countable K} {V : Type} (k : K) :
  (∀ s : FastCache.t K V,
     FastCache.cache s !! k = None → FastCache.delete s k = (s, false)) ∧
  (∀ c : FastCacheWithTTL.t K V,
     FastCacheWithTTL.cache c !! k = None → FastCacheWithTTL.delete c k = (c, false)).
Proof.
  split.
  - intros s Hk. unfold FastCache.delete. by rewrite Hk.
  - intros c Hk. unfold FastCacheWithTTL.delete. by rewrite Hk.
Qed.

Lemma C10_delete_absent_is_noop_witness :
  ∃ (s : FastCache.t string Z) (c : FastCacheWithTTL.t string Z),
    FastCache.cache s !! "y" = None ∧ FastCacheWithTTL.cache c !! "y" = None ∧
    FastCache.delete s "y" = (s, false) ∧ FastCacheWithTTL.delete c "y" = (c, false).
Proof.
  assert (Hs : returns (s0 ← FastCache.new (K:=string) (V:=Z) 2;
                        LRU.run s0 [LRU.OpSet "x" 1])
                 (λ '(s, _), FastCache.cache s !! "y" = None))
    by (vm_compute; done).
  assert (Hc : returns (c0 ← FastCacheWithTTL.new (K:=string) (V:=Z)
                               (mkOptions 2 (Some 100) None None);
                        TTL.run c0 [TTL.OpSet "x" 1 0])
                 (λ '(c, _), FastCacheWithTTL.cache c !! "y" = None))
    by (vm_compute; done).
  destruct (proj1 (returns_ex _ _) Hs) as ([s outs] & _ & Hsk).
  destruct (proj1 (returns_ex _ _) Hc) as ([c outs'] & _ & Hck).
  exists s, c. split; [exact Hsk|]. split; [exact Hck|].
  split.
  - exact (proj1 (C10_delete_absent_is_noop "y") s Hsk).
  - exact (proj2 (C10_delete_absent_is_noop "y") c Hck).
Defined.

(** * Further properties of the code *)

(** ** The LRU core does what its client sees *)

Section ClientViewLemmas.
Context `{Countable K} {V : Type}.
Implicit Types (s : FastCache.t K V) (h : Heap K V) (l : list ptr) (m : list (K * V)).

Lemma shown_keys h l m :
  entries_of h l = shown m → FastCache.keys_of h l = Some <$> m.*1.
Proof.
  intros Hm. unfold FastCache.keys_of.
  assert (Hfst : fst <$> entries_of h l = fst <$> shown m) by (by rewrite Hm).
  unfold entries_of, shown in Hfst. rewrite <- !list_fmap_compose in Hfst.
  rewrite <- list_fmap_compose. exact Hfst.
Qed.

Lemma shown_drop_key k m :
  filter (λ e, e.1 ≠ Some k) (shown m) = shown (drop_key k m).
Proof.
  unfold shown, drop_key. induction m as [|e m IH]; [done|]. rewrite fmap_cons.
  destruct (decide (e.1 = k)) as [Heq|Hne].
  - rewrite filter_cons_False by (simpl; intros Hn; apply Hn; by rewrite Heq).
    rewrite filter_cons_False by (intros Hn; by apply Hn). done.
  - rewrite filter_cons_True by (simpl; congruence). rewrite filter_cons_True by done.
    rewrite fmap_cons. by f_equal.
Qed.

Lemma entries_of_without h l p k :
  (∀ q, q ∈ l → key (h q) = Some k → q = p) → key (h p) = Some k →
  entries_of h (without p l) = filter (λ e, e.1 ≠ Some k) (entries_of h l).
Proof.
  intros Hinj Hp. induction l as [|q l IH]; [done|].
  unfold entries_of, without in *. rewrite fmap_cons.
  destruct (decide (q = p)) as [->|Hne].
  - rewrite filter_cons_False by (intros Hn; by apply Hn).
    rewrite filter_cons_False by (simpl; intros Hn; by apply Hn).
    apply IH. intros q Hq. apply Hinj. by right.
  - rewrite filter_cons_True by done. rewrite filter_cons_True.
    + rewrite fmap_cons. f_equal. apply IH. intros q' Hq'. apply Hinj. by right.
    + simpl. intros Hk. apply Hne, Hinj; [left|done].
Qed.

Lemma entries_of_agree h h' l :
  (∀ q, q ∈ l → key (h' q) = key (h q) ∧ value (h' q) = value (h q)) →
  entries_of h' l = entries_of h l.
Proof.
  intros Hag. unfold entries_of. apply list_fmap_ext.
  intros i q Hq. apply list_elem_of_lookup_2 in Hq. by destruct (Hag q Hq) as [-> ->].
Qed.

Lemma assoc_shown h l m p k v :
  entries_of h l = shown m →
  (∀ q, q ∈ l → key (h q) = Some k → q = p) →
  p ∈ l → key (h p) = Some k → value (h p) = Some v →
  assoc k m = Some v.
Proof.
  revert m. induction l as [|q l IH]; intros m Hm Hinj Hp Hk Hv.
  - by apply elem_of_nil in Hp.
  - destruct m as [|e m]; [done|]. unfold entries_of, shown in Hm.
    rewrite !fmap_cons in Hm. injection Hm as Hkq Hvq Hm. simpl.
    destruct (decide (e.1 = k)) as [Heq|Hne].
    + assert (q = p) by (apply Hinj; [left|congruence]). subst q. congruence.
    + apply IH; try done.
      * intros q' Hq'. apply Hinj. by right.
      * apply elem_of_cons in Hp as [->|Hp]; [congruence|done].
Qed.

Lemma assoc_None k m : k ∉ m.*1 → assoc k m = None.
Proof.
  induction m as [|e m IH]; [done|]. rewrite fmap_cons. intros Hk.
  apply not_elem_of_cons in Hk as [Hne Hk]. simpl.
  rewrite decide_False by congruence. by apply IH.
Qed.

(** Every call does to the pairs of the recency list what the client sees,
    and returns what the client sees. *)
Lemma lru_step_view s l m op :
  InvL s l → entries_of (FastCache.heap s) l = shown m →
  ∃ s' l',
    LRU.step s op = Ok (s', (view_step (FastCache.maxSize s) m op).2) ∧
    InvL s' l' ∧ FastCache.maxSize s' = FastCache.maxSize s ∧
    entries_of (FastCache.heap s') l' = shown (view_step (FastCache.maxSize s) m op).1.
Proof.
  intros Hinv Hm. pose proof (shown_keys _ _ _ Hm) as Hks.
  pose proof (InvL_keys_mem s l m.*1) as Hmem.
  assert (Hinj : ∀ k p, FastCache.cache s !! k = Some p →
            ∀ q, q ∈ l → key (FastCache.heap s q) = Some k → q = p).
  { intros k p Hk q Hq Hkq.
    destruct (invl_live _ _ Hinv q Hq) as (k' & Hk' & Hc). congruence. }
  assert (Hdrop : ∀ k p, FastCache.cache s !! k = Some p →
            entries_of (FastCache.heap s) (without p l) = shown (drop_key k m)).
  { intros k p Hk. destruct (invl_idx _ _ Hinv k p Hk) as [Hp Hkp].
    rewrite (entries_of_without _ _ p k); [|by apply Hinj|done].
    by rewrite Hm, shown_drop_key. }
  assert (Habsent : ∀ k, FastCache.cache s !! k = None → k ∉ m.*1).
  { intros k Hk Hin. apply Hmem in Hin; [|done..]. rewrite Hk in Hin. by destruct Hin. }
  assert (Hpresent : ∀ k p, FastCache.cache s !! k = Some p → k ∈ m.*1).
  { intros k p Hk. apply Hmem; [done|done|by eexists]. }
  destruct op as [k|k v|k| |k]; simpl.
  - (* get *)
    destruct (FastCache.cache s !! k) as [p|] eqn:Hk.
    + destruct (get_hit s l k p Hinv Hk) as (h' & v & -> & Hv & Hinv' & Hfr).
      destruct (invl_idx _ _ Hinv k p Hk) as [Hp Hkp].
      rewrite (assoc_shown _ l m p k v Hm (Hinj k p Hk) Hp Hkp Hv). simpl.
      do 2 eexists. split; [done|]. split; [by apply InvL_with_hits|]. split; [done|].
      rewrite (entries_of_agree (FastCache.heap s)).
      * unfold entries_of at 1. rewrite fmap_cons, Hkp, Hv.
        f_equal. by apply Hdrop.
      * intros q _. destruct (Hfr (S q)) as (Hky & Hvl & _). split; [apply Hky|apply Hvl]; lia.
    + rewrite get_miss by done. rewrite assoc_None by (by apply Habsent). simpl.
      do 2 eexists. split; [done|]. split; [by apply InvL_with_misses|]. done.
  - (* set *)
    destruct (FastCache.cache s !! k) as [p|] eqn:Hk.
    + destruct (set_existing s l k v p Hinv Hk) as (h' & -> & Hinv' & Hv' & Hsame & Hoth).
      simpl. do 2 eexists. split; [done|]. split; [done|]. split; [done|].
      rewrite decide_True by (by apply (Hpresent k p)).
      destruct (invl_idx _ _ Hinv k p Hk) as [Hp Hkp].
      unfold entries_of at 1. rewrite fmap_cons. simpl.
      destruct (Hsame p) as (-> & _). rewrite Hkp, Hv'. f_equal.
      rewrite <- (Hdrop k p Hk). apply entries_of_agree.
      intros q Hq. apply elem_of_without in Hq as [Hne _].
      destruct (Hsame q) as (-> & _). by rewrite Hoth.
    + destruct (set_new s l k v Hinv Hk)
        as (s' & -> & _ & _ & _ & Hmax & _ & _ & Hkey & Hval & Hfr & Hcases). simpl.
      rewrite decide_False by (by apply Habsent).
      pose proof (InvL_size s l Hinv) as Hsz.
      assert (Hlen : length m = length l).
      { rewrite <- (length_fmap (λ e, (Some e.1, Some e.2)) m).
        fold (shown m). rewrite <- Hm. unfold entries_of. by rewrite length_fmap. }
      destruct Hfr as (Hfk & Hfv & _).
      destruct Hcases as [(Hlt & _ & Hinv')|(Hge & l0 & x & kx & -> & Hkx & Hcx & _ & Hinv')].
      * do 2 eexists. split; [done|]. split; [done|]. split; [done|].
        rewrite Z.geb_leb, (proj2 (Z.leb_gt _ _)) by lia.
        unfold entries_of at 1. rewrite fmap_cons, Hkey, Hval.
        unfold shown at 1. rewrite fmap_cons. simpl. f_equal. fold (shown m).
        rewrite <- Hm. apply entries_of_agree. intros q Hq.
        pose proof (InvL_lt s l q Hinv Hq). by rewrite Hfk, Hfv.
      * do 2 eexists. split; [done|]. split; [done|]. split; [done|].
        rewrite Z.geb_leb, (proj2 (Z.leb_le _ _)) by lia.
        unfold entries_of at 1. rewrite fmap_cons, Hkey, Hval.
        unfold shown at 1. rewrite fmap_cons. simpl. f_equal.
        unfold entries_of, shown in Hm. rewrite fmap_app in Hm.
        symmetry in Hm. apply fmap_app_inv in Hm as (m0 & ml & Hm0 & Hml & ->).
        destruct ml as [|e [|? ?]]; try done.
        rewrite removelast_last. fold (shown m0). unfold shown. rewrite <- Hm0.
        apply entries_of_agree. intros q Hq.
        assert ((q < FastCache.nextptr s)%nat).
        { apply (InvL_lt s (l0 ++ [x])); [done|]. apply elem_of_app. by left. }
        by rewrite Hfk, Hfv.
  - (* delete *)
    destruct (FastCache.cache s !! k) as [p|] eqn:Hk.
    + rewrite (delete_present s k p) by done.
      rewrite bool_decide_eq_true_2 by (by apply (Hpresent k p)).
      do 2 eexists. split; [done|]. split; [by apply InvL_remove|]. split; [done|]. simpl.
      rewrite <- (Hdrop k p Hk). apply entries_of_agree. intros q _.
      split; by apply (unlink_frame next prev with_next with_prev).
    + rewrite delete_absent by done.
      rewrite bool_decide_eq_false_2 by (by apply Habsent).
      do 2 eexists. split; [done|]. split; [done|]. split; [done|].
      rewrite Hm. f_equal. symmetry. unfold drop_key.
      assert (Hgen : ∀ m', k ∉ m'.*1 → filter (λ e : K * V, e.1 ≠ k) m' = m').
      { clear. induction m' as [|e m' IH]; [done|]. rewrite fmap_cons. intros Hk.
        apply not_elem_of_cons in Hk as [Hne Hk].
        rewrite filter_cons_True by congruence. f_equal. by apply IH. }
      by apply Hgen, Habsent.
  - (* clear *)
    destruct (clear_spec s l Hinv) as [Hinv' _].
    do 2 eexists. split; [done|]. split; [done|]. done.
  - (* has *)
    unfold FastCache.has. do 2 eexists. split; [|split; [done|done]].
    do 3 f_equal. apply bool_decide_ext. symmetry. by apply Hmem.
Qed.
Lemma lru_run_view s l m ops :
  InvL s l → entries_of (FastCache.heap s) l = shown m →
  ∃ s' l',
    LRU.run s ops = Ok (s', (view_run (FastCache.maxSize s) m ops).2) ∧
    InvL s' l' ∧ FastCache.maxSize s' = FastCache.maxSize s ∧
    entries_of (FastCache.heap s') l' = shown (view_run (FastCache.maxSize s) m ops).1.
Proof.
  revert s l m. induction ops as [|op ops IH]; intros s l m Hinv Hm.
  - by exists s, l.
  - destruct (lru_step_view s l m op Hinv Hm) as (s1 & l1 & Hstep & Hinv1 & Hmax1 & Hm1).
    simpl. destruct (view_step (FastCache.maxSize s) m op) as [m1 o] eqn:Hvs. simpl in *.
    destruct (IH s1 l1 m1 Hinv1 Hm1) as (s2 & l2 & Hrun & Hinv2 & Hmax2 & Hres).
    rewrite Hmax1 in Hrun, Hres.
    destruct (view_run (FastCache.maxSize s) m1 ops) as [m2 os] eqn:Hvr. simpl in *.
    exists s2, l2. rewrite Hstep. simpl. rewrite Hrun. split; [done|].
    split; [done|]. split; [congruence|done].
Qed.

Lemma lru_entries_shown s l m :
  InvL s l → entries_of (FastCache.heap s) l = shown m → lru_entries s = Some (shown m).
Proof.
  intros Hinv Hm. unfold lru_entries. rewrite (InvL_lru_list s l Hinv). simpl. by rewrite Hm.
Qed.
End ClientViewLemmas.

(** ** The TTL cache does what its client sees *)

Section TTLViewLemmas.
Context `{Countable K} {V : Type}.
Implicit Types (c : FastCacheWithTTL.t K V) (h : Heap K V) (l : list ptr)
  (m : list (K * V * Z)).

Lemma tshown_keys h l m :
  node_data h <$> l = tshown m → FastCache.keys_of h l = Some <$> m.*1.*1.
Proof.
  intros Hm. unfold FastCache.keys_of.
  assert (Hfst : (λ e, e.1.1) <$> (node_data h <$> l)
                 = (λ e : option K * option V * option Z, e.1.1) <$> tshown m)
    by (by rewrite Hm).
  unfold tshown in Hfst. rewrite <- !list_fmap_compose in Hfst.
  rewrite <- !list_fmap_compose. exact Hfst.
Qed.

Lemma tshown_length h l m : node_data h <$> l = tshown m → length m = length l.
Proof.
  intros Hm. rewrite <- (length_fmap (node_data h) l), Hm. unfold tshown.
  by rewrite length_fmap.
Qed.

Lemma tshown_cons e m :
  tshown (e :: m) = (Some e.1.1, Some e.1.2, Some e.2) :: tshown m.
Proof. done. Qed.

Lemma tshown_drop_key k m :
  filter (λ e, e.1.1 ≠ Some k) (tshown m) = tshown (tdrop_key k m).
Proof.
  unfold tshown, tdrop_key. induction m as [|e m IH]; [done|]. rewrite fmap_cons.
  destruct (decide (e.1.1 = k)) as [Heq|Hne].
  - rewrite filter_cons_False by (simpl; intros Hn; apply Hn; by rewrite Heq).
    rewrite filter_cons_False by (intros Hn; by apply Hn). done.
  - rewrite filter_cons_True by (simpl; congruence). rewrite filter_cons_True by done.
    rewrite fmap_cons. by f_equal.
Qed.

Lemma tdrop_key_absent k m : k ∉ m.*1.*1 → tdrop_key k m = m.
Proof.
  unfold tdrop_key. induction m as [|e m IH]; [done|]. rewrite !fmap_cons. intros Hk.
  apply not_elem_of_cons in Hk as [Hne Hk].
  rewrite filter_cons_True by congruence. f_equal. by apply IH.
Qed.

Lemma node_data_without h l p k :
  (∀ q, q ∈ l → key (h q) = Some k → q = p) → key (h p) = Some k →
  node_data h <$> without p l = filter (λ e, e.1.1 ≠ Some k) (node_data h <$> l).
Proof.
  intros Hinj Hp. induction l as [|q l IH]; [done|].
  unfold without in *. rewrite fmap_cons.
  destruct (decide (q = p)) as [->|Hne].
  - rewrite filter_cons_False by (intros Hn; by apply Hn).
    rewrite filter_cons_False by (simpl; intros Hn; by apply Hn).
    apply IH. intros q Hq. apply Hinj. by right.
  - rewrite filter_cons_True by done. rewrite filter_cons_True.
    + rewrite fmap_cons. f_equal. apply IH. intros q' Hq'. apply Hinj. by right.
    + simpl. intros Hk. apply Hne, Hinj; [left|done].
Qed.

Lemma node_data_agree h h' l :
  (∀ q, q ∈ l → node_data h' q = node_data h q) →
  node_data h' <$> l = node_data h <$> l.
Proof.
  intros Hag. apply list_fmap_ext. intros i q Hq. apply list_elem_of_lookup_2 in Hq. auto.
Qed.

Lemma tassoc_shown h l m p k v ts :
  node_data h <$> l = tshown m →
  (∀ q, q ∈ l → key (h q) = Some k → q = p) →
  p ∈ l → node_data h p = (Some k, Some v, Some ts) →
  tassoc k m = Some (v, ts).
Proof.
  revert m. induction l as [|q l IH]; intros m Hm Hinj Hp Hnd.
  - by apply elem_of_nil in Hp.
  - destruct m as [|e m]; [done|]. unfold tshown in Hm.
    rewrite !fmap_cons in Hm. injection Hm as Hqk Hqv Hqt Hm. simpl.
    destruct (decide (e.1.1 = k)) as [Heq|Hne].
    + assert (q = p) by (apply Hinj; [left|congruence]).
      subst q. unfold node_data in Hnd. injection Hnd as Hk Hv Ht. congruence.
    + apply IH; try done.
      * intros q' Hq'. apply Hinj. by right.
      * apply elem_of_cons in Hp as [->|Hp]; [|done].
        unfold node_data in Hnd. injection Hnd as Hk Hv Ht. congruence.
Qed.

Lemma tassoc_None k m : k ∉ m.*1.*1 → tassoc k m = None.
Proof.
  induction m as [|e m IH]; [done|]. rewrite !fmap_cons. intros Hk.
  apply not_elem_of_cons in Hk as [Hne Hk]. simpl.
  rewrite decide_False by congruence. by apply IH.
Qed.

(** Every call the view covers does to the entries of the recency list what
    the view says, and returns what the view says. *)
Lemma ttl_step_view c l tl m op m' e' o :
  InvT c l tl → node_data (FastCacheWithTTL.heap c) <$> l = tshown m →
  tview_step (FastCacheWithTTL.ttl c) (FastCacheWithTTL.capacity c)
             (m, FastCacheWithTTL.expired c) op = Some (m', e', o) →
  ∃ c' l' tl',
    TTL.step c op = Ok (c', o) ∧ InvT c' l' tl' ∧ config c' = config c ∧
    node_data (FastCacheWithTTL.heap c') <$> l' = tshown m' ∧
    FastCacheWithTTL.expired c' = e'.
Proof.
  intros Hinv Hm Hview. pose proof (tshown_keys _ _ _ Hm) as Hks.
  pose proof (invt_base _ _ _ Hinv) as Hb.
  pose proof (InvL_keys_mem (FastCacheWithTTL.base c) l m.*1.*1) as Hmem.
  assert (Hinj : ∀ k p, FastCacheWithTTL.cache c !! k = Some p →
            ∀ q, q ∈ l → key (FastCacheWithTTL.heap c q) = Some k → q = p).
  { intros k p Hk q Hq Hkq.
    destruct (invl_live _ _ Hb q Hq) as (k' & Hk' & Hc).
    unfold FastCacheWithTTL.heap, FastCacheWithTTL.cache in *. congruence. }
  assert (Hdrop : ∀ k p, FastCacheWithTTL.cache c !! k = Some p →
            node_data (FastCacheWithTTL.heap c) <$> without p l = tshown (tdrop_key k m)).
  { intros k p Hk. destruct (invl_idx _ _ Hb k p Hk) as [Hp Hkp].
    rewrite (node_data_without _ _ p k); [|by apply Hinj|done].
    by rewrite Hm, tshown_drop_key. }
  assert (Habsent : ∀ k, FastCacheWithTTL.cache c !! k = None → k ∉ m.*1.*1).
  { intros k Hk Hin. apply Hmem in Hin; [|done..].
    unfold FastCacheWithTTL.cache in Hk. rewrite Hk in Hin. by destruct Hin. }
  assert (Hpresent : ∀ k p, FastCacheWithTTL.cache c !! k = Some p → k ∈ m.*1.*1).
  { intros k p Hk. apply Hmem; [done|done|by eexists]. }
  assert (Hentry : ∀ k p, FastCacheWithTTL.cache c !! k = Some p →
            ∃ v ts, node_data (FastCacheWithTTL.heap c) p = (Some k, Some v, Some ts) ∧
                    tassoc k m = Some (v, ts) ∧
                    ∀ now, FastCacheWithTTL.isExpired c p now
                           = stale (FastCacheWithTTL.ttl c) now ts).
  { intros k p Hk. destruct (invl_idx _ _ Hb k p Hk) as [Hp Hkp].
    destruct (invl_val _ _ Hb p Hp) as [v Hv]. destruct (invt_ts _ _ _ Hinv p Hp) as [ts Hts].
    assert (Hnd : node_data (FastCacheWithTTL.heap c) p = (Some k, Some v, Some ts)).
    { unfold node_data, FastCacheWithTTL.heap in *. by rewrite Hkp, Hv, Hts. }
    exists v, ts. split; [done|]. split.
    { apply (tassoc_shown (FastCacheWithTTL.heap c) l m p); try done. by apply Hinj. }
    intros now. unfold FastCacheWithTTL.isExpired, stale. rewrite Hts.
    by destruct (FastCacheWithTTL.ttl c =? 0). }
  destruct op as [k now|k v now|k| |k now|fuel now|]; simpl in Hview |- *.
  - (* get *)
    destruct (FastCacheWithTTL.cache c !! k) as [p|] eqn:Hk.
    + destruct (Hentry k p Hk) as (v & ts & Hnd & Has & Hexp). rewrite Has in Hview.
      destruct (stale _ now ts) eqn:Hst; injection Hview as <- <- <-.
      * destruct (ttl_get_expired c l tl k p now Hinv Hk ltac:(by rewrite Hexp))
          as (c' & -> & Hinv' & _ & Hst' & Hcf & Hsame). simpl.
        exists c'. do 2 eexists. split; [done|]. split; [done|]. split; [done|].
        split; [|by injection Hst'].
        rewrite <- (Hdrop k p Hk). by apply node_data_agree.
      * destruct (ttl_get_live c l tl k p now Hinv Hk ltac:(by rewrite Hexp))
          as (c' & v' & -> & Hv' & Hinv' & _ & Hst' & Hcf & Hsame). simpl.
        assert (v' = v) as ->.
        { unfold node_data in Hnd. injection Hnd as _ Hv _. congruence. }
        exists c'. do 2 eexists. split; [done|]. split; [done|]. split; [done|].
        split; [|by injection Hst'].
        rewrite fmap_cons, Hsame, Hnd, ?tshown_cons. f_equal.
        rewrite (node_data_agree (FastCacheWithTTL.heap c)); [by apply Hdrop|done].
    + rewrite tassoc_None in Hview by (by apply Habsent). injection Hview as <- <- <-.
      rewrite ttl_get_miss by done. simpl.
      do 3 eexists. split; [done|]. split; [by apply InvT_with_misses|]. done.
  - (* set *)
    injection Hview as <- <- <-.
    destruct (FastCacheWithTTL.cache c !! k) as [p|] eqn:Hk.
    + destruct (ttl_set_existing c l tl k v p now Hinv Hk)
        as (c' & -> & Hinv' & _ & Hst' & Hcf & Hnd & Hoth). simpl.
      exists c'. do 2 eexists. split; [done|]. split; [done|]. split; [done|].
      split; [|by injection Hst'].
      rewrite decide_True by (by apply (Hpresent k p)).
      rewrite fmap_cons, Hnd, ?tshown_cons. f_equal.
      rewrite (node_data_agree (FastCacheWithTTL.heap c)); [by apply Hdrop|].
      intros q Hq. apply elem_of_without in Hq as [Hne _]. by apply Hoth.
    + destruct (ttl_set_new c l tl k v now Hinv Hk)
        as (c' & -> & Hst' & Hcf & Hnd & Hold & Hcases). simpl.
      rewrite decide_False by (by apply Habsent).
      pose proof (tshown_length _ _ _ Hm) as Hlen.
      pose proof (InvL_size _ l Hb) as Hsz. unfold FastCacheWithTTL.capacity.
      destruct Hcases as [(Hlt & _ & Hinv')|(Hge & l0 & x & kx & -> & Hkx & Hcx & _ & Hinv')].
      * exists c'. do 2 eexists. split; [done|]. split; [done|]. split; [done|].
        split; [|by injection Hst'].
        unfold FastCacheWithTTL.cache in Hlt.
        rewrite Z.geb_leb, (proj2 (Z.leb_gt _ _)) by lia.
        rewrite fmap_cons, Hnd, ?tshown_cons. f_equal.
        rewrite (node_data_agree (FastCacheWithTTL.heap c)); [done|]. intros q Hq.
        apply Hold. by apply (InvL_lt _ l).
      * exists c'. do 2 eexists. split; [done|]. split; [done|]. split; [done|].
        split; [|by injection Hst'].
        unfold FastCacheWithTTL.cache in Hge.
        rewrite Z.geb_leb, (proj2 (Z.leb_le _ _)) by lia.
        unfold tshown in Hm. rewrite fmap_app in Hm.
        symmetry in Hm. apply fmap_app_inv in Hm as (m0 & ml & Hm0 & Hml & ->).
        destruct ml as [|e [|? ?]]; try done.
        rewrite removelast_last, fmap_cons, Hnd, ?tshown_cons. f_equal.
        rewrite (node_data_agree (FastCacheWithTTL.heap c)); [done|].
        intros q Hq. apply Hold.
        apply (InvL_lt _ (l0 ++ [x])); [done|]. apply elem_of_app. by left.
  - (* delete *)
    injection Hview as <- <- <-.
    destruct (FastCacheWithTTL.cache c !! k) as [p|] eqn:Hk.
    + destruct (ttl_delete_present c l tl k p Hinv Hk)
        as (c' & -> & Hinv' & _ & Hst' & Hcf & Hsame).
      rewrite bool_decide_eq_true_2 by (by apply (Hpresent k p)).
      exists c'. do 2 eexists. split; [done|]. split; [done|]. split; [done|].
      split; [|by injection Hst'].
      rewrite <- (Hdrop k p Hk). by apply node_data_agree.
    + rewrite ttl_delete_absent by done.
      rewrite bool_decide_eq_false_2 by (by apply Habsent).
      exists c, l, tl. split; [done|]. split; [done|]. split; [done|].
      split; [|done]. rewrite tdrop_key_absent by (by apply Habsent). done.
  - (* clear *)
    injection Hview as <- <- <-.
    destruct (ttl_clear_spec c l tl Hinv) as (Hinv' & Hst' & Hcf & _).
    do 3 eexists. split; [done|]. split; [done|]. split; [done|].
    split; [done|reflexivity].
  - (* has *)
    destruct (FastCacheWithTTL.cache c !! k) as [p|] eqn:Hk.
    + destruct (Hentry k p Hk) as (v & ts & Hnd & Has & Hexp). rewrite Has in Hview.
      destruct (stale _ now ts) eqn:Hst; injection Hview as <- <- <-.
      * destruct (ttl_delete_present c l tl k p Hinv Hk)
          as (c' & Hdel & Hinv' & _ & Hst' & Hcf & Hsame).
        unfold FastCacheWithTTL.has. rewrite Hk, Hexp, Hst, Hdel. simpl.
        do 3 eexists. split; [done|]. split; [by apply InvT_with_expired|].
        split; [done|]. split; [|by injection Hst' as _ _ ->].
        rewrite <- (Hdrop k p Hk). by apply node_data_agree.
      * rewrite (ttl_has_live c k p now) by (by rewrite ?Hexp).
        exists c, l, tl. done.
    + rewrite tassoc_None in Hview by (by apply Habsent). injection Hview as <- <- <-.
      rewrite ttl_has_absent by done. exists c, l, tl. done.
  - (* cleanup, without ttl *)
    destruct (FastCacheWithTTL.ttl c =? 0) eqn:Httl; [|done]. injection Hview as <- <- <-.
    unfold FastCacheWithTTL.cleanup. rewrite Httl. simpl. exists c, l, tl. done.
  - (* destroy *)
    injection Hview as <- <- <-.
    do 3 eexists. split; [done|]. split; [by apply InvT_destroy|].
    unfold FastCacheWithTTL.destroy. by destruct (FastCacheWithTTL.cleanupTimer c).
Qed.

Lemma ttl_run_view c l tl m ops m' e' outs :
  InvT c l tl → node_data (FastCacheWithTTL.heap c) <$> l = tshown m →
  tview_run (FastCacheWithTTL.ttl c) (FastCacheWithTTL.capacity c)
            (m, FastCacheWithTTL.expired c) ops = Some (m', e', outs) →
  ∃ c' l' tl',
    TTL.run c ops = Ok (c', outs) ∧ InvT c' l' tl' ∧ config c' = config c ∧
    node_data (FastCacheWithTTL.heap c') <$> l' = tshown m' ∧
    FastCacheWithTTL.expired c' = e'.
Proof.
  revert c l tl m m' e' outs.
  induction ops as [|op ops IH]; intros c l tl m m' e' outs Hinv Hm Hview.
  - injection Hview as <- <- <-. by exists c, l, tl.
  - cbn [tview_run] in Hview.
    destruct (tview_step _ _ _ op) as [[[m1 e1] o]|] eqn:Hstep; [|done].
    destruct (tview_run _ _ (m1, e1) ops) as [[[m2 e2] os]|] eqn:Hrun; [|done].
    injection Hview as <- <- <-.
    destruct (ttl_step_view c l tl m op m1 e1 o Hinv Hm Hstep)
      as (c1 & l1 & tl1 & Hs & Hinv1 & Hcf & Hm1 & <-).
    pose proof Hcf as Hcf'.
    unfold config, FastCacheWithTTL.capacity in *. injection Hcf' as Httl Hcap.
    rewrite <- Httl, <- Hcap in Hrun.
    destruct (IH c1 l1 tl1 m1 _ _ _ Hinv1 Hm1 Hrun)
      as (c2 & l2 & tl2 & Hr & Hinv2 & Hcf2 & Hres).
    exists c2, l2, tl2. simpl. rewrite Hs. simpl. rewrite Hr.
    split; [done|]. split; [done|]. split; [congruence|done].
Qed.

Lemma ttl_entries_shown c l tl m :
  InvT c l tl → node_data (FastCacheWithTTL.heap c) <$> l = tshown m →
  ttl_entries c = Some (tshown m).
Proof.
  intros Hinv Hm. unfold ttl_entries, tentries_of.
  destruct (InvT_lists c l tl Hinv) as [-> _]. simpl. by rewrite Hm.
Qed.
End TTLViewLemmas.

(** ** A TTL cache without [ttl] is the LRU core *)

Section ForgetLemmas.
Context `{Countable K} {V : Type}.
Implicit Types (m : list (K * V * Z)).

Lemma stale_disabled now ts : stale 0 now ts = false.
Proof. done. Qed.

Lemma assoc_forget k m : assoc k m.*1 = fst <$> tassoc k m.
Proof.
  induction m as [|e m IH]; [done|]. rewrite fmap_cons. simpl.
  by destruct (decide (e.1.1 = k)).
Qed.

Lemma drop_key_forget k m : drop_key k m.*1 = (tdrop_key k m).*1.
Proof.
  unfold drop_key, tdrop_key. induction m as [|e m IH]; [done|]. rewrite fmap_cons.
  destruct (decide (e.1.1 = k)) as [Heq|Hne].
  - by rewrite !filter_cons_False by (intros Hn; by apply Hn).
  - rewrite !filter_cons_True by done. rewrite fmap_cons. by f_equal.
Qed.

Lemma removelast_fmap {A B} (f : A → B) (l : list A) :
  removelast (f <$> l) = f <$> removelast l.
Proof.
  induction l as [|a [|b l] IH]; [done|done|].
  change (f a :: removelast (f <$> b :: l) = f a :: (f <$> removelast (b :: l))).
  by rewrite IH.
Qed.

(** Without [ttl] the view of the TTL cache is, call by call, the view of the
    LRU core; [cleanup] and [destroy] leave the entries alone. *)
Lemma tview_step_forget capacity m op :
  ∃ m' o,
    tview_step 0 capacity (m, 0) op = Some (m', 0, o) ∧
    match forget op with
    | Some lop => view_step capacity m.*1 lop = (m'.*1, default LRU.RClear (forget_out o)) ∧
                  is_Some (forget_out o)
    | None => m' = m ∧ forget_out o = None ∧ ∀ n, o = TTL.RCleanup n → n = 0
    end.
Proof.
  destruct op as [k now|k v now|k| |k now|fuel now|]; simpl.
  - rewrite assoc_forget. destruct (tassoc k m) as [[v ts]|]; simpl.
    + do 2 eexists. split; [done|]. simpl. rewrite drop_key_forget. by split.
    + do 2 eexists. split; [done|]. by split.
  - do 2 eexists. split; [done|]. simpl. split; [|done]. f_equal.
    rewrite drop_key_forget, length_fmap, removelast_fmap.
    destruct (decide (k ∈ m.*1.*1)); [done|]. rewrite fmap_cons. simpl. f_equal.
    by destruct (Z.of_nat (length m) >=? capacity).
  - do 2 eexists. split; [done|]. simpl. rewrite drop_key_forget. by split.
  - do 2 eexists. split; [done|]. by split.
  - assert (Hmem : bool_decide (k ∈ m.*1.*1) = bool_decide (is_Some (tassoc k m))).
    { apply bool_decide_ext. induction m as [|e' m IH].
      - simpl. split; [by intros ?%elem_of_nil|by intros [? ?]].
      - rewrite !fmap_cons. simpl. destruct (decide (e'.1.1 = k)) as [Heq|Hne].
        + split; [by eexists|]. intros _. rewrite <- Heq. by left.
        + rewrite <- IH. split; [|by right].
          intros [?|?]%elem_of_cons; [congruence|done]. }
    rewrite Hmem. destruct (tassoc k m) as [[v ts]|]; simpl.
    + do 2 eexists. split; [done|]. simpl. split; [|done]. f_equal.
    + do 2 eexists. split; [done|]. by split.
  - do 2 eexists. split; [done|]. split; [done|]. split; [done|]. by intros n [= <-].
  - do 2 eexists. split; [done|]. split; [done|]. by split.
Qed.

Lemma tview_run_forget capacity m ops :
  ∃ m' outs,
    tview_run 0 capacity (m, 0) ops = Some (m', 0, outs) ∧
    view_run capacity m.*1 (omap forget ops) = (m'.*1, omap forget_out outs) ∧
    ∀ n, TTL.RCleanup n ∈ outs → n = 0.
Proof.
  revert m. induction ops as [|op ops IH]; intros m.
  - exists m, []. split; [done|]. split; [done|]. by intros n ?%elem_of_nil.
  - destruct (tview_step_forget capacity m op) as (m1 & o & Hstep & Hop).
    destruct (IH m1) as (m2 & os & Hrun & Hvr & Hcl).
    exists m2, (o :: os). cbn [tview_run]. rewrite Hstep, Hrun. split; [done|].
    cbn [omap list_omap]. destruct (forget op) as [lop|].
    + destruct Hop as [Hvs [lo Hlo]]. rewrite Hlo in Hvs |- *. simpl in Hvs.
      cbn [view_run]. rewrite Hvs, Hvr. split; [done|].
      intros n [Ho|Hn]%elem_of_cons; [by rewrite <- Ho in Hlo|by apply Hcl].
    + destruct Hop as (-> & -> & Hn0). split; [done|].
      intros n [Ho|Hn]%elem_of_cons; [by apply Hn0|by apply Hcl].
Qed.

Lemma tshown_forget m : fst <$> tshown m = shown m.*1.
Proof. unfold tshown, shown. rewrite <- !list_fmap_compose. done. Qed.
End ForgetLemmas.

(** ** The loop of [cleanup] *)

Section CleanupLemmas.
Context `{Countable K} {V : Type}.
Implicit Types (c : FastCacheWithTTL.t K V) (l tl : list ptr).

(** The node [cleanup] looks at: the first of the time list, or the tail
    sentinel when the list is empty. *)
Lemma time_first c l tl :
  InvT c l tl →
  timeNext (FastCacheWithTTL.heap c (FastCacheWithTTL.timeHead c))
    = Some (hd (FastCacheWithTTL.timeTail c) tl).
Proof.
  intros Hinv. destruct (invt_dll _ _ _ Hinv) as [_ Hch].
  destruct tl as [|p rest]; simpl in Hch; by destruct Hch as [[-> _] _].
Qed.

Lemma isExpired_same c c' p now :
  config c' = config c →
  node_data (FastCacheWithTTL.heap c') p = node_data (FastCacheWithTTL.heap c) p →
  FastCacheWithTTL.isExpired c' p now = FastCacheWithTTL.isExpired c p now.
Proof.
  unfold config, node_data, FastCacheWithTTL.isExpired.
  intros [= Httl _] [= _ _ Hts]. by rewrite Httl, Hts.
Qed.

Lemma without_head p rest : p ∉ rest → without p (p :: rest) = rest.
Proof.
  intros Hp. rewrite <- (without_notin p rest Hp) at 2.
  unfold without. by rewrite filter_cons_False by (intros Hn; by apply Hn).
Qed.

(** An expired node at the head of the time list that is not on the recency
    list stays where it is: the loop does not end. *)
Lemma cleanup_loop_stale fuel c l p rest now n :
  InvT c l (p :: rest) → p ∉ l → FastCacheWithTTL.isExpired c p now = true →
  FastCacheWithTTL.cleanup_loop fuel c now n (Some p) = OutOfFuel.
Proof.
  revert c l rest n. induction fuel as [|fuel IH]; intros c l rest n Hinv Hp Hexp; [done|].
  simpl. destruct (InvT_mem_tl c l (p :: rest) p Hinv ltac:(by left)) as [_ Hne].
  rewrite decide_False by done. rewrite Hexp.
  set (c1 := (FastCacheWithTTL.delete_key_of c _).1).
  assert (H1 : ∃ l1 rest1, InvT c1 l1 (p :: rest1) ∧ p ∉ l1 ∧ config c1 = config c ∧
            ∀ q, node_data (FastCacheWithTTL.heap c1) q
                 = node_data (FastCacheWithTTL.heap c) q).
  { unfold c1, FastCacheWithTTL.delete_key_of.
    destruct (key _) as [k|]; [|by exists l, rest].
    destruct (FastCacheWithTTL.cache c !! k) as [p'|] eqn:Hk.
    - destruct (ttl_delete_present c l (p :: rest) k p' Hinv Hk)
        as (c' & -> & Hinv' & _ & _ & Hcf & Hnd). simpl.
      destruct (invl_idx _ _ (invt_base _ _ _ Hinv) k p' Hk) as [Hp' _].
      assert (p ≠ p') by (intros ->; done).
      exists (without p' l), (without p' rest). split; [|split; [|done]].
      + unfold without in *. by rewrite filter_cons_True in Hinv' by done.
      + intros [_ ?]%elem_of_without. done.
    - rewrite ttl_delete_absent by done. by exists l, rest. }
  destruct H1 as (l1 & rest1 & Hinv1 & Hp1 & Hcf1 & Hnd1).
  set (c2 := FastCacheWithTTL.with_expired c1 _).
  assert (Hinv2 : InvT c2 l1 (p :: rest1)) by (by apply InvT_with_expired).
  change (FastCacheWithTTL.timeHead c1) with (FastCacheWithTTL.timeHead c2).
  rewrite (time_first c2 l1 (p :: rest1) Hinv2). simpl.
  apply (IH c2 l1 rest1); [done|done|].
  rewrite <- Hexp. apply isExpired_same; [done|apply Hnd1].
Qed.

(** What the loop has done when it ends: it has taken a prefix of the time
    list out of the index and of both lists, node by node, each node expired
    and on the recency list; the node it stops at, if any, has not expired. *)
Lemma cleanup_loop_post fuel c l tl now n c' n' :
  InvT c l tl →
  FastCacheWithTTL.cleanup_loop fuel c now n
    (timeNext (FastCacheWithTTL.heap c (FastCacheWithTTL.timeHead c))) = Ok (c', n') →
  ∃ ex l' tl',
    InvT c' l' tl' ∧ tl = ex ++ tl' ∧
    (∀ p, p ∈ ex → p ∈ l ∧ FastCacheWithTTL.isExpired c p now = true) ∧
    (∀ q, q ∈ l' ↔ q ∈ l ∧ q ∉ ex) ∧
    (∀ k q, FastCacheWithTTL.cache c' !! k = Some q ↔
            FastCacheWithTTL.cache c !! k = Some q ∧ q ∉ ex) ∧
    (∀ q, node_data (FastCacheWithTTL.heap c') q = node_data (FastCacheWithTTL.heap c) q) ∧
    config c' = config c ∧
    stats c' = (FastCache.hits (FastCacheWithTTL.base c),
                FastCache.misses (FastCacheWithTTL.base c),
                FastCacheWithTTL.expired c + Z.of_nat (length ex)) ∧
    n' = n + Z.of_nat (length ex) ∧
    (size (FastCacheWithTTL.cache c') + length ex)%nat = size (FastCacheWithTTL.cache c) ∧
    match tl' with
    | [] => True
    | p :: _ => FastCacheWithTTL.isExpired c p now = false
    end.
Proof.
  revert c l tl n. induction fuel as [|fuel IH]; intros c l tl n Hinv Hloop; [done|].
  rewrite (time_first c l tl Hinv) in Hloop.
  assert (Hstop : ∀ P : Prop, c' = c → n' = n →
            match tl with
            | [] => True
            | p :: _ => FastCacheWithTTL.isExpired c p now = false
            end →
            (∃ ex l' tl',
               InvT c' l' tl' ∧ tl = ex ++ tl' ∧
               (∀ p, p ∈ ex → p ∈ l ∧ FastCacheWithTTL.isExpired c p now = true) ∧
               (∀ q, q ∈ l' ↔ q ∈ l ∧ q ∉ ex) ∧
               (∀ k q, FastCacheWithTTL.cache c' !! k = Some q ↔
                       FastCacheWithTTL.cache c !! k = Some q ∧ q ∉ ex) ∧
               (∀ q, node_data (FastCacheWithTTL.heap c') q
                     = node_data (FastCacheWithTTL.heap c) q) ∧
               config c' = config c ∧
               stats c' = (FastCache.hits (FastCacheWithTTL.base c),
                           FastCache.misses (FastCacheWithTTL.base c),
                           FastCacheWithTTL.expired c + Z.of_nat (length ex)) ∧
               n' = n + Z.of_nat (length ex) ∧
               (size (FastCacheWithTTL.cache c') + length ex)%nat
                 = size (FastCacheWithTTL.cache c) ∧
               match tl' with
               | [] => True
               | p :: _ => FastCacheWithTTL.isExpired c p now = false
               end)).
  { intros _ -> -> Hhd. exists [], l, tl. split; [done|]. split; [done|].
    split; [by intros p ?%elem_of_nil|].
    split; [intros q; split; [intros ?; split; [done|by intros ?%elem_of_nil]|by intros [? _]]|].
    split; [intros k q; split; [intros ?; split; [done|by intros ?%elem_of_nil]|by intros [? _]]|].
    split; [done|]. split; [done|]. split.
    { unfold stats. simpl. do 2 f_equal. lia. }
    split; [simpl; lia|]. split; [simpl; lia|done]. }
  destruct tl as [|p rest]; simpl in Hloop.
  - rewrite decide_True in Hloop by done. injection Hloop as <- <-. by apply (Hstop True).
  - destruct (InvT_mem_tl c l (p :: rest) p Hinv ltac:(by left)) as [_ Hne].
    rewrite decide_False in Hloop by done.
    destruct (FastCacheWithTTL.isExpired c p now) eqn:Hexp;
      [|injection Hloop as <- <-; by apply (Hstop True)].
    clear Hstop.
    destruct (decide (p ∈ l)) as [Hp|Hp].
    2:{ pose proof (cleanup_loop_stale (S fuel) c l p rest now n Hinv Hp Hexp) as Hst.
        simpl in Hst. rewrite decide_False, Hexp in Hst by done. congruence. }
    pose proof (invt_base _ _ _ Hinv) as Hb.
    destruct (invl_live _ _ Hb p Hp) as (k & Hkey & Hk).
    change (FastCache.heap (FastCacheWithTTL.base c)) with (FastCacheWithTTL.heap c) in Hkey.
    change (FastCache.cache (FastCacheWithTTL.base c)) with (FastCacheWithTTL.cache c) in Hk.
    rewrite Hkey in Hloop. simpl in Hloop.
    destruct (ttl_delete_present c l (p :: rest) k p Hinv Hk)
      as (c1 & Hdel & Hinv1 & Hc1 & Hst1 & Hcf1 & Hnd1).
    rewrite Hdel in Hloop. simpl in Hloop.
    assert (Hnr : p ∉ rest).
    { destruct (invt_dll _ _ _ Hinv) as [Hnd _].
      apply NoDup_cons in Hnd as [_ Hnd]. simpl in Hnd.
      apply NoDup_cons in Hnd as [Hnr _]. intros Hin. apply Hnr, elem_of_app. by left. }
    rewrite without_head in Hinv1 by done.
    set (c2 := FastCacheWithTTL.with_expired c1 (FastCacheWithTTL.expired c1 + 1)) in *.
    change (FastCacheWithTTL.timeHead c1) with (FastCacheWithTTL.timeHead c2) in Hloop.
    assert (Hinv2 : InvT c2 (without p l) rest) by (by apply InvT_with_expired).
    destruct (IH c2 (without p l) rest (n + 1) Hinv2 Hloop)
      as (ex & l' & tl' & Hinv' & Htl & Hex & Hl' & Hc' & Hnd' & Hcf' & Hst' & Hn' & Hsz & Hhd).
    assert (Hexp2 : ∀ q, FastCacheWithTTL.isExpired c2 q now
                         = FastCacheWithTTL.isExpired c q now).
    { intros q. apply isExpired_same; [done|apply Hnd1]. }
    exists (p :: ex), l', tl'. split; [done|]. split; [by rewrite Htl|].
    split.
    { intros q [->|Hq]%elem_of_cons; [done|].
      destruct (Hex q Hq) as [[_ Hql]%elem_of_without Hqe]. by rewrite <- Hexp2. }
    split.
    { intros q. rewrite Hl', elem_of_without, not_elem_of_cons. tauto. }
    split.
    { intros k' q. rewrite Hc'.
      change (FastCacheWithTTL.cache c2) with (FastCacheWithTTL.cache c1). rewrite Hc1.
      rewrite lookup_delete_Some, not_elem_of_cons. split.
      - intros [[Hkk Hq] Hqe]. split; [done|]. split; [|done]. intros ->.
        destruct (invl_idx _ _ Hb k' p Hq) as [_ Hkey'].
        change (FastCache.heap (FastCacheWithTTL.base c)) with (FastCacheWithTTL.heap c)
          in Hkey'. congruence.
      - intros [Hq [Hqp Hqe]]. split; [|done]. split; [|done]. intros <-.
        unfold FastCacheWithTTL.cache in *. congruence. }
    split; [intros q; by rewrite Hnd'|]. split; [by rewrite Hcf'|].
    split.
    { rewrite Hst'. unfold stats in Hst1. injection Hst1 as Hh Hm He.
      unfold c2. simpl. rewrite Hh, Hm, He. f_equal. lia. }
    split; [simpl; lia|]. split.
    { change (FastCacheWithTTL.cache c2) with (FastCacheWithTTL.cache c1) in Hsz.
      rewrite Hc1 in Hsz. rewrite map_size_delete_Some in Hsz by (by eexists).
      assert (size (FastCacheWithTTL.cache c) ≠ 0%nat)
        by (apply map_size_ne_0_lookup_2 with k; by eexists).
      simpl. lia. }
    destruct tl' as [|q ?]; [done|]. by rewrite <- Hexp2.
Qed.

(** With no node on the time list that is not on the recency list, the loop
    ends within one iteration per node. *)
Lemma cleanup_loop_returns fuel c l tl now n :
  InvT c l tl → (∀ p, p ∈ tl → p ∈ l) → (length tl < fuel)%nat →
  ∃ r, FastCacheWithTTL.cleanup_loop fuel c now n
         (timeNext (FastCacheWithTTL.heap c (FastCacheWithTTL.timeHead c))) = Ok r.
Proof.
  revert c l tl n. induction fuel as [|fuel IH]; intros c l tl n Hinv Hsub Hlen; [lia|].
  rewrite (time_first c l tl Hinv).
  destruct tl as [|p rest]; simpl.
  - rewrite decide_True by done. by eexists.
  - destruct (InvT_mem_tl c l (p :: rest) p Hinv ltac:(by left)) as [_ Hne].
    rewrite decide_False by done.
    destruct (FastCacheWithTTL.isExpired c p now) eqn:Hexp; [|by eexists].
    pose proof (invt_base _ _ _ Hinv) as Hb.
    destruct (invl_live _ _ Hb p (Hsub p ltac:(by left))) as (k & Hkey & Hk).
    change (FastCache.heap (FastCacheWithTTL.base c)) with (FastCacheWithTTL.heap c) in Hkey.
    change (FastCache.cache (FastCacheWithTTL.base c)) with (FastCacheWithTTL.cache c) in Hk.
    rewrite Hkey. simpl.
    destruct (ttl_delete_present c l (p :: rest) k p Hinv Hk)
      as (c1 & Hdel & Hinv1 & _).
    rewrite Hdel. simpl.
    assert (Hnr : p ∉ rest).
    { destruct (invt_dll _ _ _ Hinv) as [Hnd _].
      apply NoDup_cons in Hnd as [_ Hnd]. simpl in Hnd.
      apply NoDup_cons in Hnd as [Hnr _]. intros Hin. apply Hnr, elem_of_app. by left. }
    rewrite without_head in Hinv1 by done.
    set (c2 := FastCacheWithTTL.with_expired c1 (FastCacheWithTTL.expired c1 + 1)).
    change (FastCacheWithTTL.timeHead c1) with (FastCacheWithTTL.timeHead c2).
    assert (Hinv2 : InvT c2 (without p l) rest) by (by apply InvT_with_expired).
    apply (IH c2 (without p l) rest); [done| |simpl in Hlen; lia].
    intros q Hq. apply elem_of_without. split; [by intros ->|]. apply Hsub. by right.
Qed.
End CleanupLemmas.

(** ** The time list is in the order of the stamps *)

Section TimeOrder.
Context `{Countable K} {V : Type}.
Implicit Types (c : FastCacheWithTTL.t K V) (l tl : list ptr).

Lemma StronglySorted_sublist {A} (R : relation A) (l1 l2 : list A) :
  l1 `sublist_of` l2 → StronglySorted R l2 → StronglySorted R l1.
Proof.
  induction 1 as [|x l1 l2 Hsub IH|x l1 l2 Hsub IH]; intros Hs; [done| |].
  - apply StronglySorted_inv in Hs as [Hs Hall]. constructor; [by apply IH|].
    apply Forall_forall. intros y Hy. rewrite Forall_forall in Hall.
    apply Hall. by apply (sublist_subseteq _ _ Hsub).
  - apply StronglySorted_inv in Hs as [Hs _]. by apply IH.
Qed.

(** What each call does to the time list and to the stamps. *)
Lemma ttl_step_time c l tl op c' o :
  InvT c l tl → TTL.step c op = Ok (c', o) →
  ∃ l' tl',
    InvT c' l' tl' ∧ config c' = config c ∧
    match op with
    | TTL.OpSet k v t =>
        ∃ p, tl' = without p tl ++ [p] ∧
             timestamp (FastCacheWithTTL.heap c' p)
               = Some (if FastCacheWithTTL.ttl c >? 0 then t else 0) ∧
             ∀ q, q ∈ tl → q ≠ p →
                  timestamp (FastCacheWithTTL.heap c' q)
                  = timestamp (FastCacheWithTTL.heap c q)
    | _ =>
        tl' `sublist_of` tl ∧
        ∀ q, timestamp (FastCacheWithTTL.heap c' q) = timestamp (FastCacheWithTTL.heap c q)
    end.
Proof.
  intros Hinv Hstep.
  assert (Hts : ∀ h h' : Heap K V, (∀ q, node_data h' q = node_data h q) →
            ∀ q, timestamp (h' q) = timestamp (h q)).
  { intros h h' Hnd q. specialize (Hnd q). unfold node_data in Hnd. congruence. }
  assert (Hwo : ∀ p, without p tl `sublist_of` tl) by (intros p; apply sublist_filter).
  destruct op as [k now|k v now|k| |k now|fuel now|]; simpl in Hstep.
  - destruct (FastCacheWithTTL.cache c !! k) as [p|] eqn:Hk.
    + destruct (FastCacheWithTTL.isExpired c p now) eqn:Hexp.
      * destruct (ttl_get_expired c l tl k p now Hinv Hk Hexp)
          as (c1 & Hget & Hinv' & _ & _ & Hcf & Hnd).
        rewrite Hget in Hstep. injection Hstep as <- <-.
        do 2 eexists. split; [done|]. split; [done|]. split; [apply Hwo|by apply Hts].
      * destruct (ttl_get_live c l tl k p now Hinv Hk Hexp)
          as (c1 & v & Hget & _ & Hinv' & _ & _ & Hcf & Hnd).
        rewrite Hget in Hstep. injection Hstep as <- <-.
        do 2 eexists. split; [done|]. split; [done|]. split; [done|by apply Hts].
    + rewrite ttl_get_miss in Hstep by done. injection Hstep as <- <-.
      do 2 eexists. split; [by apply InvT_with_misses|]. done.
  - destruct (FastCacheWithTTL.cache c !! k) as [p|] eqn:Hk.
    + destruct (ttl_set_existing c l tl k v p now Hinv Hk)
        as (c1 & Hset & Hinv' & _ & _ & Hcf & Hnd & Hoth).
      rewrite Hset in Hstep. injection Hstep as <- <-.
      do 2 eexists. split; [done|]. split; [done|]. exists p. split; [done|].
      split; [unfold node_data in Hnd; congruence|].
      intros q _ Hq. specialize (Hoth q Hq). unfold node_data in Hoth. congruence.
    + destruct (ttl_set_new c l tl k v now Hinv Hk)
        as (c1 & Hset & _ & Hcf & Hnd & Hold & Hcases).
      rewrite Hset in Hstep. injection Hstep as <- <-.
      set (p := FastCache.nextptr (FastCacheWithTTL.base c)) in *.
      assert (Hfresh : ∀ q, q ∈ tl → (q < p)%nat).
      { intros q Hq. apply (invt_fresh _ _ _ Hinv). right. apply elem_of_app. by left. }
      assert (Hwop : without p tl = tl).
      { apply without_notin. intros Hp. specialize (Hfresh p Hp). lia. }
      assert (Hfin : ∀ l', InvT c1 l' (tl ++ [p]) →
                ∃ l'' tl', InvT c1 l'' tl' ∧ config c1 = config c ∧
                  ∃ p0, tl' = without p0 tl ++ [p0] ∧
                    timestamp (FastCacheWithTTL.heap c1 p0)
                      = Some (if FastCacheWithTTL.ttl c >? 0 then now else 0) ∧
                    ∀ q, q ∈ tl → q ≠ p0 →
                         timestamp (FastCacheWithTTL.heap c1 q)
                         = timestamp (FastCacheWithTTL.heap c q)).
      { intros l' Hinv'. exists l', (tl ++ [p]). split; [done|]. split; [done|].
        exists p. rewrite Hwop. split; [done|].
        split; [unfold node_data in Hnd; congruence|].
        intros q Hq _. specialize (Hold q (Hfresh q Hq)). unfold node_data in Hold.
        congruence. }
      destruct Hcases as [(_ & _ & Hinv')|(_ & l0 & x & kx & _ & _ & _ & _ & Hinv')];
        by apply (Hfin _ Hinv').
  - destruct (FastCacheWithTTL.cache c !! k) as [p|] eqn:Hk.
    + destruct (ttl_delete_present c l tl k p Hinv Hk)
        as (c1 & Hdel & Hinv' & _ & _ & Hcf & Hnd).
      rewrite Hdel in Hstep. injection Hstep as <- <-.
      do 2 eexists. split; [done|]. split; [done|]. split; [apply Hwo|by apply Hts].
    + rewrite ttl_delete_absent in Hstep by done. injection Hstep as <- <-.
      do 2 eexists. split; [done|]. done.
  - injection Hstep as <- <-.
    destruct (ttl_clear_spec c l tl Hinv) as (Hinv' & _ & Hcf & _).
    do 2 eexists. split; [done|]. split; [done|]. split; [apply sublist_nil_l|].
    intros q. unfold FastCacheWithTTL.clear, FastCacheWithTTL.heap. simpl.
    rewrite !upd_spec. by repeat case_match.
  - destruct (FastCacheWithTTL.cache c !! k) as [p|] eqn:Hk.
    + destruct (FastCacheWithTTL.isExpired c p now) eqn:Hexp.
      * destruct (ttl_delete_present c l tl k p Hinv Hk)
          as (c1 & Hdel & Hinv' & _ & _ & Hcf & Hnd).
        unfold FastCacheWithTTL.has in Hstep. rewrite Hk, Hexp, Hdel in Hstep.
        simpl in Hstep. injection Hstep as <- <-.
        do 2 eexists. split; [by apply InvT_with_expired|]. split; [done|].
        split; [apply Hwo|]. by apply Hts.
      * rewrite (ttl_has_live c k p now) in Hstep by done. injection Hstep as <- <-.
        do 2 eexists. split; [done|]. done.
    + rewrite ttl_has_absent in Hstep by done. injection Hstep as <- <-.
      do 2 eexists. split; [done|]. done.
  - unfold FastCacheWithTTL.cleanup in Hstep.
    destruct (FastCacheWithTTL.ttl c =? 0).
    + injection Hstep as <- <-. do 2 eexists. split; [done|]. done.
    + destruct (FastCacheWithTTL.cleanup_loop _ _ _ _ _) as [[c1 n]| |] eqn:Hloop;
        simpl in Hstep; try done. injection Hstep as <- <-.
      destruct (cleanup_loop_post fuel c l tl now 0 c1 n Hinv Hloop)
        as (ex & l' & tl' & Hinv' & -> & _ & _ & _ & Hnd & Hcf & _).
      do 2 eexists. split; [done|]. split; [done|].
      split; [by apply sublist_inserts_l|by apply Hts].
  - injection Hstep as <- <-. do 2 eexists. split; [by apply InvT_destroy|].
    unfold FastCacheWithTTL.destroy. by destruct (FastCacheWithTTL.cleanupTimer c).
Qed.

(** While the clock readings of [set] do not go back, the nodes of the time
    list carry stamps that do not go down from the head to the tail. *)
Lemma ttl_run_ordered c l tl ops c' outs :
  InvT c l tl →
  (∀ p, p ∈ tl → is_Some (timestamp (FastCacheWithTTL.heap c p))) →
  StronglySorted Z.le
    ((stamp (FastCacheWithTTL.heap c) <$> tl) ++
     ((λ t, if FastCacheWithTTL.ttl c >? 0 then t else 0) <$> set_clocks ops)) →
  TTL.run c ops = Ok (c', outs) →
  ∃ l' tl',
    InvT c' l' tl' ∧ config c' = config c ∧
    (∀ p, p ∈ tl' → is_Some (timestamp (FastCacheWithTTL.heap c' p))) ∧
    StronglySorted Z.le (stamp (FastCacheWithTTL.heap c') <$> tl').
Proof.
  revert c l tl c' outs.
  induction ops as [|op ops IH]; intros c l tl c' outs Hinv Hts Hsorted Hrun.
  - injection Hrun as <- <-. exists l, tl. split; [done|]. split; [done|]. split; [done|].
    by apply StronglySorted_app_1_l in Hsorted.
  - simpl in Hrun.
    destruct (TTL.step c op) as [[c1 o]| |] eqn:Hstep; simpl in Hrun; try done.
    destruct (TTL.run c1 ops) as [[c2 os]| |] eqn:Hrun1; simpl in Hrun; try done.
    injection Hrun as <- <-.
    destruct (ttl_step_time c l tl op c1 o Hinv Hstep) as (l1 & tl1 & Hinv1 & Hcf1 & Hop).
    assert (Httl : FastCacheWithTTL.ttl c1 = FastCacheWithTTL.ttl c).
    { unfold config in Hcf1. congruence. }
    assert (Hsame : ∀ tl',
              (∀ q, q ∈ tl' → timestamp (FastCacheWithTTL.heap c1 q)
                              = timestamp (FastCacheWithTTL.heap c q)) →
              stamp (FastCacheWithTTL.heap c1) <$> tl' = stamp (FastCacheWithTTL.heap c) <$> tl').
    { intros tl' Hq. apply list_fmap_ext. intros i q Hi.
      apply list_elem_of_lookup_2 in Hi. unfold stamp. by rewrite Hq. }
    assert (Hnext : (∀ p, p ∈ tl1 → is_Some (timestamp (FastCacheWithTTL.heap c1 p))) ∧
              StronglySorted Z.le
                ((stamp (FastCacheWithTTL.heap c1) <$> tl1) ++
                 ((λ t, if FastCacheWithTTL.ttl c1 >? 0 then t else 0) <$> set_clocks ops))).
    { rewrite Httl.
      assert (Hother : set_clocks (op :: ops) = set_clocks ops →
                tl1 `sublist_of` tl →
                (∀ q, timestamp (FastCacheWithTTL.heap c1 q)
                      = timestamp (FastCacheWithTTL.heap c q)) →
                (∀ p, p ∈ tl1 → is_Some (timestamp (FastCacheWithTTL.heap c1 p))) ∧
                StronglySorted Z.le
                  ((stamp (FastCacheWithTTL.heap c1) <$> tl1) ++
                   ((λ t, if FastCacheWithTTL.ttl c >? 0 then t else 0) <$> set_clocks ops))).
      { intros Hcl Hsub Heq. rewrite Hcl in Hsorted. split.
        - intros p Hp. rewrite Heq. by apply Hts, (sublist_subseteq _ _ Hsub).
        - rewrite Hsame by (intros; apply Heq).
          refine (StronglySorted_sublist _ _ _ _ Hsorted).
          apply sublist_app; [|done]. by apply fmap_sublist. }
      destruct op as [k now|k v now|k| |k now|fuel now|];
        [destruct Hop; by apply Hother| |destruct Hop; by apply Hother..].
      destruct Hop as (p & -> & Hp & Hoth). split.
      - intros q [[Hne Hq]%elem_of_without| ->%list_elem_of_singleton]%elem_of_app.
        + rewrite Hoth by done. by apply Hts.
        + by rewrite Hp.
      - rewrite fmap_app, <- app_assoc. simpl.
        rewrite Hsame by (intros q [Hne Hq]%elem_of_without; by apply Hoth).
        unfold stamp at 2. rewrite Hp. simpl.
        refine (StronglySorted_sublist _ _ _ _ Hsorted).
        apply sublist_app; [|done]. apply fmap_sublist, sublist_filter. }
    destruct Hnext as [Hts1 Hsorted1].
    destruct (IH c1 l1 tl1 c2 os Hinv1 Hts1 Hsorted1 Hrun1)
      as (l2 & tl2 & Hinv2 & Hcf2 & Hts2 & Hs2).
    exists l2, tl2. split; [done|]. split; [congruence|]. done.
Qed.
End TimeOrder.

(** ** A cache that never has to evict *)

Section NoEviction.
Context `{Countable K} {V : Type}.
Implicit Types (c : FastCacheWithTTL.t K V) (l tl : list ptr) (KS : gset K).

(** While the index holds keys of [KS] only, with [KS] no larger than the
    capacity, every call leaves on the time list the nodes of the recency
    list and no other; [cleanup] returns within [maxSize] iterations. *)
Lemma ttl_step_no_eviction c l tl KS op :
  InvT c l tl → (∀ p, p ∈ tl → p ∈ l) →
  dom (FastCacheWithTTL.cache c) ⊆ KS →
  Z.of_nat (size KS) ≤ FastCacheWithTTL.capacity c →
  (∀ k v now, op = TTL.OpSet k v now → k ∈ KS) →
  (∀ fuel now, op = TTL.OpCleanup fuel now → FastCacheWithTTL.capacity c < Z.of_nat fuel) →
  ∃ c' o l' tl',
    TTL.step c op = Ok (c', o) ∧ InvT c' l' tl' ∧ (∀ p, p ∈ tl' → p ∈ l') ∧
    dom (FastCacheWithTTL.cache c') ⊆ KS ∧ config c' = config c.
Proof.
  intros Hinv Hsub Hdom Hcap Hset Hfuel.
  assert (Hwo : ∀ p q, q ∈ without p tl → q ∈ without p l).
  { intros p q [Hne Hq]%elem_of_without. apply elem_of_without. auto. }
  assert (Hmv : ∀ p q, q ∈ tl → q ∈ p :: without p l).
  { intros p q Hq. destruct (decide (q = p)) as [->|Hne]; [by left|].
    right. apply elem_of_without. auto. }
  assert (Hdel : ∀ k, dom (delete k (FastCacheWithTTL.cache c)) ⊆ KS).
  { intros k. rewrite dom_delete. set_solver. }
  destruct op as [k now|k v now|k| |k now|fuel now|]; simpl.
  - destruct (FastCacheWithTTL.cache c !! k) as [p|] eqn:Hk.
    + destruct (FastCacheWithTTL.isExpired c p now) eqn:Hexp.
      * destruct (ttl_get_expired c l tl k p now Hinv Hk Hexp)
          as (c' & -> & Hinv' & Hc' & _ & Hcf & _). simpl.
        do 4 eexists. split; [done|]. split; [done|]. split; [apply Hwo|].
        split; [by rewrite Hc'|done].
      * destruct (ttl_get_live c l tl k p now Hinv Hk Hexp)
          as (c' & v & -> & _ & Hinv' & Hc' & _ & Hcf & _). simpl.
        do 4 eexists. split; [done|]. split; [done|]. split; [apply Hmv|].
        split; [by rewrite Hc'|done].
    + rewrite ttl_get_miss by done. simpl.
      do 4 eexists. split; [done|]. split; [by apply InvT_with_misses|]. done.
  - destruct (FastCacheWithTTL.cache c !! k) as [p|] eqn:Hk.
    + destruct (ttl_set_existing c l tl k v p now Hinv Hk)
        as (c' & -> & Hinv' & Hc' & _ & Hcf & _). simpl.
      do 4 eexists. split; [done|]. split; [done|]. split.
      { intros q [[Hne Hq]%elem_of_without| ->%list_elem_of_singleton]%elem_of_app;
          [by apply Hmv|by left]. }
      split; [by rewrite Hc'|done].
    + destruct (ttl_set_new c l tl k v now Hinv Hk)
        as (c' & -> & _ & Hcf & _ & _ & Hcases). simpl.
      assert (Hlt : Z.of_nat (size (FastCacheWithTTL.cache c)) < FastCacheWithTTL.capacity c).
      { assert (HkKS : k ∈ KS) by (by apply (Hset k v now)).
        assert (Hd : dom (FastCacheWithTTL.cache c) ⊆ KS ∖ {[k]}).
        { apply not_elem_of_dom in Hk. set_solver. }
        apply subseteq_size in Hd. rewrite size_dom in Hd.
        assert (size (KS ∖ {[k]}) < size KS)%nat; [|lia].
        apply subset_size. set_solver. }
      unfold FastCacheWithTTL.capacity in Hlt.
      destruct Hcases as [(_ & Hc' & Hinv')|(Hge & _)]; [|lia].
      do 4 eexists. split; [done|]. split; [done|]. split.
      { intros q [Hq| ->%list_elem_of_singleton]%elem_of_app; [right; by apply Hsub|by left]. }
      split; [|done]. rewrite Hc', dom_insert.
      assert (k ∈ KS) by (by apply (Hset k v now)). set_solver.
  - destruct (FastCacheWithTTL.cache c !! k) as [p|] eqn:Hk.
    + destruct (ttl_delete_present c l tl k p Hinv Hk)
        as (c' & -> & Hinv' & Hc' & _ & Hcf & _).
      do 4 eexists. split; [done|]. split; [done|]. split; [apply Hwo|].
      split; [by rewrite Hc'|done].
    + rewrite ttl_delete_absent by done. do 4 eexists. split; [done|]. done.
  - destruct (ttl_clear_spec c l tl Hinv) as (Hinv' & _ & Hcf & Hc').
    do 4 eexists. split; [done|]. split; [done|]. split; [done|].
    split; [|done]. rewrite Hc', dom_empty. set_solver.
  - destruct (FastCacheWithTTL.cache c !! k) as [p|] eqn:Hk.
    + destruct (FastCacheWithTTL.isExpired c p now) eqn:Hexp.
      * destruct (ttl_has_expired c l tl k p now Hinv Hk Hexp)
          as (c' & -> & Hinv' & Hc' & _ & Hcf).
        do 4 eexists. split; [done|]. split; [done|]. split; [apply Hwo|].
        split; [by rewrite Hc'|done].
      * rewrite (ttl_has_live c k p now) by done. do 4 eexists. split; [done|]. done.
    + rewrite ttl_has_absent by done. do 4 eexists. split; [done|]. done.
  - unfold FastCacheWithTTL.cleanup.
    destruct (FastCacheWithTTL.ttl c =? 0); simpl;
      [do 4 eexists; split; [done|]; done|].
    assert (Hlen : (length tl < fuel)%nat).
    { pose proof (InvL_size _ l (invt_base _ _ _ Hinv)) as Hsz.
      pose proof (invl_size _ _ (invt_base _ _ _ Hinv)) as Hle.
      specialize (Hfuel fuel now eq_refl). unfold FastCacheWithTTL.capacity in Hfuel.
      assert (length tl ≤ length l)%nat; [|lia].
      apply submseteq_length, NoDup_submseteq; [|done].
      destruct (invt_dll _ _ _ Hinv) as [Hnd _].
      apply NoDup_cons in Hnd as [_ Hnd]. by apply NoDup_app in Hnd as [? _]. }
    destruct (cleanup_loop_returns fuel c l tl now 0 Hinv Hsub Hlen) as [[c' n] Hloop].
    destruct (cleanup_loop_post fuel c l tl now 0 c' n Hinv Hloop)
      as (ex & l' & tl' & Hinv' & Htl & _ & Hl' & Hc' & _ & Hcf & _).
    rewrite Hloop. simpl. do 4 eexists. split; [done|]. split; [done|].
    split.
    { intros q Hq. apply Hl'. split.
      - apply Hsub. rewrite Htl. apply elem_of_app. by right.
      - destruct (invt_dll _ _ _ Hinv) as [Hnd _].
        apply NoDup_cons in Hnd as [_ Hnd]. apply NoDup_app in Hnd as [Hnd _].
        rewrite Htl in Hnd. apply NoDup_app in Hnd as (_ & Hdis & _).
        intros Hqe. by apply (Hdis q). }
    split; [|done]. intros k Hk. apply Hdom.
    apply elem_of_dom in Hk as [q Hq]. apply Hc' in Hq as [Hq _].
    apply elem_of_dom. by eexists.
  - do 4 eexists. split; [done|]. split; [by apply InvT_destroy|].
    split; [done|].
    unfold FastCacheWithTTL.destroy. by destruct (FastCacheWithTTL.cleanupTimer c).
Qed.

Lemma ttl_run_no_eviction c l tl KS ops :
  InvT c l tl → (∀ p, p ∈ tl → p ∈ l) →
  dom (FastCacheWithTTL.cache c) ⊆ KS →
  Z.of_nat (size KS) ≤ FastCacheWithTTL.capacity c →
  set_keys ops ⊆ KS →
  (∀ fuel now, TTL.OpCleanup fuel now ∈ ops → FastCacheWithTTL.capacity c < Z.of_nat fuel) →
  ∃ c' outs l' tl',
    TTL.run c ops = Ok (c', outs) ∧ InvT c' l' tl' ∧ (∀ p, p ∈ tl' → p ∈ l').
Proof.
  revert c l tl. induction ops as [|op ops IH]; intros c l tl Hinv Hsub Hdom Hcap Hks Hfuel.
  - by exists c, [], l, tl.
  - destruct (ttl_step_no_eviction c l tl KS op Hinv Hsub Hdom Hcap)
      as (c1 & o & l1 & tl1 & Hstep & Hinv1 & Hsub1 & Hdom1 & Hcf1).
    { intros k v now ->. apply Hks. unfold set_keys. simpl. set_solver. }
    { intros fuel now ->. apply (Hfuel fuel now). by left. }
    assert (Hcap1 : FastCacheWithTTL.capacity c1 = FastCacheWithTTL.capacity c).
    { unfold config, FastCacheWithTTL.capacity in *. congruence. }
    destruct (IH c1 l1 tl1 Hinv1 Hsub1 Hdom1) as (c2 & os & l2 & tl2 & Hrun & Hinv2 & Hsub2).
    { by rewrite Hcap1. }
    { intros k Hk. apply Hks. unfold set_keys in *. simpl.
      destruct op; simpl; set_solver. }
    { intros fuel now Hin. rewrite Hcap1. apply (Hfuel fuel now). by right. }
    exists c2, (o :: os), l2, tl2. simpl. rewrite Hstep. simpl. rewrite Hrun. done.
Qed.
End NoEviction.

(** ** Batch calls *)

Section BatchView.
Context `{Countable K} {V : Type}.
Implicit Types (s : FastCache.t K V) (l : list ptr) (m : list (K * V)).

Lemma assoc_drop_key_ne k k' m : k' ≠ k → assoc k' (drop_key k m) = assoc k' m.
Proof.
  intros Hne. unfold drop_key. induction m as [|e m IH]; [done|].
  destruct (decide (e.1 = k)) as [Heq|Hek].
  - rewrite filter_cons_False by (intros Hn; by apply Hn). simpl.
    rewrite decide_False by congruence. done.
  - rewrite filter_cons_True by done. simpl. by rewrite IH.
Qed.

Lemma view_run_cons capacity m op ops :
  (view_run capacity m (op :: ops)).1
  = (view_run capacity (view_step capacity m op).1 ops).1.
Proof.
  cbn [view_run]. destruct (view_step capacity m op) as [m1 o].
  cbn [fst]. by destruct (view_run capacity m1 ops).
Qed.

(** A [get] leaves every key with the value it had. *)
Lemma assoc_view_get capacity k k' m :
  assoc k' (view_step capacity m (LRU.OpGet k)).1 = assoc k' m.
Proof.
  simpl. destruct (assoc k m) as [v|] eqn:Hk; [|done]. simpl.
  destruct (decide (k = k')) as [<-|Hne]; [done|].
  by apply assoc_drop_key_ne.
Qed.

(** [getMany] is the [get] of each key in turn; its result holds the value
    of each key asked for that the cache had with a value other than
    [undefined]. *)
Lemma getMany_view `{!Undefinable V} s l m keys (acc : gmap K V) :
  InvL s l → entries_of (FastCache.heap s) l = shown m →
  ∃ s' l' r,
    foldl (λ a k,
             '(s', result) ← a;
             '(s'', v) ← FastCache.get s' k;
             Ok (s'', match v with
                      | Some x => if is_undefined x then result else <[k := x]> result
                      | None => result
                      end))
          (Ok (s, acc)) keys = Ok (s', r) ∧
    InvL s' l' ∧ FastCache.maxSize s' = FastCache.maxSize s ∧
    entries_of (FastCache.heap s') l'
      = shown (view_run (FastCache.maxSize s) m (LRU.OpGet <$> keys)).1 ∧
    ∀ k, r !! k = match (if decide (k ∈ keys)
                         then v ← assoc k m; if is_undefined v then None else Some v
                         else None) with
                  | Some v => Some v
                  | None => acc !! k
                  end.
Proof.
  revert s l m acc. induction keys as [|k ks IH]; intros s l m acc Hinv Hm.
  - exists s, l, acc. split; [done|]. split; [done|]. split; [done|]. split; [done|].
    intros k. rewrite decide_False by (by intros ?%elem_of_nil). done.
  - destruct (lru_step_view s l m (LRU.OpGet k) Hinv Hm)
      as (s1 & l1 & Hstep & Hinv1 & Hmax1 & Hm1).
    pose proof (assoc_view_get (FastCache.maxSize s) k) as Hsame.
    simpl in Hstep.
    destruct (FastCache.get s k) as [[s1' v]| |] eqn:Hget; simpl in Hstep; try done.
    assert (s1' = s1 ∧ v = assoc k m) as [-> ->].
    { destruct (assoc k m); simpl in Hstep; injection Hstep as -> ->; done. }
    set (m1 := (view_step (FastCache.maxSize s) m (LRU.OpGet k)).1) in *.
    set (rk := v ← assoc k m; if is_undefined v then None else Some v).
    destruct (IH s1 l1 m1 (match rk with Some x => <[k := x]> acc | None => acc end)
                Hinv1 Hm1)
      as (s2 & l2 & r & Hfold & Hinv2 & Hmax2 & Hm2 & Hr).
    exists s2, l2, r. split.
    { simpl. rewrite Hget. simpl.
      replace (match assoc k m with
               | Some x => if is_undefined x then acc else <[k := x]> acc
               | None => acc
               end)
        with (match rk with Some x => <[k := x]> acc | None => acc end); [exact Hfold|].
      unfold rk. destruct (assoc k m) as [x|]; simpl; [|done].
      by destruct (is_undefined x). }
    split; [done|]. split; [congruence|]. split.
    { by rewrite Hm2, Hmax1, fmap_cons, view_run_cons. }
    intros k'. rewrite Hr. unfold m1. rewrite Hsame.
    destruct (decide (k' = k)) as [->|Hne].
    + rewrite (decide_True (P := k ∈ k :: ks)) by (by left). fold rk.
      destruct (decide (k ∈ ks)); destruct rk as [v|] eqn:Hk; try done.
      by rewrite lookup_insert_eq.
    + destruct (decide (k' ∈ ks)) as [Hin|Hin].
      * rewrite (decide_True (P := k' ∈ k :: ks)) by (by right).
        destruct (_ ← assoc k' m; _); [done|].
        destruct rk; [by rewrite lookup_insert_ne|done].
      * rewrite (decide_False (P := k' ∈ k :: ks))
          by (intros [?|?]%elem_of_cons; done).
        destruct rk; [by rewrite lookup_insert_ne|done].
Qed.
End BatchView.

(** ** Batch calls on the TTL cache *)

Section TTLBatchView.
Context `{Countable K} {V : Type}.
Implicit Types (c : FastCacheWithTTL.t K V) (l tl : list ptr) (m : list (K * V * Z)).

Lemma tassoc_drop_key_ne k k' m : k' ≠ k → tassoc k' (tdrop_key k m) = tassoc k' m.
Proof.
  intros Hne. unfold tdrop_key. induction m as [|e m IH]; [done|].
  destruct (decide (e.1.1 = k)) as [Heq|Hek].
  - rewrite filter_cons_False by (intros Hn; by apply Hn). simpl.
    rewrite decide_False by congruence. done.
  - rewrite filter_cons_True by done. simpl. by rewrite IH.
Qed.

Lemma tassoc_drop_key_eq k m : tassoc k (tdrop_key k m) = None.
Proof.
  unfold tdrop_key. induction m as [|e m IH]; [done|].
  destruct (decide (e.1.1 = k)) as [Heq|Hek].
  - by rewrite filter_cons_False by (intros Hn; by apply Hn).
  - rewrite filter_cons_True by done. simpl. by rewrite decide_False.
Qed.

(** What a [get] at time [now] returns, and that a [get] at that time leaves
    it the same for every key. *)
Lemma tview_get_live ttl capacity m e k now :
  ∃ m1 e1,
    tview_step ttl capacity (m, e) (TTL.OpGet k now)
      = Some (m1, e1,
              TTL.RGet ('(v, ts) ← tassoc k m; if stale ttl now ts then None else Some v)) ∧
    ∀ k', ('(v, ts) ← tassoc k' m1; if stale ttl now ts then None else Some v)
          = ('(v, ts) ← tassoc k' m; if stale ttl now ts then None else Some v).
Proof.
  simpl. destruct (tassoc k m) as [[v ts]|] eqn:Hk; simpl.
  - destruct (stale ttl now ts) eqn:Hst.
    + do 2 eexists. split; [done|]. intros k'.
      destruct (decide (k' = k)) as [->|Hne].
      * rewrite tassoc_drop_key_eq, Hk. simpl. by rewrite Hst.
      * by rewrite tassoc_drop_key_ne.
    + do 2 eexists. split; [done|]. intros k'. simpl.
      destruct (decide (k = k')) as [<-|Hne]; [by rewrite Hk|].
      by rewrite tassoc_drop_key_ne.
  - by do 2 eexists.
Qed.

Lemma ttl_getMany_view `{!Undefinable V} c l tl m keys now (acc : gmap K V) :
  InvT c l tl → node_data (FastCacheWithTTL.heap c) <$> l = tshown m →
  ∃ c' r,
    foldl (λ a k,
             '(c', result) ← a;
             '(c'', v) ← FastCacheWithTTL.get c' k.1 k.2;
             Ok (c'', match v with
                      | Some x => if is_undefined x then result else <[k.1 := x]> result
                      | None => result
                      end))
          (Ok (c, acc)) ((λ k, (k, now)) <$> keys) = Ok (c', r) ∧
    ∀ k, r !! k =
         match (if decide (k ∈ keys)
                then '(v, ts) ← tassoc k m;
                     if stale (FastCacheWithTTL.ttl c) now ts || is_undefined v
                     then None else Some v
                else None) with
         | Some v => Some v
         | None => acc !! k
         end.
Proof.
  revert c l tl m acc. induction keys as [|k ks IH]; intros c l tl m acc Hinv Hm.
  - exists c, acc. split; [done|].
    intros k. rewrite decide_False by (by intros ?%elem_of_nil). done.
  - destruct (tview_get_live (FastCacheWithTTL.ttl c) (FastCacheWithTTL.capacity c)
                m (FastCacheWithTTL.expired c) k now) as (m1 & e1 & Hview & Hsame).
    destruct (ttl_step_view c l tl m _ m1 e1 _ Hinv Hm Hview)
      as (c1 & l1 & tl1 & Hstep & Hinv1 & Hcf1 & Hm1 & _).
    assert (Httl : FastCacheWithTTL.ttl c1 = FastCacheWithTTL.ttl c).
    { unfold config in Hcf1. congruence. }
    assert (Hseen : ∀ m' k',
              ('(v, ts) ← tassoc k' m';
               if stale (FastCacheWithTTL.ttl c) now ts || is_undefined v
               then None else Some v)
              = (v ← ('(v, ts) ← tassoc k' m';
                      if stale (FastCacheWithTTL.ttl c) now ts then None else Some v);
                 if is_undefined v then None else Some v)).
    { intros m' k'. destruct (tassoc k' m') as [[v ts]|]; simpl; [|done].
      by destruct (stale _ now ts). }
    set (gk := '(v, ts) ← tassoc k m;
               if stale (FastCacheWithTTL.ttl c) now ts then None else Some v) in *.
    set (rk := v ← gk; if is_undefined v then None else Some v).
    simpl in Hstep.
    destruct (FastCacheWithTTL.get c k now) as [[c1' v]| |] eqn:Hget;
      simpl in Hstep; try done.
    injection Hstep as -> ->.
    destruct (IH c1 l1 tl1 m1 (match rk with Some x => <[k := x]> acc | None => acc end)
                Hinv1 Hm1) as (c2 & r & Hfold & Hr).
    exists c2, r. split.
    { rewrite fmap_cons. simpl. rewrite Hget. simpl.
      replace (match gk with
               | Some x => if is_undefined x then acc else <[k := x]> acc
               | None => acc
               end)
        with (match rk with Some x => <[k := x]> acc | None => acc end); [exact Hfold|].
      unfold rk. destruct gk as [x|]; simpl; [|done]. by destruct (is_undefined x). }
    intros k'. rewrite Hr, Httl, !Hseen, Hsame.
    destruct (decide (k' = k)) as [->|Hne].
    + rewrite (decide_True (P := k ∈ k :: ks)) by (by left). fold gk. fold rk.
      destruct (decide (k ∈ ks)); destruct rk as [v|] eqn:Hk; try done.
      by rewrite lookup_insert_eq.
    + destruct (decide (k' ∈ ks)) as [Hin|Hin].
      * rewrite (decide_True (P := k' ∈ k :: ks)) by (by right).
        destruct (_ ← (_ ← tassoc k' m; _); _); [done|].
        destruct rk; [by rewrite lookup_insert_ne|done].
      * rewrite (decide_False (P := k' ∈ k :: ks))
          by (intros [?|?]%elem_of_cons; done).
        destruct rk; [by rewrite lookup_insert_ne|done].
Qed.

(** A sequence of [set] calls is always in the view. *)
Lemma tview_run_sets ttl capacity m e (entries : list (K * V * Z)) :
  ∃ m' outs,
    tview_run ttl capacity (m, e) ((λ x, TTL.OpSet x.1.1 x.1.2 x.2) <$> entries)
      = Some (m', e, outs).
Proof.
  revert m. induction entries as [|x xs IH]; intros m; [by exists m, []|].
  rewrite fmap_cons. cbn [tview_run tview_step].
  destruct (IH (if decide (x.1.1 ∈ m.*1.*1) then (x.1.1, x.1.2, if ttl >? 0 then x.2 else 0)
                                                   :: tdrop_key x.1.1 m
                else (x.1.1, x.1.2, if ttl >? 0 then x.2 else 0)
                     :: (if Z.of_nat (length m) >=? capacity then removelast m else m)))
    as (m' & outs & ->).
  by do 2 eexists.
Qed.
End TTLBatchView.

(** ** The timer of automatic cleanup *)

Section Timer.
Context `{Countable K} {V : Type}.
Implicit Types (c : FastCacheWithTTL.t K V).

Lemma delete_timer c k :
  FastCacheWithTTL.cleanupTimer (FastCacheWithTTL.delete c k).1
    = FastCacheWithTTL.cleanupTimer c ∧
  FastCacheWithTTL.autoCleanup (FastCacheWithTTL.delete c k).1
    = FastCacheWithTTL.autoCleanup c.
Proof.
  unfold FastCacheWithTTL.delete.
  destruct (FastCacheWithTTL.cache c !! k); [|done].
  by destruct (FastCache.delete _ k).
Qed.

Lemma cleanup_loop_timer fuel c now n cur c' n' :
  FastCacheWithTTL.cleanup_loop fuel c now n cur = Ok (c', n') →
  FastCacheWithTTL.cleanupTimer c' = FastCacheWithTTL.cleanupTimer c ∧
  FastCacheWithTTL.autoCleanup c' = FastCacheWithTTL.autoCleanup c.
Proof.
  revert c n cur. induction fuel as [|fuel IH]; intros c n cur Hloop; [done|].
  simpl in Hloop. destruct cur as [node|]; [|by injection Hloop as <- <-].
  destruct (decide (node = FastCacheWithTTL.timeTail c)); [by injection Hloop as <- <-|].
  destruct (FastCacheWithTTL.isExpired c node now); [|by injection Hloop as <- <-].
  apply IH in Hloop as [-> ->]. simpl.
  unfold FastCacheWithTTL.delete_key_of.
  destruct (key _) as [k|]; [apply delete_timer|done].
Qed.

(** Of all calls only [destroy] touches the timer. *)
Lemma ttl_step_timer c op c' o :
  TTL.step c op = Ok (c', o) →
  FastCacheWithTTL.autoCleanup c' = FastCacheWithTTL.autoCleanup c ∧
  FastCacheWithTTL.cleanupTimer c'
    = match op with
      | TTL.OpDestroy => None
      | _ => FastCacheWithTTL.cleanupTimer c
      end.
Proof.
  destruct op as [k now|k v now|k| |k now|fuel now|]; simpl; intros Hstep.
  - unfold FastCacheWithTTL.get in Hstep.
    destruct (FastCacheWithTTL.cache c !! k) as [p|]; [|by injection Hstep as <- <-].
    destruct (FastCacheWithTTL.isExpired c p now).
    + injection Hstep as <- <-. simpl. destruct (delete_timer c k) as [-> ->]. done.
    + destruct (FastCache.get _ k) as [[b v]| |]; simpl in Hstep; try done.
      by injection Hstep as <- <-.
  - unfold FastCacheWithTTL.set in Hstep.
    destruct (FastCache.set _ k v) as [b| |]; simpl in Hstep; try done.
    destruct (FastCacheWithTTL.cache _ !! k) as [node|]; [|done].
    unfold FastCacheWithTTL._moveToTimeListTail, FastCacheWithTTL._addToTimeListTail in Hstep.
    destruct (FastCacheWithTTL.cache c !! k);
      destruct (timePrev _); simpl in Hstep; try done; by injection Hstep as <- <-.
  - destruct (FastCacheWithTTL.delete c k) as [c1 r] eqn:Hdel.
    injection Hstep as <- <-. destruct (delete_timer c k) as [Ht Ha].
    rewrite Hdel in Ht, Ha. by split.
  - by injection Hstep as <- <-.
  - unfold FastCacheWithTTL.has in Hstep.
    destruct (FastCacheWithTTL.cache c !! k) as [p|]; [|by injection Hstep as <- <-].
    destruct (FastCacheWithTTL.isExpired c p now); [|by injection Hstep as <- <-].
    injection Hstep as <- <-. simpl. destruct (delete_timer c k) as [-> ->]. done.
  - unfold FastCacheWithTTL.cleanup in Hstep.
    destruct (FastCacheWithTTL.ttl c =? 0); [by injection Hstep as <- <-|].
    destruct (FastCacheWithTTL.cleanup_loop _ _ _ _ _) as [[c1 n]| |] eqn:Hloop;
      simpl in Hstep; try done.
    injection Hstep as <- <-. apply cleanup_loop_timer in Hloop as [-> ->]. done.
  - injection Hstep as <- <-. unfold FastCacheWithTTL.destroy.
    by destruct (FastCacheWithTTL.cleanupTimer c) eqn:Ht.
Qed.

Lemma ttl_run_timer c ops c' outs :
  TTL.run c ops = Ok (c', outs) →
  FastCacheWithTTL.autoCleanup c' = FastCacheWithTTL.autoCleanup c ∧
  (FastCacheWithTTL.cleanupTimer c = None → FastCacheWithTTL.cleanupTimer c' = None) ∧
  (TTL.OpDestroy ∈ ops → FastCacheWithTTL.cleanupTimer c' = None) ∧
  (TTL.OpDestroy ∉ ops →
   FastCacheWithTTL.cleanupTimer c' = FastCacheWithTTL.cleanupTimer c).
Proof.
  revert c c' outs. induction ops as [|op ops IH]; intros c c' outs Hrun.
  - injection Hrun as <- <-. split; [done|]. split; [done|].
    split; [by intros ?%elem_of_nil|done].
  - simpl in Hrun.
    destruct (TTL.step c op) as [[c1 o]| |] eqn:Hstep; simpl in Hrun; try done.
    destruct (TTL.run c1 ops) as [[c2 os]| |] eqn:Hrun1; simpl in Hrun; try done.
    injection Hrun as <- <-.
    destruct (ttl_step_timer c op c1 o Hstep) as [Ha1 Ht1].
    destruct (IH c1 c2 os Hrun1) as (Ha2 & Hn & Hd & Hnd).
    split; [congruence|]. split; [|split].
    + intros Hc. apply Hn. rewrite Ht1. by destruct op.
    + intros [<-|Hin]%elem_of_cons; [by apply Hn|by apply Hd].
    + intros Hnin. apply not_elem_of_cons in Hnin as [Hne Hnin].
      rewrite (Hnd Hnin), Ht1. by destruct op.
Qed.
End Timer.

(** X1.  The LRU core behaves as the list of its pairs, most recently used
    first: for every capacity [c > 0] and every sequence of calls on a fresh
    [FastCache], each call returns what the list says ([get] the value last
    set for the key, if the key was neither deleted nor evicted since), and
    afterwards the recency list holds, from head to tail, exactly the pairs of
    the list. *)
Theorem X1_lru_client_view `{Countable K} {V : Type} (c : Z) (ops : list (LRU.Op K V)) :
  0 < c →
  ∃ s,
    (s0 ← FastCache.new c; LRU.run s0 ops) = Ok (s, (view_run c [] ops).2) ∧
    lru_entries s = Some (shown (view_run c [] ops).1).
Proof.
  intros Hc.
  destruct (new_spec (K:=K) (V:=V) c Hc) as (s0 & Hnew & Hinv0 & Hmax0 & _).
  rewrite Hnew. simpl.
  destruct (lru_run_view s0 [] [] ops Hinv0 eq_refl) as (s & l & Hrun & Hinv & _ & Hres).
  rewrite Hmax0 in Hrun, Hres. exists s. split; [done|].
  by apply (lru_entries_shown s l).
Qed.

Lemma X1_lru_client_view_witness :
  0 < 2 ∧
  ∃ s : FastCache.t string Z,
    (s0 ← FastCache.new 2;
     LRU.run s0 [LRU.OpSet "a" 1; LRU.OpSet "b" 2; LRU.OpGet "a"; LRU.OpSet "c" 3;
                 LRU.OpGet "b"])
      = Ok (s, [LRU.RSet; LRU.RSet; LRU.RGet (Some 1); LRU.RSet; LRU.RGet None]) ∧
    lru_entries s = Some [(Some "c", Some 3); (Some "a", Some 1)].
Proof.
  split; [lia|].
  exact (X1_lru_client_view (K:=string) (V:=Z) 2
           [LRU.OpSet "a" 1; LRU.OpSet "b" 2; LRU.OpGet "a"; LRU.OpSet "c" 3;
            LRU.OpGet "b"] ltac:(lia)).
Defined.

(** X2.  The TTL cache behaves as the list of its entries, most recently used
    first, each with the clock reading of its last [set]: for every sequence
    of calls of [get], [set], [delete], [clear], [has] and [destroy] on a
    fresh [FastCacheWithTTL] (and of [cleanup], if the cache has no [ttl]),
    each call returns what the list says, an entry being gone once a [get] or
    a [has] finds it older than [ttl]; afterwards the recency list holds
    exactly the entries of the list, and [getStats] reports as [expired] the
    number of entries so found since the last [clear]. *)
Theorem X2_ttl_client_view `{Countable K} {V : Type}
    (options : CacheOptions) (ops : list (TTL.Op K V))
    (m : list (K * V * Z)) (e : Z) (outs : list (TTL.Out V)) :
  0 < opt_maxSize options → (∀ t, opt_ttl options = Some t → 0 < t) →
  tview_run (default 0 (opt_ttl options)) (opt_maxSize options) ([], 0) ops
    = Some (m, e, outs) →
  ∃ c,
    (c0 ← FastCacheWithTTL.new options; TTL.run c0 ops) = Ok (c, outs) ∧
    ttl_entries c = Some (tshown m) ∧
    stat_expired (FastCacheWithTTL.getStats c) = Some e.
Proof.
  intros Hmax Httl Hview.
  destruct (proj2 (ttl_new_ok_iff (K:=K) (V:=V) options) (conj Hmax Httl)) as [c0 Hnew].
  destruct (ttl_new_spec options c0 Hnew) as (Hinv0 & Hst0 & _ & Hcf0).
  rewrite Hnew. simpl.
  unfold config in Hcf0. injection Hcf0 as Ht Hc. injection Hst0 as _ _ He.
  destruct (ttl_run_view c0 [] [] [] ops m e outs Hinv0 eq_refl)
    as (c & l & tl & Hrun & Hinv & _ & Hm & Hexp).
  { unfold FastCacheWithTTL.capacity. by rewrite Ht, Hc, He. }
  exists c. split; [done|]. split; [by apply (ttl_entries_shown c l tl)|].
  simpl. by rewrite Hexp.
Qed.

Lemma X2_ttl_client_view_witness :
  0 < 2 ∧
  ∃ c : FastCacheWithTTL.t string Z,
    (c0 ← FastCacheWithTTL.new (mkOptions 2 (Some 100) None None);
     TTL.run c0 [TTL.OpSet "a" 1 0; TTL.OpSet "b" 2 30; TTL.OpGet "a" 100;
                 TTL.OpHas "a" 101; TTL.OpSet "c" 3 110; TTL.OpSet "d" 4 120;
                 TTL.OpGet "b" 125])
      = Ok (c, [TTL.RSet; TTL.RSet; TTL.RGet (Some 1); TTL.RHas false; TTL.RSet;
                TTL.RSet; TTL.RGet None]) ∧
    ttl_entries c = Some [(Some "d", Some 4, Some 120); (Some "c", Some 3, Some 110)] ∧
    stat_expired (FastCacheWithTTL.getStats c) = Some 1.
Proof.
  split; [lia|].
  apply (X2_ttl_client_view (K:=string) (V:=Z) (mkOptions 2 (Some 100) None None)
           [TTL.OpSet "a" 1 0; TTL.OpSet "b" 2 30; TTL.OpGet "a" 100;
            TTL.OpHas "a" 101; TTL.OpSet "c" 3 110; TTL.OpSet "d" 4 120;
            TTL.OpGet "b" 125]
           [("d", 4, 120); ("c", 3, 110)] 1).
  - simpl. lia.
  - simpl. intros t Ht. injection Ht as <-. lia.
  - vm_compute. reflexivity.
Defined.

(** X3.  A [FastCacheWithTTL] made without [ttl] answers as a [FastCache] of
    the same capacity: every sequence of calls returns, [get], [set],
    [delete], [clear] and [has] return what the same calls return on the
    [FastCache], whatever the clock readings, every [cleanup] returns [0],
    the two recency lists hold the same keys and values in the same order,
    and [expired] stays [0]. *)
Theorem X3_ttl_disabled_is_lru `{Countable K} {V : Type}
    (options : CacheOptions) (ops : list (TTL.Op K V)) :
  0 < opt_maxSize options → opt_ttl options = None →
  ∃ (c : FastCacheWithTTL.t K V) (outs : list (TTL.Out V)) (s : FastCache.t K V),
    (c0 ← FastCacheWithTTL.new options; TTL.run c0 ops) = Ok (c, outs) ∧
    (s0 ← FastCache.new (opt_maxSize options); LRU.run s0 (omap (M:=list) forget ops))
      = Ok (s, omap (M:=list) forget_out outs) ∧
    (∀ n, TTL.RCleanup n ∈ outs → n = 0) ∧
    fmap (M:=list) fst <$> ttl_entries c = lru_entries s ∧
    stat_expired (FastCacheWithTTL.getStats c) = Some 0.
Proof.
  intros Hmax Httl.
  assert (Hok : ∃ c0, FastCacheWithTTL.new (K:=K) (V:=V) options = Ok c0).
  { apply ttl_new_ok_iff. split; [done|]. intros t Ht. congruence. }
  destruct Hok as [c0 Hnew].
  destruct (ttl_new_spec options c0 Hnew) as (Hinv0 & Hst0 & _ & Hcf0).
  unfold config in Hcf0. rewrite Httl in Hcf0. injection Hcf0 as Ht Hc.
  injection Hst0 as _ _ He.
  destruct (tview_run_forget (K:=K) (V:=V) (opt_maxSize options) [] ops)
    as (m & outs & Htv & Hv & Hcl).
  destruct (ttl_run_view c0 [] [] [] ops m 0 outs Hinv0 eq_refl)
    as (c & l0 & tl0 & Hrun & Hinv & _ & Hm & Hexp).
  { unfold FastCacheWithTTL.capacity. by rewrite Ht, Hc, He. }
  apply (ttl_entries_shown c l0 tl0 m Hinv) in Hm.
  destruct (new_spec (K:=K) (V:=V) (opt_maxSize options) Hmax)
    as (s0 & Hnew' & Hinv0' & Hmax0 & _).
  destruct (lru_run_view s0 [] [] (omap forget ops) Hinv0' eq_refl)
    as (s & l & Hrun' & Hinv' & _ & Hres).
  rewrite Hmax0 in Hrun', Hres. simpl in Hv. rewrite Hv in Hrun', Hres. simpl in Hrun', Hres.
  apply (lru_entries_shown s l _ Hinv') in Hres.
  exists c, outs, s. rewrite Hnew, Hnew'. simpl.
  split; [done|]. split; [done|]. split; [done|]. split.
  - rewrite Hm, Hres. simpl. by rewrite tshown_forget.
  - by rewrite Hexp.
Qed.

Lemma X3_ttl_disabled_is_lru_witness :
  0 < 2 ∧
  ∃ (c : FastCacheWithTTL.t string Z) s,
    (c0 ← FastCacheWithTTL.new (mkOptions 2 None None None);
     TTL.run c0 [TTL.OpSet "a" 1 0; TTL.OpGet "a" 1000000; TTL.OpCleanup 0 2000000;
                 TTL.OpHas "a" 3000000])
      = Ok (c, [TTL.RSet; TTL.RGet (Some 1); TTL.RCleanup 0; TTL.RHas true]) ∧
    (s0 ← FastCache.new 2; LRU.run s0 [LRU.OpSet "a" 1; LRU.OpGet "a"; LRU.OpHas "a"])
      = Ok (s, [LRU.RSet; LRU.RGet (Some 1); LRU.RHas true]).
Proof.
  split; [lia|].
  destruct (X3_ttl_disabled_is_lru (K:=string) (V:=Z) (mkOptions 2 None None None)
              [TTL.OpSet "a" 1 0; TTL.OpGet "a" 1000000; TTL.OpCleanup 0 2000000;
               TTL.OpHas "a" 3000000] ltac:(simpl; lia) eq_refl)
    as (c & outs & s & Hrun & Hrun' & _).
  exists c, s.
  assert (Houts : returns (c0 ← FastCacheWithTTL.new (K:=string) (V:=Z)
                                   (mkOptions 2 None None None);
                           TTL.run c0 [TTL.OpSet "a" 1 0; TTL.OpGet "a" 1000000;
                                       TTL.OpCleanup 0 2000000; TTL.OpHas "a" 3000000])
                    (λ '(_, o), o = [TTL.RSet; TTL.RGet (Some 1); TTL.RCleanup 0;
                                     TTL.RHas true]))
    by (vm_compute; done).
  rewrite Hrun in Houts. simpl in Houts. subst outs. split; [exact Hrun|exact Hrun'].
Defined.

(** X4.  [cleanup] removes exactly the expired entries.  Take any state a
    sequence of calls on a fresh TTL cache leads to, the clock readings of
    the [set] calls of the sequence not going back.  If [cleanup] at time
    [now] returns, the index it leaves holds exactly the entries of the index
    before that have not expired at [now], none of them has expired
    afterwards, the number it returns is the number of keys that left the
    index, [expired] has gone up by that number, and [hits] and [misses] are
    as before. *)
Theorem X4_cleanup_removes_the_expired `{Countable K} {V : Type}
    (options : CacheOptions) (ops : list (TTL.Op K V))
    (c : FastCacheWithTTL.t K V) (outs : list (TTL.Out V))
    (fuel : nat) (now : Z) (c' : FastCacheWithTTL.t K V) (n : Z) :
  (c0 ← FastCacheWithTTL.new options; TTL.run c0 ops) = Ok (c, outs) →
  StronglySorted Z.le (set_clocks ops) →
  FastCacheWithTTL.cleanup fuel c now = Ok (c', n) →
  (∀ k p, FastCacheWithTTL.cache c' !! k = Some p ↔
          FastCacheWithTTL.cache c !! k = Some p ∧
          FastCacheWithTTL.isExpired c p now = false) ∧
  (∀ k p, FastCacheWithTTL.cache c' !! k = Some p →
          FastCacheWithTTL.isExpired c' p now = false) ∧
  n = FastCacheWithTTL.size c - FastCacheWithTTL.size c' ∧
  stats c' = (FastCache.hits (FastCacheWithTTL.base c),
              FastCache.misses (FastCacheWithTTL.base c),
              FastCacheWithTTL.expired c + n).
Proof.
  intros Hrun Hclocks Hclean.
  destruct (FastCacheWithTTL.new options) as [c0| |] eqn:Hnew; try done. simpl in Hrun.
  destruct (ttl_new_spec options c0 Hnew) as (Hinv0 & _).
  destruct (ttl_run_ordered c0 [] [] ops c outs Hinv0) as (l & tl & Hinv & _ & Hts & Hs).
  { by intros p ?%elem_of_nil. }
  { simpl. apply (StronglySorted_fmap _ Z.le); [|done].
    intros x y Hxy. destruct (FastCacheWithTTL.ttl c0 >? 0); lia. }
  { done. }
  unfold FastCacheWithTTL.cleanup in Hclean.
  destruct (FastCacheWithTTL.ttl c =? 0) eqn:Httl.
  - injection Hclean as <- <-.
    assert (Hne : ∀ p, FastCacheWithTTL.isExpired c p now = false).
    { intros p. unfold FastCacheWithTTL.isExpired. by rewrite Httl. }
    split; [intros k p; rewrite Hne; tauto|]. split; [done|]. split; [lia|].
    unfold stats. do 2 f_equal. lia.
  - destruct (cleanup_loop_post fuel c l tl now 0 c' n Hinv Hclean)
      as (ex & l' & tl' & Hinv' & Htl & Hex & _ & Hc' & Hnd & Hcf & Hst & Hn & Hsz & Hhd).
    assert (Hkeep : ∀ k p, FastCacheWithTTL.cache c !! k = Some p →
              (p ∉ ex ↔ FastCacheWithTTL.isExpired c p now = false)).
    { intros k q Hq. split.
      - intros Hqe.
        destruct (invl_idx _ _ (invt_base _ _ _ Hinv) k q Hq) as [Hql _].
        pose proof (invt_sub _ _ _ Hinv q Hql) as Hqt.
        rewrite Htl in Hqt. apply elem_of_app in Hqt as [?|Hqt]; [done|].
        destruct tl' as [|p rest]; [by apply elem_of_nil in Hqt|].
        apply elem_of_cons in Hqt as [->|Hqr]; [done|].
        rewrite Htl, fmap_app in Hs. apply StronglySorted_app_1_r in Hs.
        rewrite fmap_cons in Hs. apply StronglySorted_inv in Hs as [_ Hall].
        rewrite Forall_forall in Hall.
        specialize (Hall (stamp (FastCacheWithTTL.heap c) q)
                      ltac:(by apply list_elem_of_fmap_2)).
        destruct (Hts p ltac:(rewrite Htl; apply elem_of_app; right; by left)) as [tp Htp].
        destruct (Hts q ltac:(rewrite Htl; apply elem_of_app; right; by right)) as [tq Htq].
        unfold stamp in Hall. rewrite Htp, Htq in Hall. simpl in Hall.
        unfold FastCacheWithTTL.isExpired in Hhd |- *. rewrite Httl, Htp in Hhd.
        rewrite Httl, Htq. rewrite Z.gtb_ltb in Hhd |- *.
        apply Z.ltb_ge in Hhd. apply Z.ltb_ge. lia.
      - intros Hne Hqe. destruct (Hex q Hqe) as [_ Hexp]. congruence. }
    split.
    { intros k p. rewrite Hc'. split; intros [Hp Hq]; (split; [done|]);
        by apply (Hkeep k p Hp). }
    split.
    { intros k p Hp. apply Hc' in Hp as [Hp Hq].
      rewrite (isExpired_same c c') by done. by apply (Hkeep k p Hp). }
    split; [unfold FastCacheWithTTL.size; lia|].
    rewrite Hst. do 2 f_equal. lia.
Qed.

Lemma X4_cleanup_removes_the_expired_witness :
  ∃ (c c' : FastCacheWithTTL.t string Z) outs,
    (c0 ← FastCacheWithTTL.new (mkOptions 3 (Some 100) None None);
     TTL.run c0 [TTL.OpSet "a" 1 0; TTL.OpSet "b" 2 50; TTL.OpSet "c" 3 60])
      = Ok (c, outs) ∧
    FastCacheWithTTL.cleanup 10 c 120 = Ok (c', 1) ∧
    1 = FastCacheWithTTL.size c - FastCacheWithTTL.size c'.
Proof.
  assert (Hr : returns (c0 ← FastCacheWithTTL.new (K:=string) (V:=Z)
                               (mkOptions 3 (Some 100) None None);
                        TTL.run c0 [TTL.OpSet "a" 1 0; TTL.OpSet "b" 2 50;
                                    TTL.OpSet "c" 3 60])
                 (λ '(c, _), returns (FastCacheWithTTL.cleanup 10 c 120)
                               (λ '(_, n), n = 1)))
    by (vm_compute; done).
  destruct (proj1 (returns_ex _ _) Hr) as ([c outs] & Hrun & Hcl).
  destruct (proj1 (returns_ex _ _) Hcl) as ([c' n] & Hclean & ->).
  exists c, c', outs. split; [exact Hrun|]. split; [exact Hclean|].
  assert (Hsorted : StronglySorted Z.le
            (set_clocks (K:=string) (V:=Z)
               [TTL.OpSet "a" 1 0; TTL.OpSet "b" 2 50; TTL.OpSet "c" 3 60])).
  { simpl. repeat constructor; lia. }
  destruct (X4_cleanup_removes_the_expired _ _ c outs 10%nat 120 c' 1 Hrun Hsorted Hclean)
    as (_ & _ & Hn & _).
  exact Hn.
Defined.

(** X5.  [cleanup] returns when the time list holds no evicted node.  In any
    state a client can reach in which the time list is not longer than the
    recency list (so every node of the one is on the other), [cleanup] at any
    time returns within one iteration per node of the time list; the number
    it returns is between [0] and the length of the time list, and the size
    goes down by that number. *)
Theorem X5_cleanup_returns `{Countable K} {V : Type}
    (options : CacheOptions) (c : FastCacheWithTTL.t K V) (l tl : list ptr)
    (fuel : nat) (now : Z) :
  TTL.reachable options c →
  FastCacheWithTTL.lru_list c = Some l → FastCacheWithTTL.time_list c = Some tl →
  (length tl ≤ length l)%nat → (length tl < fuel)%nat →
  ∃ c' n,
    FastCacheWithTTL.cleanup fuel c now = Ok (c', n) ∧
    0 ≤ n ≤ Z.of_nat (length tl) ∧
    FastCacheWithTTL.size c' = FastCacheWithTTL.size c - n.
Proof.
  intros Hreach Hl Htl Hlen Hfuel.
  destruct (ttl_reachable_inv options c Hreach) as (l0 & tl0 & Hinv & _).
  destruct (InvT_lists c l0 tl0 Hinv) as [Hl0 Htl0].
  rewrite Hl in Hl0. rewrite Htl in Htl0. injection Hl0 as <-. injection Htl0 as <-.
  assert (Hsub : ∀ p, p ∈ tl → p ∈ l).
  { assert (Hperm : l ≡ₚ tl).
    { apply submseteq_length_Permutation; [|done]. apply NoDup_submseteq.
      - destruct (invl_dll _ _ (invt_base _ _ _ Hinv)) as [Hnd _].
        apply NoDup_cons in Hnd as [_ Hnd]. by apply NoDup_app in Hnd as [? _].
      - apply (invt_sub _ _ _ Hinv). }
    intros p Hp. by rewrite Hperm. }
  unfold FastCacheWithTTL.cleanup.
  destruct (FastCacheWithTTL.ttl c =? 0).
  - exists c, 0. split; [done|]. split; lia.
  - destruct (cleanup_loop_returns fuel c l tl now 0 Hinv Hsub Hfuel) as [[c' n] Hloop].
    destruct (cleanup_loop_post fuel c l tl now 0 c' n Hinv Hloop)
      as (ex & l' & tl' & _ & Hex & _ & _ & _ & _ & _ & _ & Hn & Hsz & _).
    exists c', n. split; [done|].
    assert (length tl = (length ex + length tl')%nat) by (by rewrite Hex, length_app).
    unfold FastCacheWithTTL.size. lia.
Qed.

Lemma X5_cleanup_returns_witness :
  ∃ c : FastCacheWithTTL.t string Z,
    TTL.reachable (mkOptions 3 (Some 100) None None) c ∧
    FastCacheWithTTL.lru_list c = Some [5; 4]%nat ∧
    FastCacheWithTTL.time_list c = Some [4; 5]%nat ∧
    ∃ c' n, FastCacheWithTTL.cleanup 3 c 120 = Ok (c', n) ∧
            FastCacheWithTTL.size c' = FastCacheWithTTL.size c - n.
Proof.
  assert (Hr : returns (c0 ← FastCacheWithTTL.new (K:=string) (V:=Z)
                               (mkOptions 3 (Some 100) None None);
                        TTL.run c0 [TTL.OpSet "a" 1 0; TTL.OpSet "b" 2 50])
                 (λ '(c, _), FastCacheWithTTL.lru_list c = Some [5; 4]%nat ∧
                             FastCacheWithTTL.time_list c = Some [4; 5]%nat))
    by (vm_compute; done).
  destruct (proj1 (returns_ex _ _) Hr) as ([c outs] & Hrun & Hl & Htl).
  apply ttl_reachable_intro in Hrun.
  exists c. split; [exact Hrun|]. split; [exact Hl|]. split; [exact Htl|].
  destruct (X5_cleanup_returns _ c [5; 4]%nat [4; 5]%nat 3%nat 120 Hrun Hl Htl
              ltac:(simpl; lia) ltac:(simpl; lia))
    as (c' & n & Hclean & _ & Hsz).
  exists c', n. split; [exact Hclean|exact Hsz].
Defined.

(** X6.  A TTL cache that never has to evict keeps its two lists in step.
    When the [set] calls of a sequence name no more distinct keys than the
    capacity, and each [cleanup] is given more iterations than the capacity,
    every call of the sequence returns, [cleanup] included, and afterwards the
    time list holds the nodes of the recency list and no other. *)
Theorem X6_no_eviction_lists_agree `{Countable K} {V : Type}
    (options : CacheOptions) (ops : list (TTL.Op K V)) :
  0 < opt_maxSize options → (∀ t, opt_ttl options = Some t → 0 < t) →
  Z.of_nat (size (set_keys ops)) ≤ opt_maxSize options →
  (∀ fuel now, TTL.OpCleanup fuel now ∈ ops → opt_maxSize options < Z.of_nat fuel) →
  ∃ (c : FastCacheWithTTL.t K V) outs l tl,
    (c0 ← FastCacheWithTTL.new options; TTL.run c0 ops) = Ok (c, outs) ∧
    FastCacheWithTTL.lru_list c = Some l ∧ FastCacheWithTTL.time_list c = Some tl ∧
    ∀ p, p ∈ tl ↔ p ∈ l.
Proof.
  intros Hmax Httl Hks Hfuel.
  destruct (proj2 (ttl_new_ok_iff (K:=K) (V:=V) options) (conj Hmax Httl)) as [c0 Hnew].
  destruct (ttl_new_spec options c0 Hnew) as (Hinv0 & _ & Hc0 & Hcf0).
  assert (Hcap0 : FastCacheWithTTL.capacity c0 = opt_maxSize options).
  { unfold config, FastCacheWithTTL.capacity in *. congruence. }
  destruct (ttl_run_no_eviction c0 [] [] (set_keys ops) ops Hinv0)
    as (c & outs & l & tl & Hrun & Hinv & Hsub).
  { done. }
  { rewrite Hc0, dom_empty. set_solver. }
  { by rewrite Hcap0. }
  { done. }
  { intros fuel now Hin. rewrite Hcap0. by apply (Hfuel fuel now). }
  destruct (InvT_lists c l tl Hinv) as [Hl Htl].
  exists c, outs, l, tl. rewrite Hnew. simpl. split; [done|]. split; [done|].
  split; [done|]. intros p. split; [apply Hsub|apply (invt_sub _ _ _ Hinv)].
Qed.

Lemma X6_no_eviction_lists_agree_witness :
  0 < 2 ∧
  ∃ (c : FastCacheWithTTL.t string Z) outs l tl,
    (c0 ← FastCacheWithTTL.new (mkOptions 2 (Some 100) None None);
     TTL.run c0 [TTL.OpSet "a" 1 0; TTL.OpSet "b" 2 10; TTL.OpSet "a" 3 20;
                 TTL.OpCleanup 3 115; TTL.OpGet "a" 116]) = Ok (c, outs) ∧
    FastCacheWithTTL.lru_list c = Some l ∧ FastCacheWithTTL.time_list c = Some tl ∧
    ∀ p, p ∈ tl ↔ p ∈ l.
Proof.
  split; [lia|].
  apply (X6_no_eviction_lists_agree (K:=string) (V:=Z) (mkOptions 2 (Some 100) None None)).
  - simpl. lia.
  - simpl. intros t Ht. injection Ht as <-. lia.
  - vm_compute. discriminate.
  - intros fuel now Hin. simpl.
    repeat (apply elem_of_cons in Hin as [Heq|Hin]; [try discriminate Heq|]).
    + injection Heq as -> _. lia.
    + by apply elem_of_nil in Hin.
Defined.

(** X7.  Only the constructor throws.  A sequence of calls on a TTL cache
    throws only if the constructor does, with
    ["Cache size must be positive"] when [maxSize ≤ 0] (whatever [ttl] is)
    and ["TTL must be positive"] when [maxSize > 0] and [ttl] is given and not
    positive; no call on a cache that was made finds a link missing.  When
    the constructor succeeds and the sequence has no [cleanup], every call
    returns. *)
Theorem X7_only_the_constructor_throws `{Countable K} {V : Type}
    (options : CacheOptions) (ops : list (TTL.Op K V)) :
  (∀ msg,
     (c0 ← FastCacheWithTTL.new options; TTL.run c0 ops) = Throw msg →
     (opt_maxSize options ≤ 0 ∧ msg = "Cache size must be positive") ∨
     (0 < opt_maxSize options ∧ (∃ t, opt_ttl options = Some t ∧ t ≤ 0) ∧
      msg = "TTL must be positive")) ∧
  (0 < opt_maxSize options → (∀ t, opt_ttl options = Some t → 0 < t) →
   (∀ fuel now, TTL.OpCleanup fuel now ∉ ops) →
   ∃ c outs, (c0 ← FastCacheWithTTL.new options; TTL.run c0 ops) = Ok (c, outs)).
Proof.
  split.
  - intros msg Hrun.
    destruct (FastCacheWithTTL.new (K:=K) (V:=V) options) as [c0|msg0|] eqn:Hnew;
      simpl in Hrun; [|injection Hrun as ->|done].
    + destruct (ttl_new_spec options c0 Hnew) as (Hinv0 & _).
      by destruct (ttl_run_no_throw c0 [] [] ops msg Hinv0).
    + unfold FastCacheWithTTL.new, FastCache.new in Hnew.
      destruct (opt_maxSize options <=? 0) eqn:Hm; simpl in Hnew.
      * apply Z.leb_le in Hm. injection Hnew as <-. by left.
      * apply Z.leb_gt in Hm. right.
        destruct (opt_ttl options) as [t|]; [|done].
        destruct (t <=? 0) eqn:Ht; [|done]. apply Z.leb_le in Ht.
        injection Hnew as <-. split; [done|]. split; [|done]. by exists t.
  - intros Hmax Httl Hnc.
    destruct (proj2 (ttl_new_ok_iff (K:=K) (V:=V) options) (conj Hmax Httl)) as [c0 Hnew].
    destruct (ttl_new_spec options c0 Hnew) as (Hinv0 & _).
    rewrite Hnew. simpl.
    assert (Hgen : ∀ ops (c : FastCacheWithTTL.t K V) l tl,
              InvT c l tl → (∀ fuel now, TTL.OpCleanup fuel now ∉ ops) →
              ∃ c' outs, TTL.run c ops = Ok (c', outs)).
    { clear. intros ops. induction ops as [|op ops IH]; intros c l tl Hinv Hnc;
        [by exists c, []|].
      destruct (ttl_step_inv c l tl op Hinv)
        as [(c1 & o & l1 & tl1 & Hstep & Hinv1 & _)|[_ (fuel & now & ->)]].
      - destruct (IH c1 l1 tl1 Hinv1) as (c2 & os & Hrun).
        { intros fuel now Hin. apply (Hnc fuel now). by right. }
        exists c2, (o :: os). simpl. rewrite Hstep. simpl. by rewrite Hrun.
      - destruct (Hnc fuel now). by left. }
    by apply (Hgen ops c0 [] []).
Qed.

Lemma X7_only_the_constructor_throws_witness :
  (0 ≤ 0 ∧ "Cache size must be positive" = "Cache size must be positive") ∨
  (0 < 0 ∧ (∃ t, Some (-1) = Some t ∧ t ≤ 0) ∧
   "Cache size must be positive" = "TTL must be positive").
Proof.
  exact (proj1 (X7_only_the_constructor_throws (K:=string) (V:=Z)
                  (mkOptions 0 (Some (-1)) None None) [TTL.OpGet "a" 0])
           "Cache size must be positive" eq_refl).
Defined.

(** X8.  A TTL cache stays within its capacity.  In every state a client can
    reach, [capacity] is the [maxSize] given to the constructor and [size]
    is between [0] and [capacity]; the recency list and the time list are
    free of repetition, the recency list has exactly [size] nodes, each the
    node of a key of the index and each on the time list; [getStats] reports
    this size and capacity. *)
Theorem X8_ttl_size_within_capacity `{Countable K} {V : Type}
    (options : CacheOptions) (c : FastCacheWithTTL.t K V) :
  TTL.reachable options c →
  FastCacheWithTTL.capacity c = opt_maxSize options ∧
  0 ≤ FastCacheWithTTL.size c ≤ FastCacheWithTTL.capacity c ∧
  (∃ l tl,
     FastCacheWithTTL.lru_list c = Some l ∧ FastCacheWithTTL.time_list c = Some tl ∧
     NoDup l ∧ NoDup tl ∧ Z.of_nat (length l) = FastCacheWithTTL.size c ∧
     (∀ p, p ∈ l ↔ ∃ k, FastCacheWithTTL.cache c !! k = Some p) ∧
     (∀ p, p ∈ l → p ∈ tl)) ∧
  stat_size (FastCacheWithTTL.getStats c) = FastCacheWithTTL.size c ∧
  stat_capacity (FastCacheWithTTL.getStats c) = opt_maxSize options.
Proof.
  intros Hreach.
  destruct (ttl_reachable_inv options c Hreach) as (l & tl & Hinv & Hcf).
  pose proof (invt_base _ _ _ Hinv) as Hb.
  destruct (InvT_lists c l tl Hinv) as [Hl Htl].
  assert (Hcap : FastCacheWithTTL.capacity c = opt_maxSize options).
  { unfold config, FastCacheWithTTL.capacity in *. congruence. }
  split; [done|]. split.
  { unfold FastCacheWithTTL.size, FastCacheWithTTL.capacity.
    pose proof (invl_size _ _ Hb). unfold FastCacheWithTTL.cache. lia. }
  split; [|done].
  exists l, tl. split; [done|]. split; [done|].
  split.
  { destruct (invl_dll _ _ Hb) as [Hnd _].
    apply NoDup_cons in Hnd as [_ Hnd]. by apply NoDup_app in Hnd as [? _]. }
  split.
  { destruct (invt_dll _ _ _ Hinv) as [Hnd _].
    apply NoDup_cons in Hnd as [_ Hnd]. by apply NoDup_app in Hnd as [? _]. }
  split.
  { unfold FastCacheWithTTL.size, FastCacheWithTTL.cache. by rewrite (InvL_size _ l Hb). }
  split; [|apply (invt_sub _ _ _ Hinv)].
  intros p. split.
  - intros Hp. destruct (invl_live _ _ Hb p Hp) as (k & _ & Hk). by exists k.
  - intros [k Hk]. by destruct (invl_idx _ _ Hb k p Hk).
Qed.

Lemma X8_ttl_size_within_capacity_witness :
  ∃ c : FastCacheWithTTL.t string Z,
    TTL.reachable (mkOptions 1 (Some 100) None None) c ∧
    FastCacheWithTTL.capacity c = 1 ∧
    0 ≤ FastCacheWithTTL.size c ≤ FastCacheWithTTL.capacity c.
Proof.
  assert (Hr : returns (c0 ← FastCacheWithTTL.new (K:=string) (V:=Z)
                               (mkOptions 1 (Some 100) None None);
                        TTL.run c0 [TTL.OpSet "a" 1 0; TTL.OpSet "b" 2 1])
                 (λ _, True))
    by (vm_compute; exact I).
  destruct (proj1 (returns_ex _ _) Hr) as ([c outs] & Hrun & _).
  apply ttl_reachable_intro in Hrun.
  exists c. split; [exact Hrun|].
  destruct (X8_ttl_size_within_capacity _ c Hrun) as (Hcap & Hsz & _).
  split; [exact Hcap|exact Hsz].
Defined.

(** X9.  [clear] repairs the time list.  In every state a client can reach,
    also one in which an evicted node is left on the time list, [clear]
    leaves an empty index, an empty recency list and an empty time list,
    zeroes [hits], [misses] and [expired], and keeps [ttl] and the capacity;
    [cleanup] right after it returns [0] at its first look and changes
    nothing. *)
Theorem X9_clear_empties_both_lists `{Countable K} {V : Type}
    (options : CacheOptions) (c : FastCacheWithTTL.t K V) (fuel : nat) (now : Z) :
  TTL.reachable options c → (0 < fuel)%nat →
  FastCacheWithTTL.cache (FastCacheWithTTL.clear c) = ∅ ∧
  FastCacheWithTTL.size (FastCacheWithTTL.clear c) = 0 ∧
  FastCacheWithTTL.lru_list (FastCacheWithTTL.clear c) = Some [] ∧
  FastCacheWithTTL.time_list (FastCacheWithTTL.clear c) = Some [] ∧
  stats (FastCacheWithTTL.clear c) = (0, 0, 0) ∧
  config (FastCacheWithTTL.clear c) = config c ∧
  FastCacheWithTTL.cleanup fuel (FastCacheWithTTL.clear c) now
    = Ok (FastCacheWithTTL.clear c, 0).
Proof.
  intros Hreach Hfuel.
  destruct (ttl_reachable_inv options c Hreach) as (l & tl & Hinv & _).
  destruct (ttl_clear_spec c l tl Hinv) as (Hinv' & Hst & Hcf & Hc).
  destruct (InvT_lists _ _ _ Hinv') as [Hl Htl].
  split; [done|]. split.
  { unfold FastCacheWithTTL.size. by rewrite Hc, map_size_empty. }
  split; [done|]. split; [done|]. split; [done|]. split; [done|].
  unfold FastCacheWithTTL.cleanup.
  destruct (FastCacheWithTTL.ttl (FastCacheWithTTL.clear c) =? 0); [done|].
  rewrite (time_first _ [] [] Hinv'). destruct fuel as [|fuel]; [lia|].
  simpl. by rewrite decide_True.
Qed.

Lemma X9_clear_empties_both_lists_witness :
  ∃ c : FastCacheWithTTL.t string Z,
    TTL.reachable (mkOptions 1 (Some 100) None None) c ∧
    (∀ fuel, FastCacheWithTTL.cleanup fuel c 200 = OutOfFuel) ∧
    FastCacheWithTTL.cleanup 1 (FastCacheWithTTL.clear c) 200
      = Ok (FastCacheWithTTL.clear c, 0).
Proof.
  assert (Hr : returns (c0 ← FastCacheWithTTL.new (K:=string) (V:=Z)
                               (mkOptions 1 (Some 100) None None);
                        TTL.run c0 [TTL.OpSet "a" 1 0; TTL.OpSet "b" 2 1])
                 (λ '(c, _),
                    (FastCacheWithTTL.ttl c =? 0) = false ∧
                    timeNext (FastCacheWithTTL.heap c (FastCacheWithTTL.timeHead c))
                      = Some 4%nat ∧
                    FastCacheWithTTL.lru_list c = Some [5%nat] ∧
                    FastCacheWithTTL.time_list c = Some [4; 5]%nat ∧
                    FastCacheWithTTL.isExpired c 4%nat 200 = true))
    by (vm_compute; repeat apply conj; reflexivity).
  destruct (proj1 (returns_ex _ _) Hr) as ([c outs] & Hrun & Httl & Hhd & Hl & Htl & Hexp).
  apply ttl_reachable_intro in Hrun.
  exists c. split; [exact Hrun|]. split.
  - intros fuel. unfold FastCacheWithTTL.cleanup. rewrite Httl, Hhd.
    destruct (ttl_reachable_inv _ c Hrun) as (l & tl & Hinv & _).
    destruct (InvT_lists c l tl Hinv) as [Hl' Htl'].
    rewrite Hl in Hl'. rewrite Htl in Htl'. injection Hl' as <-. injection Htl' as <-.
    apply (cleanup_loop_stale fuel c [5%nat] 4%nat [5%nat] 200 0 Hinv); [|exact Hexp].
    intros Hin. apply list_elem_of_singleton in Hin. discriminate Hin.
  - destruct (X9_clear_empties_both_lists _ c 1%nat 200 Hrun ltac:(lia))
      as (_ & _ & _ & _ & _ & _ & Hclean).
    exact Hclean.
Defined.

(** X10.  Batch calls on the LRU core.  On a cache brought into any state by
    a sequence of calls, [setMany] does what [set] does on each entry in
    turn, and [getMany] right after it returns a map that holds, of the keys
    asked for, exactly those the cache has with a value other than
    [undefined], each with the value last set for it: a key that holds
    [undefined] is left out like a key the cache does not have.  The recency
    list ends as after a [get] of each key in turn. *)
Theorem X10_batch_calls `{Countable K} {V : Type} `{!Undefinable V}
    (c : Z) (ops : list (LRU.Op K V)) (entries : list (K * V)) (keys : list K) :
  0 < c →
  let m := (view_run c (view_run c [] ops).1 ((λ e, LRU.OpSet e.1 e.2) <$> entries)).1 in
  ∃ s r,
    (s0 ← FastCache.new c;
     '(s1, _) ← LRU.run s0 ops;
     s2 ← FastCache.setMany s1 entries;
     FastCache.getMany s2 keys) = Ok (s, r) ∧
    (∀ k, r !! k = if decide (k ∈ keys)
                   then v ← assoc k m; if is_undefined v then None else Some v
                   else None) ∧
    lru_entries s = Some (shown (view_run c m (LRU.OpGet <$> keys)).1).
Proof.
  intros Hc m.
  destruct (new_spec (K:=K) (V:=V) c Hc) as (s0 & Hnew & Hinv0 & Hmax0 & _).
  destruct (lru_run_view s0 [] [] ops Hinv0 eq_refl)
    as (s1 & l1 & Hrun1 & Hinv1 & Hmax1 & Hm1).
  rewrite Hmax0 in Hrun1, Hm1.
  destruct (lru_run_view s1 l1 _ ((λ e, LRU.OpSet e.1 e.2) <$> entries) Hinv1 Hm1)
    as (s2 & l2 & Hrun2 & Hinv2 & Hmax2 & Hm2).
  rewrite Hmax1, Hmax0 in Hrun2, Hm2. fold m in Hm2.
  destruct (getMany_view s2 l2 m keys ∅ Hinv2 Hm2)
    as (s & l & r & Hget & Hinv & Hmax & Hm & Hr).
  rewrite Hmax2, Hmax1, Hmax0 in Hm.
  exists s, r. rewrite Hnew. simpl. rewrite Hrun1. simpl.
  rewrite setMany_run, Hrun2. simpl. split; [exact Hget|]. split.
  - intros k. rewrite Hr. destruct (decide (k ∈ keys)); [|done].
    by destruct (_ ← assoc k m; _).
  - by apply (lru_entries_shown s l).
Qed.

Lemma X10_batch_calls_witness :
  0 < 2 ∧
  ∃ (s : FastCache.t string (option Z)) r,
    (s0 ← FastCache.new 2;
     '(s1, _) ← LRU.run s0 [LRU.OpSet "a" (Some 0)];
     s2 ← FastCache.setMany s1 [("b", Some 2); ("c", Some 3); ("b", None)];
     FastCache.getMany s2 ["a"; "b"; "d"; "c"]) = Ok (s, r) ∧
    r !! "a" = None ∧ r !! "b" = None ∧ r !! "c" = Some (Some 3) ∧ r !! "d" = None ∧
    lru_entries s = Some [(Some "c", Some (Some 3)); (Some "b", Some None)].
Proof.
  split; [lia|].
  destruct (X10_batch_calls (K:=string) (V:=option Z) 2 [LRU.OpSet "a" (Some 0)]
              [("b", Some 2); ("c", Some 3); ("b", None)] ["a"; "b"; "d"; "c"]
              ltac:(lia))
    as (s & r & Hrun & Hr & Hl).
  exists s, r. split; [exact Hrun|].
  split; [exact (Hr "a")|]. split; [exact (Hr "b")|]. split; [exact (Hr "c")|].
  split; [exact (Hr "d")|exact Hl].
Defined.

(** X11.  Batch calls on the TTL cache.  On a cache brought into any state
    by calls the view covers, [setMany] does what [set] does on each entry
    in turn, and [getMany] at time [now] right after it returns a map that
    holds, of the keys asked for, exactly those the cache has that are not
    older than [ttl] at [now] and hold a value other than [undefined], each
    with the value last set for it. *)
Theorem X11_ttl_batch_calls `{Countable K} {V : Type} `{!Undefinable V}
    (options : CacheOptions) (ops : list (TTL.Op K V))
    (entries : list (K * V * Z)) (keys : list K) (now : Z)
    (m1 : list (K * V * Z)) (e1 : Z) (outs1 : list (TTL.Out V)) :
  0 < opt_maxSize options → (∀ t, opt_ttl options = Some t → 0 < t) →
  tview_run (default 0 (opt_ttl options)) (opt_maxSize options) ([], 0) ops
    = Some (m1, e1, outs1) →
  ∃ (c : FastCacheWithTTL.t K V) (r : gmap K V) m outs,
    tview_run (default 0 (opt_ttl options)) (opt_maxSize options) (m1, e1)
              ((λ x, TTL.OpSet x.1.1 x.1.2 x.2) <$> entries) = Some (m, e1, outs) ∧
    (c0 ← FastCacheWithTTL.new options;
     '(c1, _) ← TTL.run c0 ops;
     c2 ← FastCacheWithTTL.setMany c1 entries;
     FastCacheWithTTL.getMany c2 ((λ k, (k, now)) <$> keys)) = Ok (c, r) ∧
    ∀ k, r !! k =
         if decide (k ∈ keys)
         then '(v, ts) ← tassoc k m;
              if stale (default 0 (opt_ttl options)) now ts || is_undefined v
              then None else Some v
         else None.
Proof.
  intros Hmax Httl Hview.
  destruct (proj2 (ttl_new_ok_iff (K:=K) (V:=V) options) (conj Hmax Httl)) as [c0 Hnew].
  destruct (ttl_new_spec options c0 Hnew) as (Hinv0 & Hst0 & _ & Hcf0).
  unfold config in Hcf0. injection Hcf0 as Ht Hc. injection Hst0 as _ _ He.
  destruct (ttl_run_view c0 [] [] [] ops m1 e1 outs1 Hinv0 eq_refl)
    as (c1 & l1 & tl1 & Hrun1 & Hinv1 & Hcf1 & Hm1 & Hexp1).
  { unfold FastCacheWithTTL.capacity. by rewrite Ht, Hc, He. }
  unfold config in Hcf1. injection Hcf1 as Ht1 Hc1.
  destruct (tview_run_sets (default 0 (opt_ttl options)) (opt_maxSize options) m1 e1 entries)
    as (m & outs & Hsets).
  destruct (ttl_run_view c1 l1 tl1 m1 ((λ x, TTL.OpSet x.1.1 x.1.2 x.2) <$> entries)
              m e1 outs Hinv1 Hm1)
    as (c2 & l2 & tl2 & Hrun2 & Hinv2 & Hcf2 & Hm2 & _).
  { unfold FastCacheWithTTL.capacity. by rewrite Ht1, Hc1, Ht, Hc, Hexp1. }
  unfold config in Hcf2. injection Hcf2 as Ht2 Hc2.
  destruct (ttl_getMany_view c2 l2 tl2 m keys now ∅ Hinv2 Hm2) as (c & r & Hget & Hr).
  exists c, r, m, outs. split; [done|]. rewrite Hnew. simpl. rewrite Hrun1. simpl.
  rewrite ttl_setMany_run, Hrun2. simpl. split; [exact Hget|].
  intros k. rewrite Hr, Ht2, Ht1, Ht. destruct (decide (k ∈ keys)); [|done].
  by destruct (_ ← tassoc k m; _).
Qed.

Lemma X11_ttl_batch_calls_witness :
  0 < 3 ∧
  ∃ (c : FastCacheWithTTL.t string (option Z)) (r : gmap string (option Z)),
    (c0 ← FastCacheWithTTL.new (mkOptions 3 (Some 100) None None);
     '(c1, _) ← TTL.run c0 [TTL.OpSet "a" (Some 1) 0];
     c2 ← FastCacheWithTTL.setMany c1 [("b", Some 2, 50); ("c", None, 60)];
     FastCacheWithTTL.getMany c2 ((λ k, (k, 120)) <$> ["a"; "b"; "c"; "d"])) = Ok (c, r) ∧
    r !! "a" = None ∧ r !! "b" = Some (Some 2) ∧ r !! "c" = None ∧ r !! "d" = None.
Proof.
  split; [lia|].
  destruct (X11_ttl_batch_calls (K:=string) (V:=option Z)
              (mkOptions 3 (Some 100) None None)
              [TTL.OpSet "a" (Some 1) 0] [("b", Some 2, 50); ("c", None, 60)]
              ["a"; "b"; "c"; "d"] 120
              [("a", Some 1, 0)] 0 [TTL.RSet]
              ltac:(simpl; lia) ltac:(simpl; intros t [= <-]; lia) eq_refl)
    as (c & r & m & outs & Hsets & Hrun & Hr).
  vm_compute in Hsets. injection Hsets as <- _.
  exists c, r. split; [exact Hrun|].
  split; [exact (Hr "a")|]. split; [exact (Hr "b")|]. split; [exact (Hr "c")|exact (Hr "d")].
Defined.

(** X12.  The timer of automatic cleanup.  The constructor starts a timer
    exactly when [autoCleanup] is set and [ttl] is given, with the interval
    [cleanupInterval] or, where that is not given, [ttl].  After any sequence
    of calls that returns, the timer is the one the constructor started if
    the sequence has no [destroy], and there is none if it has one: no other
    call starts, stops or changes the timer, and [destroy] may be called more
    than once. *)
Theorem X12_destroy_stops_the_timer `{Countable K} {V : Type}
    (options : CacheOptions) (ops : list (TTL.Op K V))
    (c : FastCacheWithTTL.t K V) (outs : list (TTL.Out V)) :
  (c0 ← FastCacheWithTTL.new options; TTL.run c0 ops) = Ok (c, outs) →
  FastCacheWithTTL.autoCleanup c = default false (opt_autoCleanup options) ∧
  (TTL.OpDestroy ∈ ops → FastCacheWithTTL.cleanupTimer c = None) ∧
  (TTL.OpDestroy ∉ ops →
   FastCacheWithTTL.cleanupTimer c =
     if default false (opt_autoCleanup options) && bool_decide (is_Some (opt_ttl options))
     then Some (default (default 0 (opt_ttl options)) (opt_cleanupInterval options))
     else None).
Proof.
  intros Hrun.
  destruct (FastCacheWithTTL.new options) as [c0| |] eqn:Hnew; try done. simpl in Hrun.
  destruct (ttl_run_timer c0 ops c outs Hrun) as (Ha & _ & Hd & Hnd).
  assert (Hpos : ∀ t, opt_ttl options = Some t → 0 < t).
  { apply (ttl_new_ok_iff (K:=K) (V:=V) options). eauto. }
  unfold FastCacheWithTTL.new, FastCache.new in Hnew.
  destruct (opt_maxSize options <=? 0); [done|]. simpl in Hnew.
  destruct (match opt_ttl options with Some x => x <=? 0 | None => false end); [done|].
  injection Hnew as <-. simpl in *.
  split; [done|]. split; [done|]. intros Hn. rewrite (Hnd Hn).
  destruct (default false (opt_autoCleanup options)); [|done]. simpl.
  destruct (opt_ttl options) as [t|]; simpl; [|done].
  specialize (Hpos t eq_refl). by rewrite (proj2 (Z.gtb_gt _ _)) by lia.
Qed.

Lemma X12_destroy_stops_the_timer_witness :
  ∃ (c : FastCacheWithTTL.t string Z) outs,
    (c0 ← FastCacheWithTTL.new (mkOptions 2 (Some 100) (Some true) None);
     TTL.run c0 [TTL.OpSet "a" 1 0; TTL.OpDestroy; TTL.OpGet "a" 1; TTL.OpDestroy])
      = Ok (c, outs) ∧
    FastCacheWithTTL.autoCleanup c = true ∧
    FastCacheWithTTL.cleanupTimer c = None.
Proof.
  assert (Hr : returns (c0 ← FastCacheWithTTL.new (K:=string) (V:=Z)
                               (mkOptions 2 (Some 100) (Some true) None);
                        TTL.run c0 [TTL.OpSet "a" 1 0; TTL.OpDestroy; TTL.OpGet "a" 1;
                                    TTL.OpDestroy])
                 (λ _, True))
    by (vm_compute; exact I).
  destruct (proj1 (returns_ex _ _) Hr) as ([c outs] & Hrun & _).
  exists c, outs. split; [exact Hrun|].
  destruct (X12_destroy_stops_the_timer _ _ c outs Hrun) as (Ha & Hd & _).
  split; [exact Ha|]. apply Hd. right. left.
Defined.

(** X13.  The index and the recency list of the LRU core hold the same
    nodes.  In every state a client can reach, the recency list is free of
    repetition and has exactly [size] nodes; a key of the index leads to a
    node of the list that carries this key and a value, every node of the
    list is the node of its own key in the index, no two nodes carry the
    same key, and [has] answers by the keys on the list. *)
Theorem X13_lru_index_matches_list `{Countable K} {V : Type}
    (c : Z) (s : FastCache.t K V) :
  LRU.reachable c s →
  ∃ l,
    FastCache.lru_list s = Some l ∧ NoDup l ∧
    Z.of_nat (length l) = FastCache.size s ∧
    (∀ k p, FastCache.cache s !! k = Some p ↔
            p ∈ l ∧ key (FastCache.heap s p) = Some k) ∧
    (∀ p, p ∈ l → is_Some (value (FastCache.heap s p))) ∧
    NoDup (FastCache.keys_of (FastCache.heap s) l) ∧
    (∀ k, FastCache.has s k = true ↔ Some k ∈ FastCache.keys_of (FastCache.heap s) l).
Proof.
  intros Hreach.
  destruct (lru_reachable_inv c s Hreach) as (l & Hinv & _).
  assert (Hidx : ∀ k p, FastCache.cache s !! k = Some p ↔
                        p ∈ l ∧ key (FastCache.heap s p) = Some k).
  { intros k p. split; [apply (invl_idx _ _ Hinv)|].
    intros [Hp Hk]. destruct (invl_live _ _ Hinv p Hp) as (k' & Hk' & Hc). congruence. }
  exists l. split; [by apply InvL_lru_list|]. split.
  { destruct (invl_dll _ _ Hinv) as [Hnd _].
    apply NoDup_cons in Hnd as [_ Hnd]. by apply NoDup_app in Hnd as [? _]. }
  split; [unfold FastCache.size; by rewrite (InvL_size s l Hinv)|].
  split; [done|]. split; [apply (invl_val _ _ Hinv)|]. split.
  { unfold FastCache.keys_of. apply NoDup_fmap_2_strong.
    - intros p q Hp Hq Heq.
      destruct (invl_live _ _ Hinv p Hp) as (k & Hk & Hc).
      destruct (invl_live _ _ Hinv q Hq) as (k' & Hk' & Hc'). congruence.
    - destruct (invl_dll _ _ Hinv) as [Hnd _].
      apply NoDup_cons in Hnd as [_ Hnd]. by apply NoDup_app in Hnd as [? _]. }
  intros k. unfold FastCache.has, FastCache.keys_of.
  rewrite bool_decide_eq_true, list_elem_of_fmap. split.
  - intros [p Hp]. apply Hidx in Hp as [Hp Hk]. by exists p.
  - intros (p & Hk & Hp). exists p. by apply Hidx.
Qed.

Lemma X13_lru_index_matches_list_witness :
  ∃ (s : FastCache.t string Z) l,
    LRU.reachable 2 s ∧ FastCache.lru_list s = Some l ∧
    Z.of_nat (length l) = FastCache.size s.
Proof.
  assert (Hr : returns (s0 ← FastCache.new (K:=string) (V:=Z) 2;
                        LRU.run s0 [LRU.OpSet "a" 1; LRU.OpSet "b" 2; LRU.OpSet "c" 3;
                                    LRU.OpDelete "b"])
                 (λ _, True))
    by (vm_compute; exact I).
  destruct (proj1 (returns_ex _ _) Hr) as ([s outs] & Hrun & _).
  assert (Hreach : LRU.reachable 2 s).
  { destruct (FastCache.new (K:=string) (V:=Z) 2) as [s0| |] eqn:Hnew; try discriminate Hrun.
    exists s0, [LRU.OpSet "a" 1; LRU.OpSet "b" 2; LRU.OpSet "c" 3; LRU.OpDelete "b"], outs.
    split; [exact Hnew|exact Hrun]. }
  destruct (X13_lru_index_matches_list 2 s Hreach) as (l & Hl & _ & Hlen & _).
  exists s, l. split; [exact Hreach|]. split; [exact Hl|exact Hlen].
Defined.

(** X14.  The presets.  [apiCache] and [computeCache] make an empty LRU
    cache of the capacity given, [1000] and [500] when none is given.
    [sessionCache] and [tempCache] make an empty TTL cache of the capacity and
    [ttl] given ([100] and 30 minutes, [200] and 5 minutes when none is
    given) with automatic cleanup, whose timer fires every [ttl]
    milliseconds.  Each throws exactly when its capacity is not positive or,
    the capacity being positive, its [ttl] is not. *)
Theorem X14_presets {V : Type} (maxSize ttl : option Z) :
  let made (r : Outcome (FastCache.t string V)) (n : Z) :=
    (n ≤ 0 → r = Throw "Cache size must be positive") ∧
    (0 < n →
     ∃ s, r = Ok s ∧ FastCache.capacity s = n ∧ FastCache.size s = 0 ∧
          FastCache.lru_list s = Some [] ∧
          FastCache.hits s = 0 ∧ FastCache.misses s = 0) in
  let made_ttl (r : Outcome (FastCacheWithTTL.t string V)) (n t : Z) :=
    (n ≤ 0 → r = Throw "Cache size must be positive") ∧
    (0 < n → t ≤ 0 → r = Throw "TTL must be positive") ∧
    (0 < n → 0 < t →
     ∃ c, r = Ok c ∧ FastCacheWithTTL.capacity c = n ∧ FastCacheWithTTL.ttl c = t ∧
          FastCacheWithTTL.autoCleanup c = true ∧
          FastCacheWithTTL.cleanupTimer c = Some t ∧
          FastCacheWithTTL.size c = 0 ∧
          FastCacheWithTTL.lru_list c = Some [] ∧
          FastCacheWithTTL.time_list c = Some [] ∧
          stats c = (0, 0, 0)) in
  made (CachePresets.apiCache maxSize) (default 1000 maxSize) ∧
  made (CachePresets.computeCache maxSize) (default 500 maxSize) ∧
  made_ttl (CachePresets.sessionCache maxSize ttl)
           (default 100 maxSize) (default 1800000 ttl) ∧
  made_ttl (CachePresets.tempCache maxSize ttl)
           (default 200 maxSize) (default 300000 ttl).
Proof.
  cbv zeta.
  assert (Hlru : ∀ n : Z,
              (n ≤ 0 → createCache (K:=string) (V:=V) n
                       = Throw "Cache size must be positive") ∧
              (0 < n → ∃ s, createCache (K:=string) (V:=V) n = Ok s ∧
                            FastCache.capacity s = n ∧ FastCache.size s = 0 ∧
                            FastCache.lru_list s = Some [] ∧
                            FastCache.hits s = 0 ∧ FastCache.misses s = 0)).
  { intros n. unfold createCache. split.
    - intros Hn. unfold FastCache.new. by rewrite (proj2 (Z.leb_le _ _)) by lia.
    - intros Hn. destruct (new_spec (K:=string) (V:=V) n Hn)
        as (s & Hnew & Hinv & Hmax & Hh & Hm & Hc).
      exists s. split; [done|]. split; [done|]. split.
      { unfold FastCache.size. by rewrite Hc, map_size_empty. }
      split; [by apply InvL_lru_list|done]. }
  assert (Httl : ∀ n t : Z,
              let options := mkOptions n (Some t) (Some true) None in
              (n ≤ 0 → createCacheWithTTL (K:=string) (V:=V) options
                       = Throw "Cache size must be positive") ∧
              (0 < n → t ≤ 0 → createCacheWithTTL (K:=string) (V:=V) options
                               = Throw "TTL must be positive") ∧
              (0 < n → 0 < t →
               ∃ c, createCacheWithTTL (K:=string) (V:=V) options = Ok c ∧
                    FastCacheWithTTL.capacity c = n ∧ FastCacheWithTTL.ttl c = t ∧
                    FastCacheWithTTL.autoCleanup c = true ∧
                    FastCacheWithTTL.cleanupTimer c = Some t ∧
                    FastCacheWithTTL.size c = 0 ∧
                    FastCacheWithTTL.lru_list c = Some [] ∧
                    FastCacheWithTTL.time_list c = Some [] ∧
                    stats c = (0, 0, 0))).
  { intros n t options. unfold createCacheWithTTL. split; [|split].
    - intros Hn. unfold FastCacheWithTTL.new, FastCache.new. simpl.
      by rewrite (proj2 (Z.leb_le n 0)) by lia.
    - intros Hn Ht. unfold FastCacheWithTTL.new, FastCache.new. simpl.
      rewrite (proj2 (Z.leb_gt n 0)) by lia. simpl.
      by rewrite (proj2 (Z.leb_le t 0)) by lia.
    - intros Hn Ht.
      destruct (proj2 (ttl_new_ok_iff (K:=string) (V:=V) options)) as [c Hnew].
      { split; [done|]. simpl. by intros ? [= <-]. }
      destruct (ttl_new_spec options c Hnew) as (Hinv & Hst & Hc & Hcf).
      destruct (InvT_lists c [] [] Hinv) as [Hl Htl].
      unfold config in Hcf. injection Hcf as Hct Hcm.
      exists c. split; [done|]. split; [done|]. split; [done|].
      assert (Hflags : FastCacheWithTTL.autoCleanup c = true ∧
                       FastCacheWithTTL.cleanupTimer c = Some t).
      { unfold FastCacheWithTTL.new, FastCache.new in Hnew. simpl in Hnew.
        rewrite (proj2 (Z.leb_gt n 0)) in Hnew by lia. simpl in Hnew.
        rewrite (proj2 (Z.leb_gt t 0)) in Hnew by lia.
        injection Hnew as <-. simpl. by rewrite (proj2 (Z.gtb_gt _ _)) by lia. }
      destruct Hflags as [Ha Htm].
      split; [done|]. split; [done|]. split.
      { unfold FastCacheWithTTL.size. by rewrite Hc, map_size_empty. }
      done. }
  split; [apply Hlru|]. split; [apply Hlru|]. split; apply Httl.
Qed.

Lemma X14_presets_witness :
  ∃ c : FastCacheWithTTL.t string Z,
    CachePresets.sessionCache None None = Ok c ∧
    FastCacheWithTTL.capacity c = 100 ∧ FastCacheWithTTL.ttl c = 1800000 ∧
    FastCacheWithTTL.cleanupTimer c = Some 1800000.
Proof.
  destruct (X14_presets (V:=Z) None None) as (_ & _ & (_ & _ & Hok) & _).
  destruct (Hok ltac:(simpl; lia) ltac:(simpl; lia))
    as (c & Hnew & Hcap & Httl & _ & Htm & _).
  exists c. split; [exact Hnew|]. split; [exact Hcap|]. split; [exact Httl|exact Htm].
Defined.

(** X15.  [has] answers as [get] finds.  In every state a client can reach,
    [has] of a key is [true] exactly when [get] of the key at the same time
    finds an entry: [get] then counts a hit and returns the stored value,
    and otherwise counts a miss and returns [undefined].  So a [get] that
    returns something other than [undefined] means [has] is [true]; the
    converse fails exactly for a key that holds [undefined], where [has] is
    [true] and [get] returns the [undefined] that is stored.  On the TTL cache
    the two calls drop the same expired entry: they leave the same index, the
    same time list and the same count of expired entries, and when the answer
    is [false] the same recency list.  They differ in that [has] never counts
    a hit or a miss and, when the answer is [true], changes nothing at all,
    where [get] moves the entry to the head of the recency list. *)
Theorem X15_has_answers_as_get `{Countable K} {V : Type} `{!Undefinable V} :
  (∀ (n : Z) (s : FastCache.t K V) (k : K),
     LRU.reachable n s →
     ∃ s' r,
       FastCache.get s k = Ok (s', r) ∧
       (FastCache.has s k = true →
        ∃ p v, FastCache.cache s !! k = Some p ∧
               value (FastCache.heap s p) = Some v ∧ r = Some v ∧
               FastCache.hits s' = FastCache.hits s + 1 ∧
               FastCache.misses s' = FastCache.misses s) ∧
       (FastCache.has s k = false →
        r = None ∧ FastCache.hits s' = FastCache.hits s ∧
        FastCache.misses s' = FastCache.misses s + 1) ∧
       ((∃ v, r = Some v ∧ is_undefined v = false) → FastCache.has s k = true)) ∧
  (∀ (options : CacheOptions) (c : FastCacheWithTTL.t K V) (k : K) (now : Z),
     TTL.reachable options c →
     ∃ c1 b c2 r,
       FastCacheWithTTL.has c k now = (c1, b) ∧
       FastCacheWithTTL.get c k now = Ok (c2, r) ∧
       (b = true →
        ∃ p v, FastCacheWithTTL.cache c !! k = Some p ∧
               value (FastCacheWithTTL.heap c p) = Some v ∧ r = Some v ∧
               FastCache.hits (FastCacheWithTTL.base c2)
                 = FastCache.hits (FastCacheWithTTL.base c) + 1 ∧
               FastCache.misses (FastCacheWithTTL.base c2)
                 = FastCache.misses (FastCacheWithTTL.base c)) ∧
       (b = false →
        r = None ∧
        FastCache.hits (FastCacheWithTTL.base c2)
          = FastCache.hits (FastCacheWithTTL.base c) ∧
        FastCache.misses (FastCacheWithTTL.base c2)
          = FastCache.misses (FastCacheWithTTL.base c) + 1) ∧
       ((∃ v, r = Some v ∧ is_undefined v = false) → b = true) ∧
       FastCacheWithTTL.cache c1 = FastCacheWithTTL.cache c2 ∧
       FastCacheWithTTL.time_list c1 = FastCacheWithTTL.time_list c2 ∧
       FastCacheWithTTL.expired c1 = FastCacheWithTTL.expired c2 ∧
       FastCache.hits (FastCacheWithTTL.base c1) = FastCache.hits (FastCacheWithTTL.base c) ∧
       FastCache.misses (FastCacheWithTTL.base c1)
         = FastCache.misses (FastCacheWithTTL.base c) ∧
       (b = false → FastCacheWithTTL.lru_list c1 = FastCacheWithTTL.lru_list c2) ∧
       (b = true → c1 = c)).
Proof.
  split.
  - intros n s k Hreach. destruct (lru_reachable_inv n s Hreach) as (l & Hinv & _).
    unfold FastCache.has.
    destruct (FastCache.cache s !! k) as [p|] eqn:Hk.
    + destruct (get_hit s l k p Hinv Hk) as (h' & v & -> & Hv & _).
      do 2 eexists. split; [done|]. split; [|split].
      * intros _. by exists p, v.
      * intros Hf. by apply bool_decide_eq_false in Hf as [].
      * intros _. by apply bool_decide_eq_true.
    + rewrite get_miss by done. do 2 eexists. split; [done|]. split; [|split].
      * intros Ht. apply bool_decide_eq_true in Ht as [? ?]. done.
      * done.
      * by intros (v & ? & _).
  - intros options c k now Hreach.
    destruct (ttl_reachable_inv options c Hreach) as (l & tl & Hinv & _).
    destruct (FastCacheWithTTL.cache c !! k) as [p|] eqn:Hk.
    + destruct (FastCacheWithTTL.isExpired c p now) eqn:Hexp.
      * destruct (ttl_delete_present c l tl k p Hinv Hk)
          as (c' & Hdel & Hinv' & _ & Hst & _).
        unfold FastCacheWithTTL.has, FastCacheWithTTL.get. rewrite Hk, Hexp, Hdel. simpl.
        unfold stats in Hst. injection Hst as Hh Hm _.
        do 4 eexists. split; [done|]. split; [done|].
        split; [done|]. split; [simpl; by rewrite Hh, Hm|].
        split; [by intros (v & ? & _)|]. done.
      * destruct (ttl_get_live c l tl k p now Hinv Hk Hexp)
          as (c' & v & -> & Hv & Hinv' & Hc' & Hst & _).
        rewrite (ttl_has_live c k p now) by done.
        destruct (InvT_lists c l tl Hinv) as [_ Htl].
        destruct (InvT_lists c' _ _ Hinv') as [_ Htl'].
        unfold stats in Hst. injection Hst as Hh Hm He.
        do 4 eexists. split; [done|]. split; [done|].
        split; [intros _; by exists p, v|]. split; [done|]. split; [done|].
        split; [done|]. split; [by rewrite Htl, Htl'|]. done.
    + rewrite ttl_has_absent, ttl_get_miss by done.
      do 4 eexists. split; [done|]. split; [done|].
      split; [done|]. split; [done|]. split; [by intros (v & ? & _)|]. done.
Qed.

Lemma X15_has_answers_as_get_witness :
  ∃ (c c1 c2 : FastCacheWithTTL.t string (option Z)) b r,
    TTL.reachable (mkOptions 2 (Some 100) None None) c ∧
    FastCacheWithTTL.has c "a" 50 = (c1, b) ∧
    FastCacheWithTTL.get c "a" 50 = Ok (c2, r) ∧
    b = true ∧ (∃ v, r = Some v) ∧ c1 = c ∧
    FastCacheWithTTL.cache c1 = FastCacheWithTTL.cache c2.
Proof.
  assert (Hr : returns (c0 ← FastCacheWithTTL.new (K:=string) (V:=option Z)
                               (mkOptions 2 (Some 100) None None);
                        TTL.run c0 [TTL.OpSet "a" None 0; TTL.OpSet "b" (Some 2) 40])
                 (λ '(c, _), (FastCacheWithTTL.has c "a" 50).2 = true))
    by (vm_compute; reflexivity).
  destruct (proj1 (returns_ex _ _) Hr) as ([c outs] & Hrun & Hb).
  apply ttl_reachable_intro in Hrun.
  destruct (proj2 (X15_has_answers_as_get (K:=string) (V:=option Z)) _ c "a" 50 Hrun)
    as (c1 & b & c2 & r & Hhas & Hget & Htrue & _ & _ & Hc & _ & _ & _ & _ & _ & Hsame).
  rewrite Hhas in Hb. simpl in Hb.
  destruct (Htrue Hb) as (p & v & _ & _ & Hv & _).
  exists c, c1, c2, b, r.
  split; [exact Hrun|]. split; [exact Hhas|]. split; [exact Hget|].
  split; [exact Hb|]. split; [exists v; exact Hv|]. split; [exact (Hsame Hb)|exact Hc].
Defined.
